(** * The local static-analysis engine of datachonk-cli (utils/analyzer)

    A shallow embedding of [parseModel], [detectAntiPatterns],
    [detectAntiPatternsFromContent] and [reviewCode], together with the
    JavaScript string and regular-expression operations they call.

    Modelling choices.
    - A JS string is a sequence of UTF-16 code units.  The model covers the
      texts whose code units are all below 256 (the Latin-1 range), written
      as Rocq [string]s: one [ascii] per code unit.  On that range
      [toLowerCase], [trim] and the classes [\s], [\w], [\d] and [.] are
      given in full.
    - JS numbers that the code uses as counters, line numbers and scores are
      integers, modelled in [Z].
    - A regular expression literal becomes a term of [regex]; the matcher is
      the backtracking matcher of the language standard (leftmost match,
      alternatives and quantifiers tried in priority order), written with
      continuations.  Every quantifier of the source applies to a character
      class, so [Rep] repeats a class.
    - Every pattern is a literal evaluated inside the call, and [matchAll]
      is only applied to patterns with the [g] flag: no pattern keeps a
      position from one call to the next.
    - [config] is a JS object used as a map: a [gmap string string].
    - The source reads no clock, no random source, no file and no
      module-level variable, and writes to none of its arguments; on that
      reading each operation is a Rocq function of its arguments.  That the
      operations are pure is thus a premise of the embedding, checked
      against the source text, and not one of its theorems. *)

From Stdlib Require Import ZArith Ascii String List Bool Lia DecimalString Permutation.
From stdpp Require Import base option gmap strings.

Import ListNotations.
Open Scope string_scope.
Open Scope Z_scope.

(* Text is taken apart by computation throughout: let [simpl] unfold
   concatenation again. *)
#[local] Arguments String.append !s1 s2 / : simpl nomatch.

(** ** Code units and character classes *)

Definition cset := ascii -> bool.

Definition code (c : ascii) : N := N_of_ascii c.

Definition in_range (lo hi : N) (c : ascii) : bool :=
  ((lo <=? code c) && (code c <=? hi))%N.

(** [\d] *)
Definition is_digit : cset := in_range 48 57.

(** [\w]: [A-Za-z0-9_] *)
Definition is_word : cset := fun c =>
  in_range 97 122 c || in_range 65 90 c || is_digit c || (code c =? 95)%N.

(** [\s]: white space and line terminators; below 256 these are
    TAB, LF, VT, FF, CR, SPACE and NBSP. *)
Definition is_space : cset := fun c =>
  in_range 9 13 c || (code c =? 32)%N || (code c =? 160)%N.

(** [.]: anything but a line terminator (LF and CR below 256). *)
Definition is_dot : cset := fun c =>
  negb ((code c =? 10)%N || (code c =? 13)%N).

(** [[\s\S]] *)
Definition is_any : cset := fun _ => true.

Definition is_char (x : ascii) : cset := fun c => Ascii.eqb c x.

(** The double quote, code unit 34; the patterns below are quoted in the
    comments with Q standing for it. *)
Definition dquote : ascii := ascii_of_N 34.

(** [['Q]] and [[^'Q]] *)
Definition is_quote : cset := fun c => is_char "'" c || is_char dquote c.
Definition not_quote : cset := fun c => negb (is_quote c).

(** [[^(]] *)
Definition not_lparen : cset := fun c => negb (is_char "(" c).

(** [String.prototype.toLowerCase] on one code unit below 256: A-Z and the
    accented capitals U+00C0..U+00DE (without the sign U+00D7) move up by 32. *)
Definition lower_char (c : ascii) : ascii :=
  if in_range 65 90 c || (in_range 192 222 c && negb (code c =? 215)%N)
  then ascii_of_N (code c + 32) else c.

(** Canonicalize of a case-insensitive regular expression without the
    unicode flag, for the comparison against an ASCII pattern character: a
    code unit of 128 or more never folds onto an ASCII one. *)
Definition canon (c : ascii) : ascii :=
  if in_range 97 122 c then ascii_of_N (code c - 32) else c.

(** A pattern character under the [i] flag. *)
Definition is_char_ci (x : ascii) : cset := fun c => Ascii.eqb (canon c) (canon x).

(** ** String operations *)

Fixpoint toLowerCase (s : string) : string :=
  match s with
  | EmptyString => EmptyString
  | String c s' => String (lower_char c) (toLowerCase s')
  end.

Fixpoint startsWith (p s : string) : bool :=
  match p, s with
  | EmptyString, _ => true
  | String a p', String b s' => Ascii.eqb a b && startsWith p' s'
  | String _ _, EmptyString => false
  end.

(** [s.includes(t)] *)
Fixpoint includes (t s : string) : bool :=
  startsWith t s ||
  match s with
  | EmptyString => false
  | String _ s' => includes t s'
  end.

(** [s.slice(0, n)] for [0 <= n] *)
Fixpoint slice0 (n : nat) (s : string) : string :=
  match n, s with
  | S n', String c s' => String c (slice0 n' s')
  | _, _ => EmptyString
  end.

(** [s.split("\n")] *)
Fixpoint split_lines_go (cur : string) (s : string) : list string :=
  match s with
  | EmptyString => [String.rev cur]
  | String c s' =>
      if (code c =? 10)%N then String.rev cur :: split_lines_go EmptyString s'
      else split_lines_go (String c cur) s'
  end.

Definition split_lines (s : string) : list string := split_lines_go EmptyString s.

(** [a.findIndex(p)]: the first index whose element passes, or -1. *)
Fixpoint findIndex {A} (p : A -> bool) (l : list A) : Z :=
  match l with
  | [] => -1
  | x :: l' => if p x then 0 else
      match findIndex p l' with
      | Zneg _ => -1
      | i => i + 1
      end
  end.

(** [a.length] as a JS number *)
Definition len {A} (l : list A) : Z := Z.of_nat (List.length l).

(** [String(n)] of an integer, as a template literal prints it. *)
Definition show (n : Z) : string := NilEmpty.string_of_int (Z.to_int n).

Fixpoint trimStart (s : string) : string :=
  match s with
  | String c s' => if is_space c then trimStart s' else s
  | EmptyString => EmptyString
  end.

Definition trim (s : string) : string :=
  String.rev (trimStart (String.rev (trimStart s))).

(** ** Regular expressions *)

Inductive regex : Type :=
| Empty                                      (* the empty pattern *)
| Char (p : cset)                            (* one code unit of a class *)
| Seq (r1 r2 : regex)                        (* r1 r2 *)
| Alt (r1 r2 : regex)                        (* r1|r2 *)
| Rep (lazy : bool) (min : nat) (p : cset)   (* p{min,} or p{min,}? *)
| Opt (r : regex)                            (* (?:r)? *)
| Group (n : nat) (r : regex)                (* the n-th capturing group *)
| WordB                                      (* \b *)
| NotAhead (r : regex)                       (* (?!r) *)
| Eos.                                       (* $ without the m flag *)

(** The matcher's state: the code unit before the current position (for
    [\b]), the text from the current position on, the number of code units
    consumed since the match began, and the captures made so far (the most
    recent first). *)
Record mstate : Type := MState {
  m_prev : option ascii;
  m_rest : string;
  m_pos : nat;
  m_caps : list (nat * string)
}.

Definition cont := mstate -> option mstate.

Definition word_at (o : option ascii) : bool :=
  match o with Some c => is_word c | None => false end.

Definition next_char (s : string) : option ascii :=
  match s with String c _ => Some c | EmptyString => None end.

Definition orelse {A} (a : option A) (b : option A) : option A :=
  match a with Some x => Some x | None => b end.

(** Greedy [p{min,}]: take a code unit if possible and try the rest; only
    then, when [min] is reached, try the continuation here. *)
Fixpoint rep_greedy (p : cset) (caps : list (nat * string)) (k : cont)
    (min : nat) (prev : option ascii) (pos : nat) (s : string) : option mstate :=
  let here := match min with
              | O => k (MState prev s pos caps)
              | S _ => None
              end in
  match s with
  | String c s' =>
      if p c then orelse (rep_greedy p caps k (Nat.pred min) (Some c) (S pos) s') here
      else here
  | EmptyString => here
  end.

(** Lazy [p{min,}?]: once [min] is reached try the continuation first, and
    take one more code unit only when it fails. *)
Fixpoint rep_lazy (p : cset) (caps : list (nat * string)) (k : cont)
    (min : nat) (prev : option ascii) (pos : nat) (s : string) : option mstate :=
  let more := match s with
              | String c s' =>
                  if p c then rep_lazy p caps k (Nat.pred min) (Some c) (S pos) s'
                  else None
              | EmptyString => None
              end in
  match min with
  | O => orelse (k (MState prev s pos caps)) more
  | S _ => more
  end.

Fixpoint run (r : regex) (st : mstate) (k : cont) : option mstate :=
  match r with
  | Empty => k st
  | Char p =>
      match m_rest st with
      | String c s' =>
          if p c then k (MState (Some c) s' (S (m_pos st)) (m_caps st)) else None
      | EmptyString => None
      end
  | Seq r1 r2 => run r1 st (fun st' => run r2 st' k)
  | Alt r1 r2 => orelse (run r1 st k) (run r2 st k)
  | Rep lazy min p =>
      (if lazy then rep_lazy else rep_greedy)
        p (m_caps st) k min (m_prev st) (m_pos st) (m_rest st)
  | Opt r1 => orelse (run r1 st k) (k st)
  | Group n r1 =>
      run r1 st (fun st' =>
        k (MState (m_prev st') (m_rest st') (m_pos st')
             ((n, slice0 (m_pos st' - m_pos st) (m_rest st)) :: m_caps st')))
  | WordB =>
      if xorb (word_at (m_prev st)) (word_at (next_char (m_rest st)))
      then k st else None
  | NotAhead r1 =>
      match run r1 st Some with
      | Some _ => None
      | None => k st
      end
  | Eos =>
      match m_rest st with
      | EmptyString => k st
      | String _ _ => None
      end
  end.

(** A match object: [m[0]] and the captures. *)
Record rmatch : Type := RMatch {
  whole : string;
  groups : list (nat * string)
}.

(** [m[n]]: the latest capture of group [n], [undefined] when it took no part. *)
Fixpoint group (n : nat) (caps : list (nat * string)) : option string :=
  match caps with
  | [] => None
  | (i, s) :: caps' => if Nat.eqb i n then Some s else group n caps'
  end.

(** One attempt at the position where [s] starts; the result carries the
    length of the match. *)
Definition exec (r : regex) (prev : option ascii) (s : string) : option (nat * rmatch) :=
  match run r (MState prev s 0 []) Some with
  | Some st => Some (m_pos st, RMatch (slice0 (m_pos st) s) (m_caps st))
  | None => None
  end.

(** [s.match(r)] without the [g] flag: the leftmost match. *)
Fixpoint search_from (r : regex) (prev : option ascii) (s : string) : option rmatch :=
  match exec r prev s with
  | Some (_, m) => Some m
  | None =>
      match s with
      | String c s' => search_from r (Some c) s'
      | EmptyString => None
      end
  end.

Definition search (r : regex) (s : string) : option rmatch := search_from r None s.

(** [s.matchAll(r)] with the [g] flag, and the list [s.match(r)] builds with
    it: successive matches, each attempt starting where the last match
    ended, one code unit further after an empty match.  [skip] counts the
    code units still covered by the last match. *)
Fixpoint matchAll_from (r : regex) (skip : nat) (prev : option ascii) (s : string)
    : list rmatch :=
  match skip with
  | S n =>
      match s with
      | String c s' => matchAll_from r n (Some c) s'
      | EmptyString => []
      end
  | O =>
      match exec r prev s with
      | Some (l, m) =>
          m :: match s with
               | String c s' => matchAll_from r (Nat.pred l) (Some c) s'
               | EmptyString => []
               end
      | None =>
          match s with
          | String c s' => matchAll_from r 0 (Some c) s'
          | EmptyString => []
          end
      end
  end.

Definition matchAll (r : regex) (s : string) : list rmatch := matchAll_from r 0 None s.

(** [s.split(r)] for a pattern without capturing groups: the pieces between
    the matches; an empty match at the start of a piece is passed over. *)
Fixpoint split_go (r : regex) (skip : nat) (prev : option ascii) (cur : string)
    (s : string) : list string :=
  match s with
  | EmptyString => [String.rev cur]
  | String c s' =>
      match skip with
      | S n => split_go r n (Some c) cur s'
      | O =>
          match exec r prev s with
          | Some (S n, _) => String.rev cur :: split_go r n (Some c) EmptyString s'
          | Some (O, _) =>
              match cur with
              | EmptyString => split_go r 0 (Some c) (String c cur) s'
              | String _ _ =>
                  String.rev cur :: split_go r 0 (Some c) (String c EmptyString) s'
              end
          | None => split_go r 0 (Some c) (String c cur) s'
          end
      end
  end.

Definition split_re (r : regex) (s : string) : list string :=
  match s with
  | EmptyString => match exec r None s with Some _ => [] | None => [s] end
  | String _ _ => split_go r 0 None EmptyString s
  end.

(** Pattern builders. *)

(** A literal run of pattern characters. *)
Fixpoint lit (s : string) : regex :=
  match s with
  | EmptyString => Empty
  | String c EmptyString => Char (is_char c)
  | String c s' => Seq (Char (is_char c)) (lit s')
  end.

(** The same under the [i] flag. *)
Fixpoint lit_ci (s : string) : regex :=
  match s with
  | EmptyString => Empty
  | String c EmptyString => Char (is_char_ci c)
  | String c s' => Seq (Char (is_char_ci c)) (lit_ci s')
  end.

Fixpoint seq (rs : list regex) : regex :=
  match rs with
  | [] => Empty
  | [r] => r
  | r :: rs' => Seq r (seq rs')
  end.

Definition star (p : cset) : regex := Rep false 0 p.        (* p*  *)
Definition plus (p : cset) : regex := Rep false 1 p.        (* p+  *)
Definition star_lazy (p : cset) : regex := Rep true 0 p.    (* p*? *)
Definition plus_lazy (p : cset) : regex := Rep true 1 p.    (* p+? *)

(** ** The data model *)

Inductive Severity : Type := critical | high | medium | low.

Inductive ModelType : Type :=
  staging | intermediate | fact | dimension | snapshot | unknown.

(** The string a value of the union type is at run time. *)
Definition severity_name (s : Severity) : string :=
  match s with
  | critical => "critical" | high => "high" | medium => "medium" | low => "low"
  end.

Definition type_name (t : ModelType) : string :=
  match t with
  | staging => "staging" | intermediate => "intermediate" | fact => "fact"
  | dimension => "dimension" | snapshot => "snapshot" | unknown => "unknown"
  end.

Record Issue : Type := {
  pattern : string;
  severity : Severity;
  location : string;
  fix_ : string;
  explanation : string;
  line : option Z
}.

Record Source : Type := { schema : string; table : string }.

Record ParsedModel : Type := {
  name : string;
  type : ModelType;
  materialization : option string;
  config : gmap string string;
  refs : list string;
  sources : list Source;
  columns : list string;
  hasTests : bool;
  cteCount : Z;
  lineCount : Z
}.

Inductive Verdict : Type := approve | request_changes | comment.

Record ReviewIssue : Type := {
  r_severity : string;
  title : string;
  description : string;
  suggestion : string;
  r_line : option Z
}.

Record ReviewResult : Type := {
  score : Z;
  overall : Verdict;
  strengths : list string;
  issues : list ReviewIssue
}.

#[global] Instance Severity_eq_dec : EqDecision Severity.
Proof. solve_decision. Defined.

#[global] Instance ModelType_eq_dec : EqDecision ModelType.
Proof. solve_decision. Defined.

(** ** The patterns of [parseModel] *)

(** [/\{\{\s*config\s*\(([\s\S]*?)\)\s*\}\}/] *)
Definition re_config : regex :=
  seq [lit "{{"; star is_space; lit "config"; star is_space; lit "(";
       Group 1 (star_lazy is_any); lit ")"; star is_space; lit "}}"].

(** [/materialized\s*=\s*['Q](\w+)['Q]/] *)
Definition re_materialized : regex :=
  seq [lit "materialized"; star is_space; lit "="; star is_space;
       Char is_quote; Group 1 (plus is_word); Char is_quote].

(** [/(\w+)\s*=\s*(['Q]([^'Q]+)['Q]|(\w+))/g] *)
Definition re_kv : regex :=
  seq [Group 1 (plus is_word); star is_space; lit "="; star is_space;
       Group 2 (Alt (seq [Char is_quote; Group 3 (plus not_quote); Char is_quote])
                    (Group 4 (plus is_word)))].

(** [/\{\{\s*ref\(['Q]([^'Q]+)['Q]\)\s*\}\}/g] *)
Definition re_ref : regex :=
  seq [lit "{{"; star is_space; lit "ref("; Char is_quote;
       Group 1 (plus not_quote); Char is_quote; lit ")"; star is_space; lit "}}"].

(** [/\{\{\s*source\(['Q]([^'Q]+)['Q],\s*['Q]([^'Q]+)['Q]\)\s*\}\}/g] *)
Definition re_source : regex :=
  seq [lit "{{"; star is_space; lit "source("; Char is_quote;
       Group 1 (plus not_quote); Char is_quote; lit ","; star is_space;
       Char is_quote; Group 2 (plus not_quote); Char is_quote; lit ")";
       star is_space; lit "}}"].

(** [/\bwith\b/gi] *)
Definition re_with : regex := seq [WordB; lit_ci "with"; WordB].

(** [/\),\s*\w+\s+as\s*\(/gi] *)
Definition re_cte_next : regex :=
  seq [lit_ci "),"; star is_space; plus is_word; plus is_space; lit_ci "as";
       star is_space; lit_ci "("].

(** [/select\s+([\s\S]+?)\s+from/i] *)
Definition re_select : regex :=
  seq [lit_ci "select"; plus is_space; Group 1 (plus_lazy is_any);
       plus is_space; lit_ci "from"].

(** [/,(?![^(]*\))/] *)
Definition re_comma : regex :=
  Seq (lit ",") (NotAhead (Seq (star not_lparen) (lit ")"))).

(** [/(?:as\s+)?(\w+)\s*$/i] *)
Definition re_alias : regex :=
  seq [Opt (Seq (lit_ci "as") (plus is_space)); Group 1 (plus is_word);
       star is_space; Eos].

(** ** Errors

    The only way this code can fail is a [TypeError]: a method call on
    [undefined], the value [m[n]] has when group [n] took no part in the
    match.  Such calls are written with [need]. *)

Inductive result (A : Type) : Type :=
| Ok (a : A)
| Throw (e : string).

Arguments Ok {A} a.
Arguments Throw {A} e.

Definition bind {A B} (x : result A) (f : A -> result B) : result B :=
  match x with
  | Ok a => f a
  | Throw e => Throw e
  end.

#[global] Instance result_ret : MRet result := fun A a => Ok a.
#[global] Instance result_bind : MBind result := fun A B f x => bind x f.

(** The receiver of a method call. *)
Definition need (v : option string) : result string :=
  match v with
  | Some s => Ok s
  | None => Throw "TypeError: Cannot read properties of undefined"
  end.

(** ** parseModel *)

(** [m[n]] read as a value; [parseModel_captures_defined] below shows that
    at every use the group took part in the match, so that the default is
    never seen. *)
Definition cap (n : nat) (m : rmatch) : string :=
  match group n (groups m) with Some s => s | None => "" end.

(** [a || b] on captures: [undefined] and the empty string are falsy. *)
Definition cap_or (a b : option string) : string :=
  match a with
  | Some (String c s) => String c s
  | _ => match b with Some s => s | None => "" end
  end.

(** [config[k] = v] on a plain object: the assignment of a string to
    [__proto__] reaches the setter of [Object.prototype] and changes
    nothing; every other key becomes an own property. *)
Definition config_set (k v : string) (cfg : gmap string string) : gmap string string :=
  if String.eqb k "__proto__" then cfg else <[k := v]> cfg.

(** Determine type from file name. *)
Definition inferType (fileName : string) : ModelType :=
  if startsWith "stg_" fileName then staging
  else if startsWith "int_" fileName then intermediate
  else if startsWith "fct_" fileName then fact
  else if startsWith "dim_" fileName then dimension
  else if includes "snapshot" fileName then snapshot
  else unknown.

(** The loop over [kvPairs]. *)
Definition config_of (kvPairs : list rmatch) : gmap string string :=
  fold_left (fun cfg m =>
               config_set (cap 1 m) (cap_or (group 3 (groups m)) (group 4 (groups m))) cfg)
            kvPairs ∅.

(** Extract config. *)
Definition parseConfig (content : string) : result (option string * gmap string string) :=
  match search re_config content with
  | Some configMatch =>
      configStr ← need (group 1 (groups configMatch));
      let materialization :=
        match search re_materialized configStr with
        | Some matMatch => Some (cap 1 matMatch)
        | None => None
        end in
      Ok (materialization, config_of (matchAll re_kv configStr))
  | None => Ok (None, ∅)
  end.

(** The loop over [columnPatterns]. *)
Definition columns_of (columnPatterns : list string) : list string :=
  fold_left (fun columns pat =>
               match search re_alias (trim pat) with
               | Some aliasMatch => (columns ++ [cap 1 aliasMatch])%list
               | None => columns
               end)
            columnPatterns [].

(** Extract columns from final SELECT. *)
Definition parseColumns (content : string) : result (list string) :=
  match search re_select content with
  | Some selectMatch =>
      clause ← need (group 1 (groups selectMatch));
      if negb (includes "*" clause)
      then Ok (columns_of (split_re re_comma clause))
      else Ok []
  | None => Ok []
  end.

(** Extract refs. *)
Definition parseRefs (content : string) : list string :=
  map (cap 1) (matchAll re_ref content).

(** Extract sources. *)
Definition parseSources (content : string) : list Source :=
  map (fun m => {| schema := cap 1 m; table := cap 2 m |}) (matchAll re_source content).

(** Count CTEs. *)
Definition countCtes (content : string) : Z :=
  len (matchAll re_with content) + len (matchAll re_cte_next content).

Definition parseModel (content fileName : string) : result ParsedModel :=
  let type := inferType fileName in
  '(materialization, config) ← parseConfig content;
  let refs := parseRefs content in
  let sources := parseSources content in
  let cteCount := countCtes content in
  columns ← parseColumns content;
  Ok {| name := fileName;
        type := type;
        materialization := materialization;
        config := config;
        refs := refs;
        sources := sources;
        columns := columns;
        hasTests := false;
        cteCount := cteCount;
        lineCount := len (split_lines content) |}.

(** ** detectAntiPatterns *)

Definition detectAntiPatterns (model : ParsedModel) (warehouse : string) : list Issue :=
  let issues : list Issue := [] in
  issues.

(** ** detectAntiPatternsFromContent *)

(** [/'(20\d{2}-\d{2}-\d{2})'/] *)
Definition re_date : regex :=
  seq [lit "'";
       Group 1 (seq [lit "20"; Char is_digit; Char is_digit; lit "-";
                     Char is_digit; Char is_digit; lit "-";
                     Char is_digit; Char is_digit]);
       lit "'"].

(** [/where\s+(\w+)\(.*?\)\s*=/i] *)
Definition re_where_func : regex :=
  seq [lit_ci "where"; plus is_space; Group 1 (plus is_word); lit_ci "(";
       star_lazy is_dot; lit_ci ")"; star is_space; lit_ci "="].

(** [/on\s+(\w+)\(.*?\)\s*=/i] *)
Definition re_on_func : regex :=
  seq [lit_ci "on"; plus is_space; Group 1 (plus is_word); lit_ci "(";
       star_lazy is_dot; lit_ci ")"; star is_space; lit_ci "="].

(** [issues.push(i)] under a condition. *)
Definition push_if {A} (b : bool) (x : A) (l : list A) : list A :=
  if b then (l ++ [x])%list else l.

(** [lines.findIndex(l => l.toLowerCase().includes(t)) + 1] *)
Definition lineOfLower (t : string) (lines : list string) : Z :=
  findIndex (fun l => includes t (toLowerCase l)) lines + 1.

(** A value read from [config] is truthy when it is there and not empty. *)
Definition truthy (v : option string) : bool :=
  match v with
  | Some (String _ _) => true
  | _ => false
  end.

Definition issue_select_star (lineNum : Z) : Issue :=
  {| pattern := "SELECT * in production";
     severity := high;
     location := "Line " +:+ show lineNum;
     fix_ := "List specific columns needed";
     explanation := "SELECT * is fragile (breaks when source adds columns), expensive (transfers unnecessary data), and hides dependencies.";
     line := Some lineNum |}.

Definition issue_staging_join (lineNum : Z) : Issue :=
  {| pattern := "Join in staging model";
     severity := medium;
     location := "Line " +:+ show lineNum;
     fix_ := "Move joins to intermediate or mart layer";
     explanation := "Staging should be 1:1 with source. Joins belong in intermediate models where business logic lives.";
     line := Some lineNum |}.

Definition issue_staging_ref : Issue :=
  {| pattern := "ref() in staging model";
     severity := high;
     location := "Model references";
     fix_ := "Use source() instead of ref() in staging models";
     explanation := "Staging models should only reference sources, not other models.";
     line := None |}.

Definition issue_no_unique_key : Issue :=
  {| pattern := "Incremental without unique_key";
     severity := critical;
     location := "Config block";
     fix_ := "Add unique_key to config for merge/delete+insert strategies";
     explanation := "Without unique_key, merge strategy won't work correctly and you'll accumulate duplicates.";
     line := None |}.

Definition issue_unbounded : Issue :=
  {| pattern := "Unbounded incremental filter";
     severity := medium;
     location := "Incremental WHERE clause";
     fix_ := "Add upper bound: AND updated_at < current_timestamp()";
     explanation := "Future-dated rows will be processed repeatedly without an upper bound.";
     line := None |}.

Definition issue_date (lineNum : Z) (lit0 : string) : Issue :=
  {| pattern := "Hardcoded date literal";
     severity := medium;
     location := "Line " +:+ show lineNum +:+ ": " +:+ lit0;
     fix_ := "Use var() or dbt_date macros";
     explanation := "Hardcoded dates require manual updates and differ between environments.";
     line := Some lineNum |}.

Definition issue_distinct_join : Issue :=
  {| pattern := "DISTINCT after JOIN (possible fan-out fix)";
     severity := high;
     location := "SELECT DISTINCT with JOIN";
     fix_ := "Fix the join condition or deduplicate upstream";
     explanation := "DISTINCT after JOIN often masks a fan-out problem. Fix the root cause instead.";
     line := None |}.

Definition issue_cross_join (lineNum : Z) : Issue :=
  {| pattern := "CROSS JOIN detected";
     severity := critical;
     location := "Line " +:+ show lineNum;
     fix_ := "Ensure CROSS JOIN is intentional; consider alternatives";
     explanation := "CROSS JOINs create Cartesian products. Even small tables (1K x 1K = 1M rows) can explode.";
     line := Some lineNum |}.

Definition issue_func_filter : Issue :=
  {| pattern := "Function on filter/join column";
     severity := high;
     location := "WHERE/ON clause";
     fix_ := "Move transformation to other side of comparison or materialize";
     explanation := "Functions on filter columns prevent partition pruning and index usage.";
     line := None |}.

Definition issue_uuid_view : Issue :=
  {| pattern := "Non-deterministic function in view";
     severity := medium;
     location := "UUID generation";
     fix_ := "Materialize as table or use consistent key generation";
     explanation := "UUID_STRING() in views generates new values on each query.";
     line := None |}.

Definition issue_limit : Issue :=
  {| pattern := "LIMIT without ORDER BY";
     severity := medium;
     location := "LIMIT clause";
     fix_ := "Add ORDER BY for deterministic results";
     explanation := "BigQuery doesn't guarantee row order without ORDER BY.";
     line := None |}.

Definition issue_cte_count (n : Z) : Issue :=
  {| pattern := "High CTE count";
     severity := low;
     location := show n +:+ " CTEs detected";
     fix_ := "Consider breaking into separate intermediate models";
     explanation := "Many CTEs can be hard to maintain and debug. Consider refactoring.";
     line := None |}.

Definition option_eqb (a : option string) (b : string) : bool :=
  match a with Some s => String.eqb s b | None => false end.

Definition detectAntiPatternsFromContent
    (content : string) (model : ParsedModel) (warehouse : string) : list Issue :=
  let issues : list Issue := [] in
  let sqlLower := toLowerCase content in
  let lines := split_lines content in
  (* SELECT * *)
  let issues :=
    push_if (includes "select *" sqlLower && negb (includes "select * from (" sqlLower))
            (issue_select_star (lineOfLower "select *" lines)) issues in
  (* Business logic in staging *)
  let issues :=
    if decide (type model = staging) then
      let issues :=
        push_if (includes " join " sqlLower && negb (includes "deduplication" sqlLower))
                (issue_staging_join (lineOfLower " join " lines)) issues in
      push_if (0 <? len (refs model)) issue_staging_ref issues
    else issues in
  (* Missing incremental config *)
  let issues :=
    push_if (includes "is_incremental()" sqlLower
             && negb (truthy (config model !! "unique_key")))
            issue_no_unique_key issues in
  (* Unbounded incremental *)
  let issues :=
    if includes "is_incremental()" sqlLower then
      let hasUpperBound :=
        includes "< current" sqlLower || includes "< getdate" sqlLower
        || includes "< now()" sqlLower || includes "< sysdate" sqlLower in
      push_if (negb hasUpperBound) issue_unbounded issues
    else issues in
  (* Hardcoded dates *)
  let issues :=
    match search re_date content with
    | Some hardcodedDateMatch =>
        let lineNum := findIndex (fun l => includes (whole hardcodedDateMatch) l) lines + 1 in
        (issues ++ [issue_date lineNum (whole hardcodedDateMatch)])%list
    | None => issues
    end in
  (* DISTINCT after JOIN *)
  let issues :=
    push_if (includes "select distinct" sqlLower && includes " join " sqlLower)
            issue_distinct_join issues in
  (* Cross join or Cartesian product *)
  let issues :=
    push_if (includes "cross join" sqlLower)
            (issue_cross_join (lineOfLower "cross join" lines)) issues in
  (* Function on filter columns *)
  let funcOnFilterMatch :=
    orelse (search re_where_func sqlLower) (search re_on_func sqlLower) in
  let issues :=
    push_if (bool_decide (is_Some funcOnFilterMatch)) issue_func_filter issues in
  (* Warehouse-specific checks *)
  let issues :=
    if String.eqb warehouse "snowflake" then
      push_if (includes "uuid_string()" sqlLower
               && option_eqb (materialization model) "view")
              issue_uuid_view issues
    else issues in
  let issues :=
    if String.eqb warehouse "bigquery" then
      push_if (includes "limit" sqlLower && negb (includes "order by" sqlLower))
              issue_limit issues
    else issues in
  (* Large CTE count *)
  let issues :=
    push_if (7 <? cteCount model) (issue_cte_count (cteCount model)) issues in
  issues.

(** ** reviewCode *)

Definition penalty (s : Severity) : Z :=
  match s with
  | critical => 25
  | high => 15
  | medium => 10
  | low => 5
  end.

Definition review_of (ap : Issue) : ReviewIssue :=
  {| r_severity := severity_name (severity ap);
     title := pattern ap;
     description := explanation ap;
     suggestion := fix_ ap;
     r_line := line ap |}.

Definition issue_missing_description : ReviewIssue :=
  {| r_severity := "low";
     title := "Missing model description";
     description := "Model has no description in config or YAML";
     suggestion := "Add a description explaining the model's purpose";
     r_line := None |}.

Definition issue_naming (model : ParsedModel) : ReviewIssue :=
  {| r_severity := "low";
     title := "Inconsistent naming convention";
     description := "Model type appears to be " +:+ type_name (type model)
                    +:+ " but name doesn't follow convention";
     suggestion := "Rename to " +:+ slice0 3 (type_name (type model)) +:+ "_"
                   +:+ name model;
     r_line := None |}.

(** [issues.some(i => i.severity === s)] *)
Definition some_severity (s : string) (l : list ReviewIssue) : bool :=
  existsb (fun i => String.eqb (r_severity i) s) l.

(** The loop over the detected anti-patterns: one step pushes the issue and
    deducts the points of its severity. *)
Definition review_step (acc : list ReviewIssue * Z) (ap : Issue) : list ReviewIssue * Z :=
  let '(issues, score) := acc in
  ((issues ++ [review_of ap])%list, score - penalty (severity ap)).

Definition reviewCode (model : ParsedModel) (content : string) (warehouse : string)
    (strict : bool) : ReviewResult :=
  let strengths : list string := [] in
  let score := 100 in
  let sqlLower := toLowerCase content in
  (* Check for good patterns *)
  let strengths :=
    push_if (includes "config(" content)
            "Uses config block for model configuration" strengths in
  let strengths :=
    push_if (includes "-- " content || includes "/*" content)
            "Code includes comments" strengths in
  let strengths :=
    push_if (includes "coalesce" sqlLower || includes "ifnull" sqlLower
             || includes "nvl" sqlLower)
            "Handles null values appropriately" strengths in
  let strengths :=
    push_if (option_eqb (materialization model) "incremental")
            "Uses incremental materialization for efficiency" strengths in
  let strengths :=
    push_if ((0 <? cteCount model) && (cteCount model <=? 5))
            "Uses CTEs for readable organization" strengths in
  (* Detect anti-patterns *)
  let antiPatterns := detectAntiPatternsFromContent content model warehouse in
  let '(issues, score) := fold_left review_step antiPatterns ([], score) in
  (* Additional strict checks *)
  let '(issues, score) :=
    if strict then
      let '(issues, score) :=
        if negb (includes "description" content)
        then ((issues ++ [issue_missing_description])%list, score - 5)
        else (issues, score) in
      if negb (bool_decide (type model = unknown))
         && negb (startsWith (slice0 3 (type_name (type model)) +:+ "_") (name model))
      then ((issues ++ [issue_naming model])%list, score - 5)
      else (issues, score)
    else (issues, score) in
  (* Ensure score is within bounds *)
  let score := Z.max 0 (Z.min 100 score) in
  (* Determine overall verdict *)
  let overall :=
    if some_severity "critical" issues then request_changes
    else if some_severity "high" issues then
      (if strict then request_changes else comment)
    else if 0 <? len issues then comment
    else approve in
  {| score := score; overall := overall; strengths := strengths; issues := issues |}.

(** * Notions used to state the properties *)

(** [c1] extends [c0] with later captures. *)
Definition ext (c0 c1 : list (nat * string)) : Prop :=
  exists pre, c1 = (pre ++ c0)%list.

(** The groups that take part in every match of a pattern. *)
Fixpoint sure (r : regex) : list nat :=
  match r with
  | Seq r1 r2 => (sure r1 ++ sure r2)%list
  | Group n r1 => n :: sure r1
  | _ => []
  end.

(** A word of lower-case ASCII letters. *)
Fixpoint lower_letters (w : string) : bool :=
  match w with
  | EmptyString => true
  | String c w' => in_range 97 122 c && lower_letters w'
  end.

(** The spec's words: the file name is lower-cased before it is tested. *)
Definition spec_inferType (fileName : string) : ModelType :=
  inferType (toLowerCase fileName).

Definition has_prefix (p s : string) : Prop := exists r, s = p +:+ r.

Definition contains (t s : string) : Prop := exists a b, s = a +:+ t +:+ b.

(** The precedence of the tests, on the file name as it is given. *)
Inductive classifies (f : string) : ModelType -> Prop :=
| cl_staging : has_prefix "stg_" f -> classifies f staging
| cl_intermediate :
    ~ has_prefix "stg_" f -> has_prefix "int_" f -> classifies f intermediate
| cl_fact :
    ~ has_prefix "stg_" f -> ~ has_prefix "int_" f -> has_prefix "fct_" f ->
    classifies f fact
| cl_dimension :
    ~ has_prefix "stg_" f -> ~ has_prefix "int_" f -> ~ has_prefix "fct_" f ->
    has_prefix "dim_" f -> classifies f dimension
| cl_snapshot :
    ~ has_prefix "stg_" f -> ~ has_prefix "int_" f -> ~ has_prefix "fct_" f ->
    ~ has_prefix "dim_" f -> contains "snapshot" f -> classifies f snapshot
| cl_unknown :
    ~ has_prefix "stg_" f -> ~ has_prefix "int_" f -> ~ has_prefix "fct_" f ->
    ~ has_prefix "dim_" f -> ~ contains "snapshot" f -> classifies f unknown.

Definition fired {A} (b : bool) (x : A) : list A := if b then [x] else [].

(** The rule set of the detector, one line per rule in evaluation order. *)
Definition rule_table (content : string) (model : ParsedModel) (warehouse : string)
    : list Issue :=
  let sqlLower := toLowerCase content in
  let lines := split_lines content in
  (fired (includes "select *" sqlLower && negb (includes "select * from (" sqlLower))
         (issue_select_star (lineOfLower "select *" lines))
   ++ fired (bool_decide (type model = staging)
             && (includes " join " sqlLower && negb (includes "deduplication" sqlLower)))
            (issue_staging_join (lineOfLower " join " lines))
   ++ fired (bool_decide (type model = staging) && (0 <? len (refs model)))
            issue_staging_ref
   ++ fired (includes "is_incremental()" sqlLower
             && negb (truthy (config model !! "unique_key")))
            issue_no_unique_key
   ++ fired (includes "is_incremental()" sqlLower
             && negb (includes "< current" sqlLower || includes "< getdate" sqlLower
                      || includes "< now()" sqlLower || includes "< sysdate" sqlLower))
            issue_unbounded
   ++ match search re_date content with
      | Some m => [issue_date (findIndex (fun l => includes (whole m) l) lines + 1) (whole m)]
      | None => []
      end
   ++ fired (includes "select distinct" sqlLower && includes " join " sqlLower)
            issue_distinct_join
   ++ fired (includes "cross join" sqlLower)
            (issue_cross_join (lineOfLower "cross join" lines))
   ++ fired (bool_decide (is_Some (orelse (search re_where_func sqlLower)
                                          (search re_on_func sqlLower))))
            issue_func_filter
   ++ fired (String.eqb warehouse "snowflake"
             && (includes "uuid_string()" sqlLower
                 && option_eqb (materialization model) "view"))
            issue_uuid_view
   ++ fired (String.eqb warehouse "bigquery"
             && (includes "limit" sqlLower && negb (includes "order by" sqlLower)))
            issue_limit
   ++ fired (7 <? cteCount model) (issue_cte_count (cteCount model)))%list.

Definition clamp (z : Z) : Z := Z.max 0 (Z.min 100 z).

(** The points the loop of [reviewCode] deducts for a list of anti-patterns. *)
Definition total_penalty (l : list Issue) : Z :=
  fold_right (fun ap acc => penalty (severity ap) + acc) 0 l.

(** The points that go with a severity as it stands in a review issue. *)
Definition penalty_name (s : string) : Z :=
  if String.eqb s "critical" then 25
  else if String.eqb s "high" then 15
  else if String.eqb s "medium" then 10
  else if String.eqb s "low" then 5
  else 0.

Definition review_penalty (l : list ReviewIssue) : Z :=
  fold_right (fun i acc => penalty_name (r_severity i) + acc) 0 l.

(** The two strict-mode conditions. *)
Definition lacks_description (content : string) : bool :=
  negb (includes "description" content).

Definition breaks_naming (model : ParsedModel) : bool :=
  negb (bool_decide (type model = unknown))
  && negb (startsWith (slice0 3 (type_name (type model)) +:+ "_") (name model)).

Definition points (b : bool) : Z := if b then 5 else 0.

(** What the strict checks take off the score. *)
Definition strict_points (model : ParsedModel) (content : string) (strict : bool) : Z :=
  points (strict && lacks_description content) + points (strict && breaks_naming model).

(** The line feed. *)
Definition LF : string := String (ascii_of_N 10) "".

Definition fct_orders_text : string :=
  "{{ config(materialized='incremental') }}" +:+ LF +:+
  "select * from {{ source('raw','orders') }}".

Definition fct_orders_model : ParsedModel :=
  {| name := "fct_orders.sql";
     type := fact;
     materialization := Some "incremental";
     config := {[ "materialized" := "incremental" ]};
     refs := [];
     sources := [{| schema := "raw"; table := "orders" |}];
     columns := [];
     hasTests := false;
     cteCount := 0;
     lineCount := 2 |}.

Definition busy_text : string :=
  "{{ config(materialized='view') }}" +:+ LF +:+
  "select distinct a.* from {{ ref('a') }} a join b on lower(a.x) = b.x " +:+
  "where d > '2024-01-01' {% if is_incremental() %} and uuid_string() is not null".

Definition busy_cross_text : string := busy_text +:+ " cross join c".

Definition busy_model : ParsedModel :=
  {| name := "stg_orders.sql";
     type := staging;
     materialization := Some "view";
     config := {[ "materialized" := "view" ]};
     refs := ["a"];
     sources := [];
     columns := [];
     hasTests := false;
     cteCount := 0;
     lineCount := 2 |}.

(** A date literal between quotes [q]. *)
Definition date_literal (q y1 y2 y3 y4 m1 m2 d1 d2 : ascii) : string :=
  String q (String y1 (String y2 (String y3 (String y4 (String "-"
    (String m1 (String m2 (String "-" (String d1 (String d2 (String q ""))))))))))).

(** The spec's words: the text holds a quoted YYYY-MM-DD string literal. *)
Definition has_quoted_date (s : string) : Prop :=
  exists pre post y1 y2 y3 y4 m1 m2 d1 d2,
    forallb is_digit [y1; y2; y3; y4; m1; m2; d1; d2] = true /\
    s = pre +:+ date_literal "'" y1 y2 y3 y4 m1 m2 d1 d2 +:+ post.

(** What the pattern of the code asks for: single quotes and a year 20YY. *)
Definition has_quoted_date_20 (s : string) : Prop :=
  exists pre post y3 y4 m1 m2 d1 d2,
    forallb is_digit [y3; y4; m1; m2; d1; d2] = true /\
    s = pre +:+ date_literal "'" "2" "0" y3 y4 m1 m2 d1 d2 +:+ post.

(** The longest prefix of code units in a class, and what follows it. *)
Fixpoint span (p : cset) (s : string) : string * string :=
  match s with
  | String c s' =>
      if p c then let '(w, t) := span p s' in (String c w, t) else (EmptyString, s)
  | EmptyString => (EmptyString, EmptyString)
  end.

Fixpoint all_in (p : cset) (s : string) : bool :=
  match s with
  | String c s' => p c && all_in p s'
  | EmptyString => true
  end.

(** The text does not go on with a code unit of the class. *)
Definition stops (p : cset) (s : string) : bool :=
  match s with
  | String c _ => negb (p c)
  | EmptyString => true
  end.

(** The code unit before the position reached after [w]. *)
Fixpoint last_char (prev : option ascii) (w : string) : option ascii :=
  match w with
  | String c w' => last_char (Some c) w'
  | EmptyString => prev
  end.

(** What a pattern denotes.
    [matches r prev w fol c]: between a code unit [prev] and a following
    text [fol], the pattern [r] can match [w] and record the captures [c]
    (the most recent first). *)
Fixpoint matches (r : regex) (prev : option ascii) (w fol : string)
    (c : list (nat * string)) : Prop :=
  match r with
  | Empty => w = "" /\ c = []
  | Char p => exists x, p x = true /\ w = String x "" /\ c = []
  | Seq r1 r2 =>
      exists w1 w2 c1 c2,
        w = w1 +:+ w2 /\ c = (c2 ++ c1)%list /\
        matches r1 prev w1 (w2 +:+ fol) c1 /\
        matches r2 (last_char prev w1) w2 fol c2
  | Alt r1 r2 => matches r1 prev w fol c \/ matches r2 prev w fol c
  | Rep _ min p => all_in p w = true /\ (min <= String.length w)%nat /\ c = []
  | Opt r1 => matches r1 prev w fol c \/ (w = "" /\ c = [])
  | Group n r1 => exists c1, c = (n, w) :: c1 /\ matches r1 prev w fol c1
  | WordB => w = "" /\ c = [] /\ xorb (word_at prev) (word_at (next_char fol)) = true
  | NotAhead r1 =>
      w = "" /\ c = [] /\
      ~ exists w' fol' c', fol = w' +:+ fol' /\ matches r1 prev w' fol' c'
  | Eos => w = "" /\ c = [] /\ fol = ""
  end.

(** The state reached from [st] by matching [w] with the captures [c]. *)
Definition after (st : mstate) (w fol : string) (c : list (nat * string)) : mstate :=
  MState (last_char (m_prev st) w) fol (m_pos st + String.length w)
         (c ++ m_caps st).

(** A template expression that holds one ref call and nothing else. *)
Definition ref_expr (ws1 : string) (q1 : ascii) (n : string) (q2 : ascii) (ws2 : string)
    : string :=
  "{{" +:+ ws1 +:+ "ref(" +:+ String q1 (n +:+ String q2 (")" +:+ ws2 +:+ "}}")).

(** [e] is such an expression, for the name [n]: white space only inside
    the delimiters, a quote of either kind on each side of a name that is
    not empty and holds no quote. *)
Definition is_ref_expr (e n : string) : Prop :=
  exists ws1 q1 q2 ws2,
    all_in is_space ws1 = true /\ is_quote q1 = true /\
    n <> "" /\ all_in not_quote n = true /\
    is_quote q2 = true /\ all_in is_space ws2 = true /\
    e = ref_expr ws1 q1 n q2 ws2.

(** The text [s] begins with a ref expression for [n], and goes on with [rest]. *)
Definition ref_at (s n rest : string) : Prop :=
  exists e, is_ref_expr e n /\ s = e +:+ rest.

(** The names of the ref expressions of a text, from left to right: at each
    position either an expression begins, and the scan goes on after it, or
    none does, and the scan goes on one code unit further. *)
Inductive ref_scan : string -> list string -> Prop :=
| scan_end : ref_scan "" []
| scan_hit s n rest l :
    ref_at s n rest -> ref_scan rest l -> ref_scan s (n :: l)
| scan_skip c s l :
    (forall n rest, ~ ref_at (String c s) n rest) ->
    ref_scan s l -> ref_scan (String c s) l.

(** The spec's words: a ref call for [n] stands somewhere in the text. *)
Definition ref_call (q1 : ascii) (n : string) (q2 : ascii) : string :=
  "ref(" +:+ String q1 (n +:+ String q2 ")").

Definition has_ref_call (s n : string) : Prop :=
  exists pre post q1 q2,
    is_quote q1 = true /\ is_quote q2 = true /\ s = pre +:+ ref_call q1 n q2 +:+ post.

(** * Notions used to state further properties *)

(** The number of line feeds of a text. *)
Fixpoint count_lf (s : string) : Z :=
  match s with
  | EmptyString => 0
  | String c s' => (if (code c =? 10)%N then 1 else 0) + count_lf s'
  end.

(** A text without a line feed. *)
Definition no_lf (t : string) : bool :=
  all_in (fun c => negb (code c =? 10)%N) t.

(** The patterns of the twelve rules, in the order of evaluation. *)
Definition rule_patterns : list string :=
  ["SELECT * in production"; "Join in staging model"; "ref() in staging model";
   "Incremental without unique_key"; "Unbounded incremental filter";
   "Hardcoded date literal"; "DISTINCT after JOIN (possible fan-out fix)";
   "CROSS JOIN detected"; "Function on filter/join column";
   "Non-deterministic function in view"; "LIMIT without ORDER BY";
   "High CTE count"].

(** [l.some(i => i.severity === s)] on detected issues. *)
Definition has_severity (s : Severity) (l : list Issue) : bool :=
  existsb (fun i => bool_decide (severity i = s)) l.

(** What every entry of a parsed configuration satisfies: the key is a
    word other than [__proto__], the value is not empty. *)
Definition good_entry (k v : string) : Prop :=
  k <> "" /\ all_in is_word k = true /\ k <> "__proto__" /\ v <> "".

(** The values of the template expressions of a text, from left to right,
    for any kind of expression [here s a rest] (the text [s] begins with an
    expression of value [a] and goes on with [rest]): at each position
    either an expression begins, and the scan goes on after it, or none
    does, and the scan goes on one code unit further. *)
Inductive expr_scan {A} (here : string -> A -> string -> Prop)
    : string -> list A -> Prop :=
| escan_end : expr_scan here "" []
| escan_hit s a rest l :
    here s a rest -> expr_scan here rest l -> expr_scan here s (a :: l)
| escan_skip c s l :
    (forall a rest, ~ here (String c s) a rest) ->
    expr_scan here s l -> expr_scan here (String c s) l.

(** A template expression that holds one source call and nothing else. *)
Definition source_expr (ws1 : string) (q1 : ascii) (sch : string) (q2 : ascii)
    (ws2 : string) (q3 : ascii) (tab : string) (q4 : ascii) (ws3 : string) : string :=
  "{{" +:+ ws1 +:+ "source(" +:+
  String q1 (sch +:+ String q2 ("," +:+ ws2 +:+
  String q3 (tab +:+ String q4 (")" +:+ ws3 +:+ "}}")))).

(** [e] is such an expression, for the source [src]: white space only
    inside the delimiters and after the comma, quotes of either kind around
    two names that are not empty and hold no quote. *)
Definition is_source_expr (e : string) (src : Source) : Prop :=
  exists ws1 q1 q2 ws2 q3 q4 ws3,
    all_in is_space ws1 = true /\ is_quote q1 = true /\
    schema src <> "" /\ all_in not_quote (schema src) = true /\
    is_quote q2 = true /\ all_in is_space ws2 = true /\ is_quote q3 = true /\
    table src <> "" /\ all_in not_quote (table src) = true /\
    is_quote q4 = true /\ all_in is_space ws3 = true /\
    e = source_expr ws1 q1 (schema src) q2 ws2 q3 (table src) q4 ws3.

Definition source_at (s : string) (src : Source) (rest : string) : Prop :=
  exists e, is_source_expr e src /\ s = e +:+ rest.

(** * The commands

    The part of each command that works on the texts once they are read:
    the files come as pairs of a path and the text read from it, the
    warehouse as the value of the loaded configuration. *)

(** How a command ends: [process.exit(code)], or the function returns. *)
Inductive Outcome : Type := Exits (code : Z) | Returns.

(** ** analyzeCommand *)

(** [modelStats], without the two counters that depend on the files present
    beside the model ([withTests]) or are never written ([withDocs]). *)
Record ModelStats : Type := {
  ms_total : Z;
  ms_staging : Z;
  ms_intermediate : Z;
  ms_mart : Z;
  ms_other : Z
}.

(** [{ ...issue, file }] *)
Record FileIssue : Type := { fi_issue : Issue; fi_file : string }.

(** What the command prints, as the numbers of its JSON summary. *)
Record AnalyzeSummary : Type := {
  totalModels : Z;
  n_critical : Z;
  n_high : Z;
  n_medium : Z;
  n_low : Z;
  modelTypes : ModelStats;
  all_issues : list FileIssue
}.

(** Categorize model. *)
Definition categorize (fileName : string) (st : ModelStats) : ModelStats :=
  if startsWith "stg_" fileName then
    {| ms_total := ms_total st; ms_staging := ms_staging st + 1;
       ms_intermediate := ms_intermediate st; ms_mart := ms_mart st;
       ms_other := ms_other st |}
  else if startsWith "int_" fileName then
    {| ms_total := ms_total st; ms_staging := ms_staging st;
       ms_intermediate := ms_intermediate st + 1; ms_mart := ms_mart st;
       ms_other := ms_other st |}
  else if startsWith "fct_" fileName || startsWith "dim_" fileName then
    {| ms_total := ms_total st; ms_staging := ms_staging st;
       ms_intermediate := ms_intermediate st; ms_mart := ms_mart st + 1;
       ms_other := ms_other st |}
  else
    {| ms_total := ms_total st; ms_staging := ms_staging st;
       ms_intermediate := ms_intermediate st; ms_mart := ms_mart st;
       ms_other := ms_other st + 1 |}.

(** [allIssues.filter(i => i.severity === s)] *)
Definition with_severity (s : Severity) (l : list FileIssue) : list FileIssue :=
  List.filter (fun i => bool_decide (severity (fi_issue i) = s)) l.

Section Analyze.
(** [basename] of the path module. *)
Variable basename : string -> string -> string.

(** One turn of the loop over the files. *)
Definition analyze_step (warehouse : string)
    (acc : ModelStats * list FileIssue) (f : string * string)
    : result (ModelStats * list FileIssue) :=
  let '(modelStats, allIssues) := acc in
  let '(file, content) := f in
  let fileName := basename file ".sql" in
  let modelStats := categorize fileName modelStats in
  (* Parse and analyze *)
  model ← parseModel content fileName;
  let issues := detectAntiPatterns model warehouse in
  Ok (modelStats,
      (allIssues ++ map (fun issue => {| fi_issue := issue; fi_file := file |}) issues)%list).

Fixpoint analyze_loop (warehouse : string) (files : list (string * string))
    (acc : ModelStats * list FileIssue) : result (ModelStats * list FileIssue) :=
  match files with
  | [] => Ok acc
  | f :: files' =>
      acc' ← analyze_step warehouse acc f;
      analyze_loop warehouse files' acc'
  end.

(** The command from the loop on; an exception is caught and ends the
    command with status 1. *)
Definition analyzeCommand (warehouse : string) (json : bool)
    (files : list (string * string)) : Outcome * option AnalyzeSummary :=
  if len files =? 0 then (Returns, None)
  else
    match analyze_loop warehouse files
            ({| ms_total := len files; ms_staging := 0; ms_intermediate := 0;
                ms_mart := 0; ms_other := 0 |}, []) with
    | Throw _ => (Exits 1, None)
    | Ok (modelStats, allIssues) =>
        (* Group issues by severity *)
        let critical_ := with_severity critical allIssues in
        let high_ := with_severity high allIssues in
        let medium_ := with_severity medium allIssues in
        let low_ := with_severity low allIssues in
        let summary :=
          {| totalModels := ms_total modelStats;
             n_critical := len critical_; n_high := len high_;
             n_medium := len medium_; n_low := len low_;
             modelTypes := modelStats;
             all_issues := allIssues |} in
        if json then (Returns, Some summary)
        (* Exit code based on issues *)
        else if 0 <? len critical_ then (Exits 1, Some summary)
        else if 0 <? len high_ then (Exits 0, Some summary)
        else (Exits 0, Some summary)
    end.

(** The type of the model parsed from a file of the project. *)
Definition parsed_type (f : string * string) : option ModelType :=
  match parseModel f.2 (basename f.1 ".sql") with
  | Ok model => Some (type model)
  | Throw _ => None
  end.

(** The number of files whose model has the type [t]. *)
Definition count_type (t : ModelType) (files : list (string * string)) : Z :=
  len (List.filter (fun f => bool_decide (parsed_type f = Some t)) files).
End Analyze.

(** ** reviewCommand, the local review *)

#[global] Instance Verdict_eq_dec : EqDecision Verdict.
Proof. solve_decision. Defined.

(** [{ file: file.path, ...review }] *)
Record FileReview : Type := { fr_file : string; fr_review : ReviewResult }.

(** The last line printed. *)
Inductive ReviewMessage : Type := found_blocking | passed_with_suggestions | passed.

Record ReviewSummary : Type := {
  totalIssues : Z;
  hasBlockers : bool;
  message : ReviewMessage
}.

(** One turn of the loop over [fileData]: the path is the name of the model. *)
Definition review_file (warehouse : option string) (strict : bool)
    (reviews : list FileReview) (file : string * string) : result (list FileReview) :=
  let '(path, content) := file in
  model ← parseModel content path;
  let review := reviewCode model content (cap_or warehouse (Some "snowflake")) strict in
  Ok (reviews ++ [{| fr_file := path; fr_review := review |}])%list.

Fixpoint review_files (warehouse : option string) (strict : bool)
    (fileData : list (string * string)) (reviews : list FileReview)
    : result (list FileReview) :=
  match fileData with
  | [] => Ok reviews
  | file :: fileData' =>
      reviews' ← review_file warehouse strict reviews file;
      review_files warehouse strict fileData' reviews'
  end.

(** The command from the local review on (no API key, or the local
    option); the average score, which is only printed, is left out.  An
    exception is caught and ends the command with status 1. *)
Definition reviewCommand (warehouse : option string) (strict json : bool)
    (fileData : list (string * string))
    : Outcome * list FileReview * option ReviewSummary :=
  match review_files warehouse strict fileData [] with
  | Throw _ => (Exits 1, [], None)
  | Ok reviews =>
      if json then (Returns, reviews, None)
      else
        (* Summary *)
        let total :=
          fold_left (fun acc r => acc + len (issues (fr_review r))) reviews 0 in
        let blockers :=
          existsb (fun r => bool_decide (overall (fr_review r) = request_changes))
                  reviews in
        let summary := fun m =>
          Some {| totalIssues := total; hasBlockers := blockers; message := m |} in
        if blockers then
          (if strict then Exits 1 else Returns, reviews, summary found_blocking)
        else if 0 <? total then (Returns, reviews, summary passed_with_suggestions)
        else (Returns, reviews, summary passed)
  end.

(** A file of the review holds an issue that blocks: a critical one, or
    in strict mode a high one. *)
Definition blocks (warehouse : option string) (strict : bool) (file : string * string)
    : bool :=
  match parseModel file.2 file.1 with
  | Ok model =>
      let found :=
        detectAntiPatternsFromContent file.2 model (cap_or warehouse (Some "snowflake")) in
      has_severity critical found || (strict && has_severity high found)
  | Throw _ => false
  end.

(** The review of one file of the command. *)
Definition file_review (warehouse : option string) (strict : bool)
    (file : string * string) : option FileReview :=
  match parseModel file.2 file.1 with
  | Ok model =>
      Some {| fr_file := file.1;
              fr_review := reviewCode model file.2
                             (cap_or warehouse (Some "snowflake")) strict |}
  | Throw _ => None
  end.

(** The reviews the command makes, the summary it prints, how it ends. *)
Definition reviews_of {A B C} (x : A * B * C) : B := snd (fst x).
Definition summary_of {A B C} (x : A * B * C) : C := snd x.
Definition outcome_of {A B C} (x : A * B * C) : A := fst (fst x).

(** ** docsCommand: the columns of a model *)

(** [s.endsWith(t)] *)
Definition endsWith (t s : string) : bool :=
  startsWith (String.rev t) (String.rev s).

(** [s.slice(n)] for [0 <= n] *)
Fixpoint slice_from (n : nat) (s : string) : string :=
  match n, s with
  | S n', String _ s' => slice_from n' s'
  | _, _ => s
  end.

(** [s.charAt(0)] *)
Definition charAt0 (s : string) : string :=
  match s with
  | String c _ => String c EmptyString
  | EmptyString => EmptyString
  end.

(** [String.prototype.toUpperCase] on one code unit below 256 whose upper
    case is one code unit below 256: a-z and the accented small letters
    U+00E0..U+00FE (without the sign U+00F7) move down by 32.  The code
    units U+00B5, U+00DF and U+00FF, whose upper case lies elsewhere, are
    not word characters, and the code below takes the upper case of a word
    character only. *)
Definition upper_char (c : ascii) : ascii :=
  if in_range 97 122 c || (in_range 224 254 c && negb (code c =? 247)%N)
  then ascii_of_N (code c - 32) else c.

Fixpoint toUpperCase (s : string) : string :=
  match s with
  | EmptyString => EmptyString
  | String c s' => String (upper_char c) (toUpperCase s')
  end.

(** [s.split(sep)] for a separator of one code unit. *)
Fixpoint split_char_go (sep : ascii) (cur : string) (s : string) : list string :=
  match s with
  | EmptyString => [String.rev cur]
  | String c s' =>
      if Ascii.eqb c sep then String.rev cur :: split_char_go sep EmptyString s'
      else split_char_go sep (String c cur) s'
  end.

Definition split_char (sep : ascii) (s : string) : list string :=
  split_char_go sep EmptyString s.

(** [s.replace(r, rep)] for a pattern without the [g] flag and a replacement
    without [$]: the leftmost match gives way to [rep]. *)
Fixpoint replace_from (r : regex) (rep : string) (prev : option ascii) (s : string)
    : string :=
  match exec r prev s with
  | Some (l, _) => rep +:+ slice_from l s
  | None =>
      match s with
      | String c s' => String c (replace_from r rep (Some c) s')
      | EmptyString => EmptyString
      end
  end.

Definition replace (r : regex) (rep s : string) : string := replace_from r rep None s.

(** The same for a pattern that begins with [^], here given without it:
    one attempt, at the start of the text. *)
Definition replace_start (r : regex) (rep s : string) : string :=
  match exec r None s with
  | Some (l, _) => rep +:+ slice_from l s
  | None => s
  end.

(** [s.replace(r, rep)] with the [g] flag: every match gives way to [rep],
    each attempt starting where the last match ended, one code unit further
    after an empty match. *)
Fixpoint replaceAll_from (r : regex) (rep : string) (skip : nat) (prev : option ascii)
    (s : string) : string :=
  match skip with
  | S n =>
      match s with
      | String c s' => replaceAll_from r rep n (Some c) s'
      | EmptyString => EmptyString
      end
  | O =>
      match exec r prev s with
      | Some (l, _) =>
          rep +:+
          match s with
          | String c s' =>
              match l with
              | O => String c (replaceAll_from r rep 0 (Some c) s')
              | S n => replaceAll_from r rep n (Some c) s'
              end
          | EmptyString => EmptyString
          end
      | None =>
          match s with
          | String c s' => String c (replaceAll_from r rep 0 (Some c) s')
          | EmptyString => EmptyString
          end
      end
  end.

Definition replaceAll (r : regex) (rep s : string) : string :=
  replaceAll_from r rep 0 None s.

(** [/_id$/] *)
Definition re_id_end : regex := Seq (lit "_id") Eos.

(** [/_/g] *)
Definition re_underscore : regex := lit "_".

(** [/^(stg|int|fct|dim)_/], after the [^] *)
Definition re_layer : regex :=
  Seq (Group 1 (Alt (lit "stg") (Alt (lit "int") (Alt (lit "fct") (lit "dim")))))
      (lit "_").

(** [/_(at|date|timestamp)$/] *)
Definition re_time_end : regex :=
  seq [lit "_"; Group 1 (Alt (lit "at") (Alt (lit "date") (lit "timestamp"))); Eos].

(** [/^(is_|has_)/], after the [^] *)
Definition re_flag : regex := Group 1 (Alt (lit "is_") (lit "has_")).

(** [/_(amount|total|count)$/] *)
Definition re_amount_end : regex :=
  seq [lit "_"; Group 1 (Alt (lit "amount") (Alt (lit "total") (lit "count"))); Eos].

(** [/_name$/] *)
Definition re_name_end : regex := Seq (lit "_name") Eos.

Record ColumnInfo : Type := {
  c_name : string;
  c_description : string;
  isPrimaryKey : bool;
  isRequired : bool
}.

(** A value in a template literal or before [+]: [undefined] prints as such. *)
Definition show_opt (v : option string) : string :=
  match v with Some s => s | None => "undefined" end.

(** [s.split("_").pop()] *)
Definition last_piece (s : string) : option string := last (split_char "_" s).

(** [s.replace(/_/g, " ")] *)
Definition spaced (s : string) : string := replaceAll re_underscore " " s.

(** Generate description based on common patterns: the description, and
    whether the column is the primary key. *)
Definition describe (model : ParsedModel) (cname : string) : string * bool :=
  if endsWith "_id" cname then
    ("Unique identifier for " +:+ spaced (replace re_id_end "" cname),
     String.eqb cname (replace_start re_layer "" (name model) +:+ "_id")
     || String.eqb cname (show_opt (last_piece (name model)) +:+ "_id"))
  else if endsWith "_at" cname || endsWith "_date" cname || endsWith "_timestamp" cname then
    ("Timestamp of when " +:+ spaced (replace re_time_end "" cname) +:+ " occurred",
     false)
  else if startsWith "is_" cname || startsWith "has_" cname then
    ("Boolean flag indicating " +:+ spaced (replace_start re_flag "" cname), false)
  else if endsWith "_amount" cname || endsWith "_total" cname || endsWith "_count" cname then
    ("Numeric value for " +:+ spaced (replace re_amount_end "" cname), false)
  else if endsWith "_name" cname then
    ("Name of the " +:+ spaced (replace re_name_end "" cname), false)
  else if endsWith "_type" cname || endsWith "_status" cname || endsWith "_category" cname then
    (show_opt (option_map (fun p => toUpperCase (charAt0 p)) (last_piece cname))
     +:+ show_opt (option_map (slice_from 1) (last_piece cname))
     +:+ " classification", false)
  else (EmptyString, false).

(** One turn of the loop over [columnPatterns]. *)
Definition extract_step (model : ParsedModel) (columns : list ColumnInfo) (pat : string)
    : list ColumnInfo :=
  let trimmed := trim pat in
  if String.eqb trimmed EmptyString || String.eqb trimmed "*" then columns
  else
    (* Extract column name (handle aliases) *)
    match search re_alias trimmed with
    | None => columns
    | Some aliasMatch =>
        let cname := cap 1 aliasMatch in
        let '(description, isPrimaryKey) := describe model cname in
        let isRequired := isPrimaryKey in
        (* Check for NOT NULL in column definition *)
        let isRequired :=
          if includes "not null" (toLowerCase trimmed)
             || includes "coalesce" (toLowerCase trimmed)
          then true else isRequired in
        (columns ++ [{| c_name := cname; c_description := description;
                        isPrimaryKey := isPrimaryKey; isRequired := isRequired |}])%list
    end.

Definition extractColumns (content : string) (model : ParsedModel)
    : result (list ColumnInfo) :=
  (* Try to extract from final SELECT *)
  match search re_select content with
  | None => Ok []
  | Some selectMatch =>
      selectClause ← need (group 1 (groups selectMatch));
      (* Parse column expressions *)
      Ok (fold_left (extract_step model) (split_re re_comma selectClause) [])
  end.

(** The tests of a column in the schema file. *)
Inductive DataTest : Type := test_unique | test_not_null.

Record ColumnDoc : Type := {
  d_name : string;
  d_description : string;
  data_tests : option (list DataTest)
}.

(** The columns of [newModelEntry]. *)
Definition column_docs (columns : list ColumnInfo) : list ColumnDoc :=
  List.filter
    (fun c => negb (String.eqb (d_description c) EmptyString)
              || bool_decide (is_Some (data_tests c)))
    (map (fun col =>
            {| d_name := c_name col;
               d_description := c_description col;
               data_tests :=
                 if isPrimaryKey col then Some [test_unique; test_not_null]
                 else if isRequired col then Some [test_not_null]
                 else None |})
         columns).

(** The select clause of a text holds a star. *)
Definition has_star (content : string) : bool :=
  match search re_select content with
  | Some selectMatch => includes "*" (cap 1 selectMatch)
  | None => false
  end.

(** [s] with a space for each underscore. *)
Fixpoint underscores_to_spaces (s : string) : string :=
  match s with
  | EmptyString => EmptyString
  | String c s' =>
      String (if Ascii.eqb c "_" then " "%char else c) (underscores_to_spaces s')
  end.

(** ** docsCommand: merging the columns of a schema file

    The entries of a schema file are records of YAML values.  The code
    reads two of their keys, compares values with [===] and tests them for
    truth; the values, the comparison and the test are left open. *)
Class Values (value : Type) : Type := {
  undefined : value;
  strict_eq : value -> value -> bool;
  is_truthy : value -> bool
}.

(** The values that are a string or [undefined]. *)
#[global] Instance string_values : Values (option string) := {|
  undefined := None;
  strict_eq := fun a b => bool_decide (a = b);
  is_truthy := truthy
|}.

Section Merge.
Context {value : Type} `{!Values value}.

(** [c.k] on a record: [undefined] when the key is absent. *)
Definition field (c : gmap string value) (k : string) : value :=
  default undefined (c !! k).

(** One turn of the loop over [generated]. *)
Definition merge_step (merged : list (gmap string value)) (col : gmap string value)
    : result (list (gmap string value)) :=
  let existingIndex :=
    findIndex (fun c => strict_eq (field c "name") (field col "name")) merged in
  if existingIndex <? 0 then Ok (merged ++ [col])%list
  else
    match merged !! Z.to_nat existingIndex with
    | Some c =>
        if negb (is_truthy (field c "description")) && is_truthy (field col "description")
        then Ok (<[Z.to_nat existingIndex :=
                     <["description" := field col "description"]> c]> merged)
        else Ok merged
    | None => Throw "TypeError: Cannot read properties of undefined"
    end.

Fixpoint merge_loop (generated : list (gmap string value))
    (merged : list (gmap string value)) : result (list (gmap string value)) :=
  match generated with
  | [] => Ok merged
  | col :: generated' =>
      merged' ← merge_step merged col;
      merge_loop generated' merged'
  end.

(** [existing] is [None] when the model has no list of columns. *)
Definition mergeColumns (existing : option (list (gmap string value)))
    (generated : list (gmap string value)) : result (list (gmap string value)) :=
  match existing with
  | None => Ok generated
  | Some existing => merge_loop generated existing
  end.

(** The entry [c'] is the entry [c], or [c] with the description of a
    generated column of the same name where [c] had none. *)
Definition kept_entry (generated : list (gmap string value))
    (c c' : gmap string value) : Prop :=
  c' = c \/
  (is_truthy (field c "description") = false /\
   exists col, In col generated /\
     is_truthy (field col "description") = true /\
     strict_eq (field c "name") (field col "name") = true /\
     c' = <["description" := field col "description"]> c).
End Merge.

(** The strengths a review can name, in the order of the checks. *)
Definition all_strengths : list string :=
  [ "Uses config block for model configuration";
    "Code includes comments";
    "Handles null values appropriately";
    "Uses incremental materialization for efficiency";
    "Uses CTEs for readable organization" ].

(** * Properties *)

(** ** Strings *)

Lemma str_app_assoc (a b c : string) : (a +:+ b) +:+ c = a +:+ (b +:+ c).
Proof. induction a as [|x a IH]; simpl; [reflexivity | now rewrite IH]. Qed.

Lemma startsWith_spec (p s : string) :
  startsWith p s = true <-> exists r, s = p +:+ r.
Proof.
  revert s; induction p as [|a p IH]; intros s; simpl.
  - split; [intros _; exists s; reflexivity | reflexivity].
  - destruct s as [|b s].
    + split; [discriminate | intros [r Hr]; discriminate].
    + rewrite andb_true_iff, Ascii.eqb_eq, IH. split.
      * intros [-> [r ->]]. exists r; reflexivity.
      * intros [r Hr]. injection Hr as -> ->. split; [reflexivity | exists r; reflexivity].
Qed.

Lemma includes_spec (t s : string) :
  includes t s = true <-> exists a b, s = a +:+ t +:+ b.
Proof.
  induction s as [|c s IH].
  - simpl. rewrite orb_false_r, startsWith_spec. split.
    + intros [r Hr]. exists "", r. exact Hr.
    + intros [a [b Hab]]. destruct a; [exists b; exact Hab | discriminate].
  - cbn [includes]. rewrite orb_true_iff, startsWith_spec, IH. split.
    + intros [[r Hr] | [a [b Hab]]].
      * exists "", r. exact Hr.
      * exists (String c a), b. simpl. now rewrite Hab.
    + intros [a [b Hab]]. destruct a as [|c' a].
      * left. exists b. exact Hab.
      * right. simpl in Hab. injection Hab as _ ->. exists a, b. reflexivity.
Qed.

(** ** The matcher: what a successful run guarantees *)

Lemma ext_refl c : ext c c.
Proof. exists []. reflexivity. Qed.

Lemma ext_trans c0 c1 c2 : ext c0 c1 -> ext c1 c2 -> ext c0 c2.
Proof.
  intros [p1 ->] [p2 ->]. exists (p2 ++ p1)%list. now rewrite <- app_assoc.
Qed.

Lemma ext_cons x c0 c1 : ext c0 c1 -> ext c0 (x :: c1).
Proof. intros [p ->]. exists (x :: p). reflexivity. Qed.

Lemma group_app n pre c :
  is_Some (group n c) -> is_Some (group n (pre ++ c)%list).
Proof.
  intros H. induction pre as [|[i s] pre IH]; simpl; [exact H|].
  destruct (Nat.eqb i n); [eauto | exact IH].
Qed.

Lemma group_ext n c0 c1 :
  ext c0 c1 -> is_Some (group n c0) -> is_Some (group n c1).
Proof. intros [pre ->]. apply group_app. Qed.

Lemma orelse_Some {A} (a b : option A) x :
  orelse a b = Some x -> a = Some x \/ (a = None /\ b = Some x).
Proof. destruct a; simpl; intros H; [left; exact H | right; split; [reflexivity | exact H]]. Qed.

Lemma rep_greedy_inv p caps k s :
  forall min prev pos st',
    rep_greedy p caps k min prev pos s = Some st' ->
    exists st1, k st1 = Some st' /\ m_caps st1 = caps.
Proof.
  induction s as [|c s IH]; intros min prev pos st' H; simpl in H.
  - destruct min; [|discriminate]. eexists; split; [exact H | reflexivity].
  - assert (Hhere : match min with
                    | O => k (MState prev (String c s) pos caps)
                    | S _ => None
                    end = Some st' ->
                    exists st1, k st1 = Some st' /\ m_caps st1 = caps).
    { destruct min; [|discriminate]. intros E. eexists; split; [exact E | reflexivity]. }
    destruct (p c).
    + apply orelse_Some in H as [H | [_ H]]; [eapply IH; exact H | auto].
    + auto.
Qed.

Lemma rep_lazy_inv p caps k s :
  forall min prev pos st',
    rep_lazy p caps k min prev pos s = Some st' ->
    exists st1, k st1 = Some st' /\ m_caps st1 = caps.
Proof.
  induction s as [|c s IH]; intros min prev pos st' H; simpl in H.
  - destruct min; [|discriminate].
    apply orelse_Some in H as [H | [_ H]]; [|discriminate].
    eexists; split; [exact H | reflexivity].
  - destruct min.
    + apply orelse_Some in H as [H | [_ H]].
      * eexists; split; [exact H | reflexivity].
      * destruct (p c); [eapply IH; exact H | discriminate].
    + destruct (p c); [eapply IH; exact H | discriminate].
Qed.

(** A successful run has called its continuation, on a state whose
    captures extend the initial ones and hold every sure group. *)
Lemma run_inv r :
  forall st k st',
    run r st k = Some st' ->
    exists st1, k st1 = Some st' /\ ext (m_caps st) (m_caps st1) /\
                Forall (fun n => is_Some (group n (m_caps st1))) (sure r).
Proof.
  induction r as [|p|r1 IH1 r2 IH2|r1 IH1 r2 IH2|lz min p|r1 IH1|n r1 IH1| |r1 IH1|];
    intros st k st' H; simpl in H; simpl sure.
  - exists st. auto using ext_refl.
  - destruct (m_rest st) as [|c s]; [discriminate|].
    destruct (p c); [|discriminate].
    eexists; split; [exact H|]. split; [apply ext_refl | constructor].
  - apply IH1 in H as (sa & H & Ea & Sa).
    apply IH2 in H as (sb & H & Eb & Sb).
    exists sb. split; [exact H|]. split; [eapply ext_trans; eassumption|].
    apply Forall_app. split; [|exact Sb].
    eapply List.Forall_impl; [|exact Sa]. intros n. apply group_ext, Eb.
  - apply orelse_Some in H as [H | [_ H]].
    + apply IH1 in H as (s1 & H & E & _). exists s1. auto.
    + apply IH2 in H as (s1 & H & E & _). exists s1. auto.
  - destruct lz.
    + apply rep_lazy_inv in H as (s1 & H & E). exists s1. rewrite E. auto using ext_refl.
    + apply rep_greedy_inv in H as (s1 & H & E). exists s1. rewrite E. auto using ext_refl.
  - apply orelse_Some in H as [H | [_ H]].
    + apply IH1 in H as (s1 & H & E & _). exists s1. auto.
    + exists st. auto using ext_refl.
  - apply IH1 in H as (s1 & H & E & S1).
    eexists; split; [exact H|]. simpl. split; [apply ext_cons, E|].
    constructor.
    + simpl. rewrite Nat.eqb_refl. eauto.
    + eapply List.Forall_impl; [|exact S1]. intros i Hi. simpl.
      destruct (Nat.eqb n i); [eauto | exact Hi].
  - destruct (xorb _ _); [|discriminate]. exists st. auto using ext_refl.
  - destruct (run r1 st Some); [discriminate|]. exists st. auto using ext_refl.
  - destruct (m_rest st); [|discriminate]. exists st. auto using ext_refl.
Qed.

Lemma exec_sure r prev s l m n :
  exec r prev s = Some (l, m) -> In n (sure r) -> is_Some (group n (groups m)).
Proof.
  unfold exec. intros H Hn.
  destruct (run r _ Some) as [st|] eqn:E; [|discriminate].
  injection H as <- <-. simpl.
  apply run_inv in E as (s1 & [= ->] & _ & S1).
  rewrite Forall_forall in S1. apply S1. apply list_elem_of_In, Hn.
Qed.

(** Every result of a search or a scan is the result of one attempt. *)
Lemma search_from_exec r s :
  forall prev m, search_from r prev s = Some m ->
    exists prev' s' l, exec r prev' s' = Some (l, m).
Proof.
  induction s as [|c s IH]; intros prev m H; simpl in H.
  - destruct (exec r prev "") as [[l m']|] eqn:E; [|discriminate].
    injection H as ->. eauto.
  - destruct (exec r prev (String c s)) as [[l m']|] eqn:E.
    + injection H as ->. eauto.
    + eapply IH, H.
Qed.

Lemma matchAll_from_exec r s :
  forall skip prev m, In m (matchAll_from r skip prev s) ->
    exists prev' s' l, exec r prev' s' = Some (l, m).
Proof.
  induction s as [|c s IH]; intros skip prev m H; simpl in H.
  - destruct skip; [|destruct H].
    destruct (exec r prev "") as [[l m']|] eqn:E; [|destruct H].
    destruct H as [->|[]]. eauto.
  - destruct skip; [|eapply IH, H].
    destruct (exec r prev (String c s)) as [[l m']|] eqn:E.
    + destruct H as [->|H]; [eauto | eapply IH, H].
    + eapply IH, H.
Qed.

(** At every use of [cap] in [parseModel] the group took part in the match. *)
Lemma cap_defined r s m n :
  In m (matchAll r s) \/ search r s = Some m ->
  In n (sure r) -> group n (groups m) = Some (cap n m).
Proof.
  intros H Hn.
  assert (exists prev' s' l, exec r prev' s' = Some (l, m)) as (prev' & s' & l & E).
  { destruct H as [H|H]; [eapply matchAll_from_exec, H | eapply search_from_exec, H]. }
  destruct (exec_sure _ _ _ _ _ _ E Hn) as [x Hx].
  unfold cap. now rewrite Hx.
Qed.

(** So it is for every capture [parseModel] reads as a value. *)
Lemma parseModel_captures_defined (s : string) (m : rmatch) :
  (In m (matchAll re_ref s) -> group 1 (groups m) = Some (cap 1 m)) /\
  (In m (matchAll re_source s) ->
     group 1 (groups m) = Some (cap 1 m) /\ group 2 (groups m) = Some (cap 2 m)) /\
  (In m (matchAll re_kv s) -> group 1 (groups m) = Some (cap 1 m)) /\
  (search re_materialized s = Some m -> group 1 (groups m) = Some (cap 1 m)) /\
  (search re_alias s = Some m -> group 1 (groups m) = Some (cap 1 m)).
Proof.
  split; [|split; [|split; [|split]]].
  - intros H. eapply cap_defined; [eauto | simpl; auto].
  - intros H. split; (eapply cap_defined; [eauto | simpl; auto]).
  - intros H. eapply cap_defined; [eauto | simpl; auto].
  - intros H. eapply cap_defined; [eauto | simpl; auto].
  - intros H. eapply cap_defined; [eauto | simpl; auto].
Qed.

(** ** parseModel always returns *)

Lemma parseConfig_total content :
  exists mat cfg, parseConfig content = Ok (mat, cfg).
Proof.
  unfold parseConfig.
  destruct (search re_config content) as [m|] eqn:E; [|eauto].
  rewrite (cap_defined re_config content m 1) by (simpl; auto).
  simpl. eauto.
Qed.

Lemma parseColumns_total content :
  exists cols, parseColumns content = Ok cols.
Proof.
  unfold parseColumns.
  destruct (search re_select content) as [m|] eqn:E; [|eauto].
  rewrite (cap_defined re_select content m 1) by (simpl; auto).
  simpl. destruct (negb _); eauto.
Qed.

Lemma parseModel_ok content fileName :
  exists mat cfg cols,
    parseConfig content = Ok (mat, cfg) /\
    parseColumns content = Ok cols /\
    parseModel content fileName =
      Ok {| name := fileName;
            type := inferType fileName;
            materialization := mat;
            config := cfg;
            refs := parseRefs content;
            sources := parseSources content;
            columns := cols;
            hasTests := false;
            cteCount := countCtes content;
            lineCount := len (split_lines content) |}.
Proof.
  destruct (parseConfig_total content) as (mat & cfg & Hc).
  destruct (parseColumns_total content) as (cols & Hs).
  exists mat, cfg, cols. unfold parseModel. rewrite Hc, Hs. auto.
Qed.

(** A pattern that begins with a literal matches only where the text has it. *)
Lemma run_lit_prefix w :
  forall st k st', run (lit w) st k = Some st' -> startsWith w (m_rest st) = true.
Proof.
  induction w as [|c w IH]; intros st k st' H; [reflexivity|].
  assert (Hc : forall k', run (Char (is_char c)) st k' = Some st' ->
                 exists s', m_rest st = String c s' /\
                   k' (MState (Some c) s' (S (m_pos st)) (m_caps st)) = Some st').
  { intros k' H'. simpl in H'. destruct (m_rest st) as [|b s']; [discriminate|].
    unfold is_char in H'. destruct (Ascii.eqb b c) eqn:E; [|discriminate].
    apply Ascii.eqb_eq in E as ->. eauto. }
  destruct w as [|d w].
  - apply Hc in H as (s' & -> & _). simpl. now rewrite Ascii.eqb_refl.
  - change (run (lit (String c (String d w))) st k)
      with (run (Char (is_char c)) st (fun st1 => run (lit (String d w)) st1 k)) in H.
    apply Hc in H as (s' & -> & H). apply IH in H. cbn [m_rest] in H.
    change (startsWith (String c (String d w)) (String c s'))
      with (Ascii.eqb c c && startsWith (String d w) s').
    now rewrite Ascii.eqb_refl, H.
Qed.

Lemma exec_lit_prefix w r' prev s x :
  exec (Seq (lit w) r') prev s = Some x -> startsWith w s = true.
Proof.
  unfold exec. cbn [run]. destruct (run (lit w) _ _) eqn:E; [|discriminate].
  intros _. now apply run_lit_prefix in E.
Qed.

Lemma includes_false_inv t c s :
  includes t (String c s) = false ->
  startsWith t (String c s) = false /\ includes t s = false.
Proof. cbn [includes]. now rewrite orb_false_iff. Qed.

Lemma includes_false_here t s : includes t s = false -> startsWith t s = false.
Proof.
  destruct s; [|intros H; now apply includes_false_inv in H].
  simpl. now rewrite orb_false_r.
Qed.

(** The same for a literal under the [i] flag, against the lower-cased text. *)
Lemma is_char_ci_lower x c :
  in_range 97 122 x = true -> is_char_ci x c = true -> lower_char c = x.
Proof.
  unfold is_char_ci, canon, lower_char, in_range, code. intros Hx.
  rewrite Hx. apply andb_true_iff in Hx as [Hx1 Hx2].
  apply N.leb_le in Hx1, Hx2.
  pose proof (N_ascii_bounded c) as Hc. pose proof (N_ascii_bounded x) as Hb.
  destruct ((97 <=? N_of_ascii c)%N && (N_of_ascii c <=? 122)%N) eqn:E1;
    rewrite Ascii.eqb_eq; intros E.
  - apply andb_true_iff in E1 as [H1 H2]. apply N.leb_le in H1, H2.
    apply (f_equal N_of_ascii) in E. rewrite !N_ascii_embedding in E by lia.
    assert (Hcx : N_of_ascii c = N_of_ascii x) by lia.
    replace ((65 <=? N_of_ascii c)%N) with true by (symmetry; apply N.leb_le; lia).
    replace ((N_of_ascii c <=? 90)%N) with false by (symmetry; apply N.leb_gt; lia).
    replace ((N_of_ascii c <=? 222)%N) with true by (symmetry; apply N.leb_le; lia).
    replace ((192 <=? N_of_ascii c)%N) with false by (symmetry; apply N.leb_gt; lia).
    simpl. rewrite <- (ascii_N_embedding c), Hcx. apply ascii_N_embedding.
  - subst c. rewrite N_ascii_embedding by lia.
    replace ((65 <=? N_of_ascii x - 32)%N) with true by (symmetry; apply N.leb_le; lia).
    replace ((N_of_ascii x - 32 <=? 90)%N) with true by (symmetry; apply N.leb_le; lia).
    simpl. replace (N_of_ascii x - 32 + 32)%N with (N_of_ascii x) by lia.
    apply ascii_N_embedding.
Qed.

Lemma run_lit_ci_prefix w :
  lower_letters w = true ->
  forall st k st', run (lit_ci w) st k = Some st' ->
    startsWith w (toLowerCase (m_rest st)) = true.
Proof.
  induction w as [|c w IH]; intros Hw st k st' H; [reflexivity|].
  cbn [lower_letters] in Hw. apply andb_true_iff in Hw as [Hc0 Hw].
  assert (Hc : forall k', run (Char (is_char_ci c)) st k' = Some st' ->
                 exists b s', m_rest st = String b s' /\ lower_char b = c /\
                   k' (MState (Some b) s' (S (m_pos st)) (m_caps st)) = Some st').
  { intros k' H'. simpl in H'. destruct (m_rest st) as [|b s']; [discriminate|].
    destruct (is_char_ci c b) eqn:E; [|discriminate].
    apply is_char_ci_lower in E; eauto. }
  destruct w as [|d w].
  - apply Hc in H as (b & s' & -> & <- & _). simpl. now rewrite Ascii.eqb_refl.
  - change (run (lit_ci (String c (String d w))) st k)
      with (run (Char (is_char_ci c)) st (fun st1 => run (lit_ci (String d w)) st1 k)) in H.
    apply Hc in H as (b & s' & -> & <- & H). apply IH in H; [|exact Hw]. cbn [m_rest] in H.
    change (startsWith (String (lower_char b) (String d w)) (toLowerCase (String b s')))
      with (Ascii.eqb (lower_char b) (lower_char b) && startsWith (String d w) (toLowerCase s')).
    now rewrite Ascii.eqb_refl, H.
Qed.

Lemma exec_lit_ci_prefix w r' prev s x :
  lower_letters w = true ->
  exec (Seq (lit_ci w) r') prev s = Some x -> startsWith w (toLowerCase s) = true.
Proof.
  intros Hw. unfold exec. cbn [run]. destruct (run (lit_ci w) _ _) eqn:E; [|discriminate].
  intros _. now apply run_lit_ci_prefix in E.
Qed.

(** No match without the first literal: [norm] is the identity, or
    [toLowerCase] for a pattern under the [i] flag. *)
Section FirstLiteral.
Variables (r : regex) (w : string) (norm : string -> string).
Hypothesis norm_cons : forall c s, exists c', norm (String c s) = String c' (norm s).
Hypothesis exec_prefix :
  forall prev s x, exec r prev s = Some x -> startsWith w (norm s) = true.

Lemma exec_needs_lit prev s : startsWith w (norm s) = false -> exec r prev s = None.
Proof.
  intros H. destruct (exec r prev s) eqn:E; [|reflexivity].
  apply exec_prefix in E. congruence.
Qed.

Lemma norm_false_inv c s :
  includes w (norm (String c s)) = false ->
  startsWith w (norm (String c s)) = false /\ includes w (norm s) = false.
Proof.
  destruct (norm_cons c s) as [c' ->]. apply includes_false_inv.
Qed.

Lemma search_needs_lit s :
  forall prev, includes w (norm s) = false -> search_from r prev s = None.
Proof.
  induction s as [|c s IH]; intros prev H; cbn [search_from];
    rewrite (exec_needs_lit _ _ (includes_false_here _ _ H)); [reflexivity|].
  apply IH. now apply norm_false_inv in H.
Qed.

Lemma matchAll_needs_lit s :
  forall skip prev, includes w (norm s) = false -> matchAll_from r skip prev s = [].
Proof.
  induction s as [|c s IH]; intros skip prev H; cbn [matchAll_from].
  - destruct skip; [|reflexivity].
    now rewrite (exec_needs_lit _ _ (includes_false_here _ _ H)).
  - pose proof (norm_false_inv _ _ H) as [_ H'].
    destruct skip; [|now apply IH].
    rewrite (exec_needs_lit _ _ (includes_false_here _ _ H)). now apply IH.
Qed.
End FirstLiteral.

Lemma id_cons c s : exists c', (fun x : string => x) (String c s) = String c' s.
Proof. eauto. Qed.

Lemma toLowerCase_cons c s :
  exists c', toLowerCase (String c s) = String c' (toLowerCase s).
Proof. simpl. eauto. Qed.

Lemma search_without_braces r' content :
  includes "{{" content = false -> search (Seq (lit "{{") r') content = None.
Proof.
  intros H. unfold search.
  apply (search_needs_lit _ "{{" (fun x => x) id_cons); [|exact H].
  intros prev s x. apply exec_lit_prefix.
Qed.

Lemma matchAll_without_braces r' content :
  includes "{{" content = false -> matchAll (Seq (lit "{{") r') content = [].
Proof.
  intros H. unfold matchAll.
  apply (matchAll_needs_lit _ "{{" (fun x => x) id_cons); [|exact H].
  intros prev s x. apply exec_lit_prefix.
Qed.

Lemma search_without_select content :
  includes "select" (toLowerCase content) = false -> search re_select content = None.
Proof.
  intros H. unfold search.
  apply (search_needs_lit _ "select" toLowerCase toLowerCase_cons); [|exact H].
  intros prev s x. now apply exec_lit_ci_prefix.
Qed.

Lemma parseConfig_without_braces content :
  includes "{{" content = false -> parseConfig content = Ok (None, ∅).
Proof.
  intros H. unfold parseConfig.
  now rewrite (search_without_braces _ content H : search re_config content = None).
Qed.

Lemma parseRefs_without_braces content :
  includes "{{" content = false -> parseRefs content = [].
Proof.
  intros H. unfold parseRefs.
  now rewrite (matchAll_without_braces _ content H : matchAll re_ref content = []).
Qed.

Lemma parseSources_without_braces content :
  includes "{{" content = false -> parseSources content = [].
Proof.
  intros H. unfold parseSources.
  now rewrite (matchAll_without_braces _ content H : matchAll re_source content = []).
Qed.

Lemma parseColumns_without_select content :
  includes "select" (toLowerCase content) = false -> parseColumns content = Ok [].
Proof.
  intros H. unfold parseColumns. now rewrite search_without_select.
Qed.

Lemma reviewCode_score_range model content warehouse strict :
  0 <= score (reviewCode model content warehouse strict) <= 100.
Proof.
  unfold reviewCode.
  destruct (fold_left review_step _ _) as [is0 sc0].
  destruct strict.
  - destruct (negb (includes "description" content));
      destruct (negb (bool_decide (type model = unknown)) && _); simpl; lia.
  - simpl. lia.
Qed.

(** C4. For every text and file name [parseModel] returns a model: no
    operation in it is ever applied to [undefined].  Where the text has no
    template delimiter the materialization is null and the configuration,
    the refs and the sources are empty; where it has no [select] the columns
    are empty; a name that passes none of the tests has type [unknown].  The
    detector and [reviewCode] have no failing operation at all and return a
    result on that model, with a score between 0 and 100. *)
Theorem parseModel_never_throws (content fileName warehouse : string) (strict : bool) :
  exists m,
    parseModel content fileName = Ok m /\
    name m = fileName /\
    (includes "{{" content = false ->
       materialization m = None /\ config m = ∅ /\ refs m = [] /\ sources m = []) /\
    (includes "select" (toLowerCase content) = false -> columns m = []) /\
    (startsWith "stg_" fileName = false -> startsWith "int_" fileName = false ->
     startsWith "fct_" fileName = false -> startsWith "dim_" fileName = false ->
     includes "snapshot" fileName = false -> type m = unknown) /\
    (exists issues r,
       detectAntiPatternsFromContent content m warehouse = issues /\
       reviewCode m content warehouse strict = r /\ 0 <= score r <= 100).
Proof.
  destruct (parseModel_ok content fileName) as (mat & cfg & cols & Hc & Hs & Hm).
  eexists. split; [exact Hm|]. cbn [name materialization config refs sources columns type].
  split; [reflexivity|]. repeat split.
  - rewrite parseConfig_without_braces in Hc by assumption. congruence.
  - rewrite parseConfig_without_braces in Hc by assumption. congruence.
  - now apply parseRefs_without_braces.
  - now apply parseSources_without_braces.
  - intros H. rewrite parseColumns_without_select in Hs by assumption. congruence.
  - intros H1 H2 H3 H4 H5. unfold inferType. now rewrite H1, H2, H3, H4, H5.
  - eexists _, _. split; [reflexivity|]. split; [reflexivity|].
    apply reviewCode_score_range.
Qed.

Lemma parseModel_never_throws_witness :
  exists m, parseModel "select 1" "orders" = Ok m /\
            materialization m = None /\ config m = ∅ /\ refs m = [] /\ sources m = [] /\
            type m = unknown.
Proof.
  destruct (parseModel_never_throws "select 1" "orders" "snowflake" false)
    as (m & Hm & _ & Hb & _ & Ht & _).
  exists m. split; [exact Hm|].
  destruct (Hb eq_refl) as (H1 & H2 & H3 & H4).
  repeat split; try assumption.
  apply Ht; reflexivity.
Defined.

(** ** Type inference *)

Lemma startsWith_false p s : startsWith p s = false <-> ~ has_prefix p s.
Proof.
  unfold has_prefix. rewrite <- startsWith_spec. now destruct (startsWith p s).
Qed.

Lemma includes_false t s : includes t s = false <-> ~ contains t s.
Proof.
  unfold contains. rewrite <- includes_spec. now destruct (includes t s).
Qed.

Lemma inferType_classifies f t : inferType f = t <-> classifies f t.
Proof.
  unfold inferType. split.
  - intros <-.
    destruct (startsWith "stg_" f) eqn:E1;
      [apply cl_staging; now apply startsWith_spec|].
    destruct (startsWith "int_" f) eqn:E2;
      [apply cl_intermediate; [now apply startsWith_false | now apply startsWith_spec]|].
    destruct (startsWith "fct_" f) eqn:E3;
      [apply cl_fact; try (now apply startsWith_false); now apply startsWith_spec|].
    destruct (startsWith "dim_" f) eqn:E4;
      [apply cl_dimension; try (now apply startsWith_false); now apply startsWith_spec|].
    destruct (includes "snapshot" f) eqn:E5;
      [apply cl_snapshot; try (now apply startsWith_false); now apply includes_spec|].
    apply cl_unknown; try (now apply startsWith_false). now apply includes_false.
  - intros H. destruct H;
      repeat match goal with
             | H : ~ has_prefix _ _ |- _ => apply startsWith_false in H; rewrite H
             | H : has_prefix _ _ |- _ => apply startsWith_spec in H; rewrite H
             | H : ~ contains _ _ |- _ => apply includes_false in H; rewrite H
             | H : contains _ _ |- _ => apply includes_spec in H; rewrite H
             end; reflexivity.
Qed.

(** C3, as the spec words it, fails: the code compares the file name as it
    is given, so an upper-case prefix is not recognised. *)
Lemma type_inference_lowercase_counterexample :
  exists m, parseModel "select 1" "STG_orders.sql" = Ok m /\
            type m = unknown /\ spec_inferType "STG_orders.sql" = staging /\
            type m <> spec_inferType "STG_orders.sql".
Proof.
  eexists. split; [vm_compute; reflexivity|]. cbn [type]. vm_compute.
  repeat split; discriminate.
Qed.

(** C3, amended.  For every file name, [parseModel] infers the type by
    testing the file name as given (case-sensitively) in the precedence
    order stg_, int_, fct_, dim_, then the substring snapshot anywhere, else
    unknown, the first match winning.  stg_int_orders.sql is staging;
    STG_orders.sql is unknown; on a name that is already lower-case the
    result is the one the lower-cased test gives. *)
Theorem type_inference_precedence :
  (forall content fileName,
     exists m, parseModel content fileName = Ok m /\
       (forall t, type m = t <-> classifies fileName t) /\
       (toLowerCase fileName = fileName -> type m = spec_inferType fileName)) /\
  (forall content,
     exists m, parseModel content "stg_int_orders.sql" = Ok m /\ type m = staging) /\
  (forall content,
     exists m, parseModel content "STG_orders.sql" = Ok m /\ type m = unknown).
Proof.
  split; [|split].
  - intros content fileName.
    destruct (parseModel_ok content fileName) as (mat & cfg & cols & _ & _ & Hm).
    eexists. split; [exact Hm|]. cbn [type]. split.
    + intros t. apply inferType_classifies.
    + intros H. unfold spec_inferType. now rewrite H.
  - intros content.
    destruct (parseModel_ok content "stg_int_orders.sql") as (mat & cfg & cols & _ & _ & Hm).
    eexists. split; [exact Hm|]. reflexivity.
  - intros content.
    destruct (parseModel_ok content "STG_orders.sql") as (mat & cfg & cols & _ & _ & Hm).
    eexists. split; [exact Hm|]. reflexivity.
Qed.

Lemma type_inference_precedence_witness :
  exists m, parseModel "select 1" "dim_snapshot_dates" = Ok m /\
            type m = spec_inferType "dim_snapshot_dates".
Proof.
  destruct (proj1 type_inference_precedence "select 1" "dim_snapshot_dates")
    as (m & Hm & _ & Hl).
  exists m. split; [exact Hm|]. apply Hl. reflexivity.
Defined.

(** ** The detector as a rule table *)

Lemma push_if_fired {A} (b : bool) (x : A) l : push_if b x l = (l ++ fired b x)%list.
Proof. destruct b; simpl; [reflexivity | now rewrite app_nil_r]. Qed.

Lemma detect_rule_table content model warehouse :
  detectAntiPatternsFromContent content model warehouse =
  rule_table content model warehouse.
Proof.
  unfold detectAntiPatternsFromContent, rule_table. cbv zeta.
  destruct (decide (type model = staging)) as [Ht|Ht];
    [rewrite (bool_decide_eq_true_2 _ Ht) | rewrite (bool_decide_eq_false_2 _ Ht)];
    destruct (includes "is_incremental()" (toLowerCase content));
    destruct (search re_date content);
    destruct (String.eqb warehouse "snowflake");
    destruct (String.eqb warehouse "bigquery");
    rewrite ?push_if_fired; cbn [andb fired app];
    rewrite ?app_nil_r, <- ?app_assoc; reflexivity.
Qed.

(** C10. The exported two-argument [detectAntiPatterns] returns the empty
    list for every model and warehouse; the rules are evaluated only by
    [detectAntiPatternsFromContent], which on the same model and warehouse
    reports an issue for a suitable text. *)
Theorem detectAntiPatterns_empty (model : ParsedModel) (warehouse : string) :
  detectAntiPatterns model warehouse = [] /\
  exists content, detectAntiPatternsFromContent content model warehouse <> [].
Proof.
  split; [reflexivity|].
  exists "select * from t". rewrite detect_rule_table. unfold rule_table.
  cbv zeta.
  change (includes "select *" (toLowerCase "select * from t")
          && negb (includes "select * from (" (toLowerCase "select * from t")))
    with true.
  discriminate.
Qed.

(** ** The staging rule on refs *)

Lemma matchAll_from_nonempty r rest :
  (forall prev, is_Some (exec r prev rest)) ->
  forall pre prev, matchAll_from r 0 prev (pre +:+ rest) <> [].
Proof.
  intros Hrest pre. induction pre as [|c pre IH]; intros prev.
  - change ("" +:+ rest) with rest. destruct (Hrest prev) as [[l m] E].
    destruct rest; cbn [matchAll_from]; rewrite E; discriminate.
  - change (String c pre +:+ rest) with (String c (pre +:+ rest)).
    cbn [matchAll_from].
    destruct (exec r prev (String c (pre +:+ rest))) as [[l m]|];
      [discriminate | apply IH].
Qed.

Lemma exec_ref_int_customers prev post :
  is_Some (exec re_ref prev ("{{ ref('int_customers') }}" +:+ post)).
Proof. unfold exec. simpl. eauto. Qed.

Lemma staging_ref_in_table content model warehouse :
  type model = staging -> refs model <> [] ->
  In issue_staging_ref (detectAntiPatternsFromContent content model warehouse).
Proof.
  intros Ht Hr. rewrite detect_rule_table. unfold rule_table. cbv zeta.
  rewrite (bool_decide_eq_true_2 _ Ht).
  replace (0 <? len (refs model)) with true
    by (symmetry; apply Z.ltb_lt; unfold len; destruct (refs model); [easy | simpl; lia]).
  rewrite !in_app_iff. right. right. left. left. reflexivity.
Qed.

(** C6. Whatever the text, a model of type staging with at least one ref
    makes the detector report the issue ref() in staging model, of severity
    high.  In particular every text that contains {{ ref('int_customers') }},
    parsed under the name stg_customers.sql, gets this issue. *)
Theorem staging_ref_fires :
  (forall content model warehouse,
     type model = staging -> refs model <> [] ->
     exists i, In i (detectAntiPatternsFromContent content model warehouse) /\
               pattern i = "ref() in staging model" /\ severity i = high) /\
  (forall pre post warehouse,
     let content := pre +:+ "{{ ref('int_customers') }}" +:+ post in
     exists m i, parseModel content "stg_customers.sql" = Ok m /\
                 In i (detectAntiPatternsFromContent content m warehouse) /\
                 pattern i = "ref() in staging model" /\ severity i = high).
Proof.
  split.
  - intros content model warehouse Ht Hr. exists issue_staging_ref.
    split; [now apply staging_ref_in_table | split; reflexivity].
  - intros pre post warehouse content.
    destruct (parseModel_ok content "stg_customers.sql") as (mat & cfg & cols & _ & _ & Hm).
    eexists _, issue_staging_ref. split; [exact Hm|].
    split; [|split; reflexivity].
    apply staging_ref_in_table; [reflexivity|]. cbn [refs].
    unfold parseRefs, matchAll. intros H. apply map_eq_nil in H. revert H.
    apply matchAll_from_nonempty. intros prev. apply exec_ref_int_customers.
Qed.

Lemma staging_ref_fires_witness :
  exists i, In i (detectAntiPatternsFromContent "select 1"
                    {| name := "stg_a"; type := staging; materialization := None;
                       config := ∅; refs := ["b"]; sources := []; columns := [];
                       hasTests := false; cteCount := 0; lineCount := 1 |} "snowflake") /\
            pattern i = "ref() in staging model" /\ severity i = high.
Proof.
  apply (proj1 staging_ref_fires); [reflexivity | discriminate].
Defined.

(** ** The score *)

Lemma review_loop l :
  forall acc sc,
    fold_left review_step l (acc, sc) =
    ((acc ++ map review_of l)%list, sc - total_penalty l).
Proof.
  induction l as [|ap l IH]; intros acc sc; simpl.
  - rewrite app_nil_r. f_equal. lia.
  - rewrite IH, <- app_assoc. simpl. f_equal. lia.
Qed.

Lemma reviewCode_issues model content warehouse strict :
  issues (reviewCode model content warehouse strict) =
  (map review_of (detectAntiPatternsFromContent content model warehouse)
   ++ fired (strict && lacks_description content) issue_missing_description
   ++ fired (strict && breaks_naming model) (issue_naming model))%list.
Proof.
  unfold reviewCode, lacks_description, breaks_naming. rewrite review_loop.
  destruct strict; simpl.
  - destruct (negb (includes "description" content));
      destruct (negb (bool_decide (type model = unknown)) && _); simpl;
      rewrite ?app_nil_r, <- ?app_assoc; reflexivity.
  - now rewrite app_nil_r.
Qed.

Lemma reviewCode_score model content warehouse strict :
  score (reviewCode model content warehouse strict) =
  clamp (100 - total_penalty (detectAntiPatternsFromContent content model warehouse)
         - points (strict && lacks_description content)
         - points (strict && breaks_naming model)).
Proof.
  unfold reviewCode, lacks_description, breaks_naming, clamp. rewrite review_loop.
  destruct strict; simpl.
  - destruct (negb (includes "description" content));
      destruct (negb (bool_decide (type model = unknown)) && _); simpl;
      f_equal; f_equal; lia.
  - f_equal; f_equal; lia.
Qed.

Lemma penalty_name_severity s : penalty_name (severity_name s) = penalty s.
Proof. destruct s; reflexivity. Qed.

Lemma review_penalty_app l1 l2 :
  review_penalty (l1 ++ l2) = review_penalty l1 + review_penalty l2.
Proof. induction l1 as [|x l1 IH]; simpl; [reflexivity | rewrite IH; lia]. Qed.

Lemma review_penalty_map l : review_penalty (map review_of l) = total_penalty l.
Proof.
  induction l as [|x l IH]; simpl; [reflexivity|].
  now rewrite IH, penalty_name_severity.
Qed.

Lemma review_penalty_fired b x :
  r_severity x = "low" -> review_penalty (fired b x) = points b.
Proof. intros H. destruct b; simpl; [rewrite H|]; reflexivity. Qed.

(** The score is a function of the issues returned with it. *)
Lemma score_of_issues model content warehouse strict :
  let r := reviewCode model content warehouse strict in
  score r = clamp (100 - review_penalty (issues r)).
Proof.
  cbv zeta. rewrite reviewCode_score, reviewCode_issues.
  rewrite !review_penalty_app, review_penalty_map, !review_penalty_fired by reflexivity.
  f_equal. lia.
Qed.

Lemma review_penalty_perm l1 l2 :
  Permutation l1 l2 -> review_penalty l1 = review_penalty l2.
Proof.
  induction 1; simpl; lia.
Qed.

(** C8. With [strict] set, [reviewCode] runs two more checks after the
    detected issues; each one that fails appends one issue of severity low
    and takes 5 points before the score is clamped: (a) the text does not
    contain description; (b) the type is not unknown and the name does not
    start with the first three letters of the type name and an underscore,
    so fac_ for a fact model and sta_ for a staging model.  Without [strict]
    neither check runs. *)
Theorem strict_checks (model : ParsedModel) (content warehouse : string) :
  let detected := detectAntiPatternsFromContent content model warehouse in
  let lax := reviewCode model content warehouse false in
  let r := reviewCode model content warehouse true in
  let a := negb (includes "description" content) in
  let b := negb (bool_decide (type model = unknown))
           && negb (startsWith (slice0 3 (type_name (type model)) +:+ "_") (name model)) in
  issues lax = map review_of detected /\
  score lax = clamp (100 - total_penalty detected) /\
  issues r = (issues lax ++ fired a issue_missing_description
                         ++ fired b (issue_naming model))%list /\
  score r = clamp (100 - total_penalty detected - points a - points b) /\
  r_severity issue_missing_description = "low" /\
  r_severity (issue_naming model) = "low" /\
  (a = true <-> ~ contains "description" content) /\
  (type model = unknown -> b = false) /\
  (type model = fact -> (b = false <-> has_prefix "fac_" (name model))) /\
  (type model = staging -> (b = false <-> has_prefix "sta_" (name model))).
Proof.
  cbv zeta. rewrite !reviewCode_issues, !reviewCode_score.
  unfold lacks_description, breaks_naming. cbn [andb fired points app].
  rewrite app_nil_r, !Z.sub_0_r.
  repeat match goal with |- _ /\ _ => split end; try reflexivity.
  - rewrite negb_true_iff. apply includes_false.
  - intros ->. reflexivity.
  - intros ->.
    change (negb (startsWith "fac_" (name model)) = false <-> has_prefix "fac_" (name model)).
    rewrite negb_false_iff. apply startsWith_spec.
  - intros ->.
    change (negb (startsWith "sta_" (name model)) = false <-> has_prefix "sta_" (name model)).
    rewrite negb_false_iff. apply startsWith_spec.
Qed.

Lemma strict_checks_witness :
  breaks_naming {| name := "fct_orders"; type := fact; materialization := None;
                   config := ∅; refs := []; sources := []; columns := [];
                   hasTests := false; cteCount := 0; lineCount := 1 |} = false
  <-> has_prefix "fac_" "fct_orders".
Proof.
  pose proof (strict_checks
                {| name := "fct_orders"; type := fact; materialization := None;
                   config := ∅; refs := []; sources := []; columns := [];
                   hasTests := false; cteCount := 0; lineCount := 1 |}
                "select 1" "snowflake") as H.
  cbv zeta in H.
  destruct H as (_ & _ & _ & _ & _ & _ & _ & _ & Hf & _).
  apply Hf. reflexivity.
Defined.

(** ** The end-to-end scenario *)

Lemma fct_orders_parse :
  parseModel fct_orders_text "fct_orders.sql" = Ok fct_orders_model.
Proof. vm_compute. reflexivity. Qed.

Lemma fct_orders_detect warehouse :
  detectAntiPatternsFromContent fct_orders_text fct_orders_model warehouse =
  [issue_select_star 2].
Proof.
  rewrite detect_rule_table. unfold rule_table. cbv zeta.
  replace (includes "uuid_string()" (toLowerCase fct_orders_text)) with false
    by (vm_compute; reflexivity).
  replace (includes "limit" (toLowerCase fct_orders_text)) with false
    by (vm_compute; reflexivity).
  rewrite !andb_false_r. cbn [fired andb app].
  vm_compute. reflexivity.
Qed.

Lemma fct_orders_review warehouse :
  reviewCode fct_orders_model fct_orders_text warehouse false =
  {| score := 85;
     overall := comment;
     strengths := ["Uses config block for model configuration";
                   "Uses incremental materialization for efficiency"];
     issues := [review_of (issue_select_star 2)] |}.
Proof.
  unfold reviewCode. rewrite fct_orders_detect. vm_compute. reflexivity.
Qed.

(** C1, as the spec words it, fails: the text does not contain
    is_incremental(), so the rule on unique_key does not fire; the only issue
    is of severity high, the verdict is comment and the score is 85. *)
Lemma fct_orders_counterexample :
  ~ (exists m warehouse,
       parseModel fct_orders_text "fct_orders.sql" = Ok m /\
       (exists i, In i (detectAntiPatternsFromContent fct_orders_text m warehouse) /\
                  pattern i = "Incremental without unique_key" /\ severity i = critical) /\
       (exists i, In i (detectAntiPatternsFromContent fct_orders_text m warehouse) /\
                  pattern i = "SELECT * in production" /\ severity i = high) /\
       overall (reviewCode m fct_orders_text warehouse false) = request_changes /\
       score (reviewCode m fct_orders_text warehouse false) <= 75).
Proof.
  intros (m & warehouse & Hm & (i & Hi & Hp & _) & _ & Ho & Hs).
  rewrite fct_orders_parse in Hm. injection Hm as <-.
  rewrite fct_orders_detect in Hi. destruct Hi as [<-|[]]. discriminate.
Qed.

(** C1, amended.  For the two-line text and the name fct_orders.sql the
    detector returns exactly one issue, SELECT * in production, of severity
    high, on line 2, and none with the pattern Incremental without
    unique_key; [reviewCode] without [strict] returns the verdict comment and
    the score 85, whatever the warehouse. *)
Theorem fct_orders_scenario :
  exists m,
    parseModel fct_orders_text "fct_orders.sql" = Ok m /\
    config m !! "unique_key" = None /\
    includes "is_incremental()" (toLowerCase fct_orders_text) = false /\
    forall warehouse,
      detectAntiPatternsFromContent fct_orders_text m warehouse = [issue_select_star 2] /\
      pattern (issue_select_star 2) = "SELECT * in production" /\
      severity (issue_select_star 2) = high /\
      line (issue_select_star 2) = Some 2 /\
      (forall i, In i (detectAntiPatternsFromContent fct_orders_text m warehouse) ->
                 pattern i <> "Incremental without unique_key") /\
      overall (reviewCode m fct_orders_text warehouse false) = comment /\
      score (reviewCode m fct_orders_text warehouse false) = 85.
Proof.
  exists fct_orders_model. split; [apply fct_orders_parse|].
  split; [vm_compute; reflexivity|]. split; [vm_compute; reflexivity|].
  intros warehouse. rewrite fct_orders_detect, fct_orders_review.
  repeat split. intros i [<-|[]]. discriminate.
Qed.

Lemma fct_orders_scenario_witness :
  pattern (issue_select_star 2) <> "Incremental without unique_key".
Proof.
  destruct fct_orders_scenario as (m & Hm & _ & _ & H).
  destruct (H "snowflake") as (Hd & _ & _ & _ & Hno & _).
  apply Hno. rewrite Hd. left. reflexivity.
Defined.

(** ** Score and one more critical issue *)

Lemma busy_parse :
  parseModel busy_text "stg_orders.sql" = Ok busy_model /\
  parseModel busy_cross_text "stg_orders.sql" = Ok busy_model.
Proof. split; vm_compute; reflexivity. Qed.

Lemma penalty_name_nonneg s : 0 <= penalty_name s.
Proof. unfold penalty_name. repeat destruct (String.eqb _ _); lia. Qed.

Lemma review_penalty_nonneg l : 0 <= review_penalty l.
Proof.
  induction l as [|x l IH]; simpl; [lia|].
  pose proof (penalty_name_nonneg (r_severity x)). lia.
Qed.

(** C2, as the spec words it, fails where the score is already clamped:
    both texts are parsed to the same staging model; the issues of the
    second are those of the first with CROSS JOIN detected, a critical one,
    put in; both scores are 0. *)
Lemma score_monotonicity_counterexample :
  let rA := reviewCode busy_model busy_text "snowflake" false in
  let rB := reviewCode busy_model busy_cross_text "snowflake" false in
  parseModel busy_text "stg_orders.sql" = Ok busy_model /\
  parseModel busy_cross_text "stg_orders.sql" = Ok busy_model /\
  exists x l1 l2,
    issues rA = (l1 ++ l2)%list /\ issues rB = (l1 ++ x :: l2)%list /\
    r_severity x = "critical" /\
    score rA = 0 /\ score rB = 0 /\ ~ (score rB <= score rA - 25).
Proof.
  cbv zeta. split; [exact (proj1 busy_parse)|]. split; [exact (proj2 busy_parse)|].
  exists (review_of (issue_cross_join 2)),
         (firstn 6 (issues (reviewCode busy_model busy_text "snowflake" false))),
         (skipn 6 (issues (reviewCode busy_model busy_text "snowflake" false))).
  split; [now rewrite firstn_skipn|].
  split; [vm_compute; reflexivity|].
  split; [reflexivity|].
  split; [vm_compute; reflexivity|].
  split; [vm_compute; reflexivity|].
  vm_compute. intros H. apply H. reflexivity.
Qed.

Lemma total_penalty_perm l1 l2 :
  Permutation l1 l2 -> total_penalty l1 = total_penalty l2.
Proof.
  induction 1; simpl; lia.
Qed.

Lemma points_nonneg b : 0 <= points b.
Proof. destruct b; simpl; lia. Qed.

Lemma total_penalty_nonneg l : 0 <= total_penalty l.
Proof.
  induction l as [|x l IH]; simpl; [lia|].
  destruct (severity x); simpl; lia.
Qed.

(** C2, amended.  When the issues of one review are those of another plus
    one critical issue, its score is the other score less 25, but not below
    0: score(B) = max(0, score(A) - 25).  So score(B) <= score(A) always, and
    score(B) = score(A) - 25 whenever score(A) >= 25.  The same holds when
    it is the detected anti-patterns of B that are those of A plus one
    critical issue, and the strict checks cost both reviews the same. *)
Theorem score_monotonicity
    (mA : ParsedModel) (cA wA : string) (sA : bool)
    (mB : ParsedModel) (cB wB : string) (sB : bool) :
  let rA := reviewCode mA cA wA sA in
  let rB := reviewCode mB cB wB sB in
  (forall x : ReviewIssue,
     r_severity x = "critical" ->
     Permutation (issues rB) (x :: issues rA) ->
     score rB = Z.max 0 (score rA - 25) /\
     score rB <= score rA /\
     (25 <= score rA -> score rB = score rA - 25)) /\
  (forall x : Issue,
     severity x = critical ->
     Permutation (detectAntiPatternsFromContent cB mB wB)
                 (x :: detectAntiPatternsFromContent cA mA wA) ->
     strict_points mA cA sA = strict_points mB cB sB ->
     score rB = Z.max 0 (score rA - 25) /\
     score rB <= score rA /\
     (25 <= score rA -> score rB = score rA - 25)).
Proof.
  cbv zeta. split.
  - intros x Hx Hp.
    rewrite (score_of_issues mA), (score_of_issues mB).
    rewrite (review_penalty_perm _ _ Hp). simpl. rewrite Hx.
    change (penalty_name "critical") with 25.
    pose proof (review_penalty_nonneg (issues (reviewCode mA cA wA sA))).
    unfold clamp. lia.
  - intros x Hx Hp Hs. rewrite !reviewCode_score.
    rewrite (total_penalty_perm _ _ Hp). simpl. rewrite Hx. simpl.
    unfold strict_points in Hs.
    pose proof (total_penalty_nonneg (detectAntiPatternsFromContent cA mA wA)).
    pose proof (points_nonneg (sA && lacks_description cA)).
    pose proof (points_nonneg (sA && breaks_naming mA)).
    unfold clamp. lia.
Qed.

Lemma score_monotonicity_witness :
  score (reviewCode fct_orders_model (fct_orders_text +:+ " cross join t") "snowflake" false)
  = score (reviewCode fct_orders_model fct_orders_text "snowflake" false) - 25.
Proof.
  refine (proj2 (proj2 (proj1 (score_monotonicity
            fct_orders_model fct_orders_text "snowflake" false
            fct_orders_model (fct_orders_text +:+ " cross join t") "snowflake" false)
            (review_of (issue_cross_join 2)) _ _)) _).
  - reflexivity.
  - vm_compute. apply perm_swap.
  - vm_compute. discriminate.
Defined.

(** ** Hardcoded dates *)

Lemma is_char_eq x c : is_char x c = true -> c = x.
Proof. apply Ascii.eqb_eq. Qed.

Lemma exec_date_iff prev s :
  is_Some (exec re_date prev s) <->
  exists post y3 y4 m1 m2 d1 d2,
    forallb is_digit [y3; y4; m1; m2; d1; d2] = true /\
    s = date_literal "'" "2" "0" y3 y4 m1 m2 d1 d2 +:+ post.
Proof.
  split.
  - intros [x H]. revert H.
    unfold exec, re_date. cbn [seq lit run m_rest m_pos m_caps m_prev].
    intros H.
    repeat (destruct s as [|? s]; [discriminate|];
            match type of H with
            | context [if ?b then _ else _] => destruct b eqn:?; [|discriminate]
            end).
    repeat match goal with
           | E : is_char _ _ = true |- _ => apply is_char_eq in E; subst
           end.
    exists s. do 6 eexists. split; [|reflexivity].
    cbn [forallb]. rewrite !andb_true_iff. auto 10.
  - intros (post & y3 & y4 & m1 & m2 & d1 & d2 & Hd & ->).
    cbn [forallb] in Hd. rewrite !andb_true_iff in Hd.
    destruct Hd as (H1 & H2 & H3 & H4 & H5 & H6 & _).
    unfold exec, re_date, date_literal.
    cbn [seq lit run m_rest m_pos m_caps m_prev String.append].
    rewrite H1, H2, H3, H4, H5, H6. cbn. eauto.
Qed.

(** The leftmost-match search, for a pattern whose attempts do not look at
    the code unit before them. *)
Lemma search_from_iff r s :
  (forall p p' t, exec r p t = exec r p' t) ->
  forall prev,
    is_Some (search_from r prev s) <->
    exists pre rest, s = pre +:+ rest /\ is_Some (exec r None rest).
Proof.
  intros Hind. induction s as [|c s IH]; intros prev; cbn [search_from];
    rewrite (Hind prev None).
  - split.
    + intros H. exists "", "". split; [reflexivity|].
      destruct (exec r None "") as [[l m]|]; [eauto | destruct H; discriminate].
    + intros (pre & rest & E & H). destruct pre; [|discriminate].
      simpl in E. subst rest. destruct H as [[l m] ->]. eauto.
  - destruct (exec r None (String c s)) as [[l m]|] eqn:E.
    + split; [|eauto]. intros _. exists "", (String c s). rewrite E. eauto.
    + rewrite IH. split.
      * intros (pre & rest & -> & H). exists (String c pre), rest. auto.
      * intros (pre & rest & Hs & H). destruct pre as [|c' pre].
        -- simpl in Hs. subst rest. rewrite E in H. destruct H; discriminate.
        -- injection Hs as -> ->. eauto.
Qed.

Lemma search_date_iff content :
  is_Some (search re_date content) <-> has_quoted_date_20 content.
Proof.
  unfold search. rewrite search_from_iff by reflexivity.
  unfold has_quoted_date_20. split.
  - intros (pre & rest & -> & H). apply exec_date_iff in H.
    destruct H as (post & y3 & y4 & m1 & m2 & d1 & d2 & Hd & ->).
    exists pre, post, y3, y4, m1, m2, d1, d2. auto.
  - intros (pre & post & y3 & y4 & m1 & m2 & d1 & d2 & Hd & ->).
    eexists pre, _. split; [reflexivity|]. apply exec_date_iff.
    exists post, y3, y4, m1, m2, d1, d2. auto.
Qed.

Lemma in_fired {A} (b : bool) (x i : A) : In i (fired b x) -> i = x.
Proof. destruct b; simpl; intuition. Qed.

(** The date rule is the only one that reports this pattern. *)
Lemma date_issue_iff content model warehouse :
  (exists i, In i (detectAntiPatternsFromContent content model warehouse) /\
             pattern i = "Hardcoded date literal") <->
  is_Some (search re_date content).
Proof.
  rewrite detect_rule_table. unfold rule_table. cbv zeta. split.
  - intros (i & Hi & Hp). rewrite !in_app_iff in Hi.
    destruct (search re_date content); [eauto|].
    repeat match goal with
           | H : _ \/ _ |- _ => destruct H as [H|H]
           | H : In _ (fired _ _) |- _ => apply in_fired in H; subst i; discriminate
           | H : In _ [] |- _ => destruct H
           end.
  - intros [m Hm]. rewrite Hm. eexists. rewrite !in_app_iff.
    split; [do 5 right; left; left; reflexivity | reflexivity].
Qed.

Lemma date_issue_medium content model warehouse i :
  In i (detectAntiPatternsFromContent content model warehouse) ->
  pattern i = "Hardcoded date literal" -> severity i = medium.
Proof.
  rewrite detect_rule_table. unfold rule_table. cbv zeta.
  intros Hi Hp. rewrite !in_app_iff in Hi.
  repeat match goal with
         | H : _ \/ _ |- _ => destruct H as [H|H]
         | H : In _ (fired _ _) |- _ => apply in_fired in H; subst i; discriminate
         end.
  destruct (search re_date content); [|destruct Hi].
  destruct Hi as [<-|[]]. reflexivity.
Qed.

(** C7, as the spec words it, fails: a quoted date of another century is a
    quoted YYYY-MM-DD literal, and the detector does not report it. *)
Lemma hardcoded_date_counterexample :
  has_quoted_date "where d > '1999-12-31'" /\
  forall model warehouse,
    ~ exists i,
        In i (detectAntiPatternsFromContent "where d > '1999-12-31'" model warehouse) /\
        pattern i = "Hardcoded date literal".
Proof.
  split.
  - exists "where d > ", "", "1"%char, "9"%char, "9"%char, "9"%char,
           "1"%char, "2"%char, "3"%char, "1"%char.
    split; reflexivity.
  - intros model warehouse H. apply date_issue_iff in H.
    destruct H as [m Hm]. vm_compute in Hm. discriminate.
Qed.

(** C7, amended.  The detector reports an issue with the pattern Hardcoded
    date literal exactly when the text holds, between single quotes, a
    literal 20YY-MM-DD (eight digits, the year beginning with 20); the issue
    has severity medium.  In particular none is reported for a text without
    a quoted YYYY-MM-DD literal. *)
Theorem hardcoded_date_rule (content : string) (model : ParsedModel) (warehouse : string) :
  ((exists i, In i (detectAntiPatternsFromContent content model warehouse) /\
              pattern i = "Hardcoded date literal") <->
   has_quoted_date_20 content) /\
  (forall i, In i (detectAntiPatternsFromContent content model warehouse) ->
             pattern i = "Hardcoded date literal" -> severity i = medium) /\
  (~ has_quoted_date content ->
   forall i, In i (detectAntiPatternsFromContent content model warehouse) ->
             pattern i <> "Hardcoded date literal").
Proof.
  split; [|split].
  - rewrite date_issue_iff. apply search_date_iff.
  - intros i. apply date_issue_medium.
  - intros Hn i Hi Hp. apply Hn.
    assert (H : has_quoted_date_20 content).
    { apply search_date_iff. apply (date_issue_iff content model warehouse). eauto. }
    destruct H as (pre & post & y3 & y4 & m1 & m2 & d1 & d2 & Hd & ->).
    exists pre, post, "2"%char, "0"%char, y3, y4, m1, m2, d1, d2.
    split; [|reflexivity]. cbn [forallb] in *. exact Hd.
Qed.

Lemma hardcoded_date_rule_witness :
  severity (issue_date 1 "'2024-01-31'") = medium.
Proof.
  apply (proj1 (proj2 (hardcoded_date_rule "where d > '2024-01-31'"
                         fct_orders_model "snowflake"))).
  - vm_compute. left. reflexivity.
  - reflexivity.
Defined.

(** ** Reference extraction *)

Lemma span_app p w t :
  all_in p w = true -> stops p t = true -> span p (w +:+ t) = (w, t).
Proof.
  intros Hw Ht. induction w as [|c w IH].
  - destruct t as [|c t]; [reflexivity|]. simpl in *.
    now destruct (p c).
  - cbn [all_in] in Hw. apply andb_true_iff in Hw as [Hc Hw].
    change (String c w +:+ t) with (String c (w +:+ t)).
    cbn [span]. now rewrite Hc, (IH Hw).
Qed.

Lemma str_length_app a b :
  String.length (a +:+ b) = (String.length a + String.length b)%nat.
Proof. induction a as [|x a IH]; simpl; [reflexivity | now rewrite IH]. Qed.

Lemma last_char_app prev a b :
  last_char prev (a +:+ b) = last_char (last_char prev a) b.
Proof. revert prev. induction a as [|x a IH]; intros prev; simpl; [reflexivity | apply IH]. Qed.

Lemma slice0_app w fol : slice0 (String.length w) (w +:+ fol) = w.
Proof.
  induction w as [|x w IH]; simpl; [now destruct fol | now rewrite IH].
Qed.

Lemma rep_greedy_sound p caps k s :
  forall min prev pos st',
    rep_greedy p caps k min prev pos s = Some st' ->
    exists w fol, s = w +:+ fol /\ all_in p w = true /\ (min <= String.length w)%nat /\
      k (MState (last_char prev w) fol (pos + String.length w) caps) = Some st'.
Proof.
  induction s as [|x s IH]; intros min prev pos st' H; cbn [rep_greedy] in H.
  - destruct min; [|discriminate]. exists "", "". simpl. rewrite Nat.add_0_r. auto.
  - assert (Hhere : match min with
                    | O => k (MState prev (String x s) pos caps)
                    | S _ => None
                    end = Some st' ->
                    exists w fol, String x s = w +:+ fol /\ all_in p w = true /\
                      (min <= String.length w)%nat /\
                      k (MState (last_char prev w) fol (pos + String.length w) caps) = Some st').
    { destruct min; [|discriminate]. intros E. exists "", (String x s).
      simpl. rewrite Nat.add_0_r. auto. }
    destruct (p x) eqn:Ex; [|auto].
    apply orelse_Some in H as [H | [_ H]]; [|auto].
    apply IH in H as (w & fol & -> & Hw & Hm & Hk).
    exists (String x w), fol. simpl. rewrite Ex, Hw.
    replace (pos + S (String.length w))%nat with (S pos + String.length w)%nat by lia.
    repeat split; [lia | exact Hk].
Qed.

Lemma rep_lazy_sound p caps k s :
  forall min prev pos st',
    rep_lazy p caps k min prev pos s = Some st' ->
    exists w fol, s = w +:+ fol /\ all_in p w = true /\ (min <= String.length w)%nat /\
      k (MState (last_char prev w) fol (pos + String.length w) caps) = Some st'.
Proof.
  induction s as [|x s IH]; intros min prev pos st' H; cbn [rep_lazy] in H.
  - destruct min; [|discriminate].
    apply orelse_Some in H as [H | [_ H]]; [|discriminate].
    exists "", "". simpl. rewrite Nat.add_0_r. auto.
  - assert (Hmore : (if p x then rep_lazy p caps k (Nat.pred min) (Some x) (S pos) s
                     else None) = Some st' ->
                    exists w fol, String x s = w +:+ fol /\ all_in p w = true /\
                      (min <= String.length w)%nat /\
                      k (MState (last_char prev w) fol (pos + String.length w) caps) = Some st').
    { destruct (p x) eqn:Ex; [|discriminate]. intros E.
      apply IH in E as (w & fol & -> & Hw & Hm & Hk).
      exists (String x w), fol. simpl. rewrite Ex, Hw.
      replace (pos + S (String.length w))%nat with (S pos + String.length w)%nat by lia.
      repeat split; [lia | exact Hk]. }
    destruct min; [|auto].
    apply orelse_Some in H as [H | [_ H]]; [|auto].
    exists "", (String x s). simpl. rewrite Nat.add_0_r. auto.
Qed.

Lemma orelse_is_Some {A} (a b : option A) :
  is_Some a \/ is_Some b -> is_Some (orelse a b).
Proof. destruct a; simpl; [eauto | intros [[x H]|H]; [discriminate | exact H]]. Qed.

Lemma rep_greedy_complete p caps k w :
  forall fol min prev pos,
    all_in p w = true -> (min <= String.length w)%nat ->
    is_Some (k (MState (last_char prev w) fol (pos + String.length w) caps)) ->
    is_Some (rep_greedy p caps k min prev pos (w +:+ fol)).
Proof.
  induction w as [|x w IH]; intros fol min prev pos Hw Hm Hk.
  - simpl in Hk, Hm. rewrite Nat.add_0_r in Hk.
    assert (min = O) as -> by lia.
    change ("" +:+ fol) with fol. destruct fol as [|y fol]; [exact Hk|].
    cbn [rep_greedy]. destruct (p y); [|exact Hk].
    apply orelse_is_Some. auto.
  - cbn [all_in] in Hw. apply andb_true_iff in Hw as [Hx Hw].
    change (String x w +:+ fol) with (String x (w +:+ fol)).
    cbn [rep_greedy]. rewrite Hx. apply orelse_is_Some. left.
    apply IH; [exact Hw | simpl in Hm; lia|].
    simpl in Hk. replace (S pos + String.length w)%nat
      with (pos + S (String.length w))%nat by lia. exact Hk.
Qed.

Lemma rep_lazy_complete p caps k w :
  forall fol min prev pos,
    all_in p w = true -> (min <= String.length w)%nat ->
    is_Some (k (MState (last_char prev w) fol (pos + String.length w) caps)) ->
    is_Some (rep_lazy p caps k min prev pos (w +:+ fol)).
Proof.
  induction w as [|x w IH]; intros fol min prev pos Hw Hm Hk.
  - simpl in Hk, Hm. rewrite Nat.add_0_r in Hk.
    assert (min = O) as -> by lia.
    change ("" +:+ fol) with fol. destruct fol as [|y fol]; cbn [rep_lazy];
      apply orelse_is_Some; auto.
  - cbn [all_in] in Hw. apply andb_true_iff in Hw as [Hx Hw].
    change (String x w +:+ fol) with (String x (w +:+ fol)).
    assert (Hin : is_Some (rep_lazy p caps k (Nat.pred min) (Some x) (S pos) (w +:+ fol))).
    { apply IH; [exact Hw | simpl in Hm; lia|].
      simpl in Hk. replace (S pos + String.length w)%nat
        with (pos + S (String.length w))%nat by lia. exact Hk. }
    cbn [rep_lazy]. rewrite Hx. destruct min; [apply orelse_is_Some; auto | exact Hin].
Qed.

Lemma after_nil prev s pos caps :
  after (MState prev s pos caps) "" s [] = MState prev s pos caps.
Proof. unfold after. simpl. now rewrite Nat.add_0_r. Qed.

(** The matcher against the denotation: a successful run has matched some
    [w] that the pattern denotes and continued from there; and where the
    pattern denotes some [w] from which the continuation succeeds, the run
    succeeds (with that or with an alternative of higher priority). *)
Lemma run_correct r :
  (forall st k st',
     run r st k = Some st' ->
     exists w fol c,
       m_rest st = w +:+ fol /\ matches r (m_prev st) w fol c /\
       k (after st w fol c) = Some st') /\
  (forall st k w fol c,
     m_rest st = w +:+ fol -> matches r (m_prev st) w fol c ->
     is_Some (k (after st w fol c)) -> is_Some (run r st k)).
Proof.
  induction r as [|p|r1 [S1 C1] r2 [S2 C2]|r1 [S1 C1] r2 [S2 C2]|lz min p
                 |r1 [S1 C1]|n r1 [S1 C1]| |r1 [S1 C1]|]; split.
  - (* Empty *)
    intros [prev s pos caps] k st' H. exists "", s, []. simpl in *.
    now rewrite after_nil.
  - intros [prev s pos caps] k w fol c Hs [-> ->] Hk. simpl in *. subst s.
    now rewrite after_nil in Hk.
  - (* Char *)
    intros [prev s pos caps] k st' H. simpl in H.
    destruct s as [|x s]; [discriminate|]. destruct (p x) eqn:E; [|discriminate].
    exists (String x ""), s, []. unfold after. simpl.
    rewrite Nat.add_1_r. eauto 6.
  - intros [prev s pos caps] k w fol c Hs (x & Hx & -> & ->) Hk. simpl in *. subst s.
    rewrite Hx. unfold after in Hk. simpl in Hk. now rewrite Nat.add_1_r in Hk.
  - (* Seq *)
    intros [prev s pos caps] k st' H. cbn [run] in H.
    apply S1 in H as (w1 & fol1 & c1 & Hs1 & M1 & H).
    apply S2 in H as (w2 & fol & c2 & Hs2 & M2 & H).
    cbn [after m_rest m_prev m_pos m_caps] in *. subst s fol1.
    exists (w1 +:+ w2), fol, (c2 ++ c1)%list. rewrite str_app_assoc.
    split; [reflexivity|]. split.
    + cbn [matches]. exists w1, w2, c1, c2. auto.
    + unfold after. cbn [m_prev m_pos m_caps].
      now rewrite last_char_app, str_length_app, Nat.add_assoc, <- app_assoc.
  - intros [prev s pos caps] k w fol c Hs (w1 & w2 & c1 & c2 & -> & -> & M1 & M2) Hk.
    cbn [run]. cbn [m_rest m_prev] in *. rewrite str_app_assoc in Hs.
    eapply C1; [exact Hs | exact M1 |].
    eapply C2; [reflexivity | exact M2 |].
    unfold after in *. cbn [m_prev m_pos m_caps] in *.
    now rewrite last_char_app, str_length_app, Nat.add_assoc, <- app_assoc in Hk.
  - (* Alt *)
    intros st k st' H. cbn [run] in H. apply orelse_Some in H as [H | [_ H]].
    + apply S1 in H as (w & fol & c & Hs & M & H). exists w, fol, c. simpl. auto.
    + apply S2 in H as (w & fol & c & Hs & M & H). exists w, fol, c. simpl. auto.
  - intros st k w fol c Hs [M|M] Hk; cbn [run]; apply orelse_is_Some; eauto.
  - (* Rep *)
    intros [prev s pos caps] k st' H. cbn [run m_rest m_prev m_pos m_caps] in H.
    assert (exists w fol, s = w +:+ fol /\ all_in p w = true /\
              (min <= String.length w)%nat /\
              k (MState (last_char prev w) fol (pos + String.length w) caps) = Some st')
      as (w & fol & -> & Hw & Hm & Hk)
      by (destruct lz; [eapply rep_lazy_sound | eapply rep_greedy_sound]; exact H).
    exists w, fol, []. simpl. auto.
  - intros [prev s pos caps] k w fol c Hs (Hw & Hm & ->) Hk.
    cbn [run m_rest m_prev m_pos m_caps] in *. subst s.
    destruct lz; [apply rep_lazy_complete | apply rep_greedy_complete]; assumption.
  - (* Opt *)
    intros [prev s pos caps] k st' H. cbn [run] in H.
    apply orelse_Some in H as [H | [_ H]].
    + apply S1 in H as (w & fol & c & Hs & M & H). exists w, fol, c. simpl. auto.
    + exists "", s, []. rewrite after_nil. simpl. auto.
  - intros [prev s pos caps] k w fol c Hs [M | [-> ->]] Hk; cbn [run];
      apply orelse_is_Some; [left; eauto | right].
    simpl in Hs. subst s. now rewrite after_nil in Hk.
  - (* Group *)
    intros [prev s pos caps] k st' H. cbn [run] in H.
    apply S1 in H as (w & fol & c & Hs & M & H).
    cbn [after m_rest m_prev m_pos m_caps] in *. subst s.
    replace (pos + String.length w - pos)%nat with (String.length w) in H by lia.
    rewrite slice0_app in H.
    exists w, fol, ((n, w) :: c). split; [reflexivity|]. split; [|exact H].
    cbn [matches]. eauto.
  - intros [prev s pos caps] k w fol c Hs (c1 & -> & M) Hk. cbn [run].
    eapply C1; [exact Hs | exact M |].
    cbn [after m_rest m_prev m_pos m_caps] in *. subst s.
    replace (pos + String.length w - pos)%nat with (String.length w) by lia.
    rewrite slice0_app. exact Hk.
  - (* WordB *)
    intros [prev s pos caps] k st' H. cbn [run m_rest m_prev] in H.
    destruct (xorb _ _) eqn:E; [|discriminate].
    exists "", s, []. rewrite after_nil. simpl. auto.
  - intros [prev s pos caps] k w fol c Hs (-> & -> & Hx) Hk.
    cbn [run m_rest m_prev] in *. simpl in Hs. subst s.
    rewrite Hx. now rewrite after_nil in Hk.
  - (* NotAhead *)
    intros [prev s pos caps] k st' H. cbn [run] in H.
    destruct (run r1 _ Some) eqn:E; [discriminate|].
    exists "", s, []. rewrite after_nil. split; [reflexivity|]. split; [|exact H].
    cbn [matches m_prev]. repeat split.
    intros (w' & fol' & c' & Hs & M).
    destruct (C1 (MState prev s pos caps) Some w' fol' c' Hs M) as [x Hx]; [eauto|].
    congruence.
  - intros [prev s pos caps] k w fol c Hs (-> & -> & Hn) Hk.
    cbn [run m_rest m_prev] in *. simpl in Hs. subst s.
    destruct (run r1 _ Some) eqn:E.
    + exfalso. apply Hn. apply S1 in E as (w' & fol' & c' & Hs & M & _). eauto.
    + now rewrite after_nil in Hk.
  - (* Eos *)
    intros [prev s pos caps] k st' H. cbn [run m_rest] in H.
    destruct s; [|discriminate].
    exists "", "", []. rewrite after_nil. simpl. auto.
  - intros [prev s pos caps] k w fol c Hs (-> & -> & ->) Hk.
    cbn [run m_rest] in *. simpl in Hs. subst s. now rewrite after_nil in Hk.
Qed.

(** One attempt, against the denotation. *)
Lemma exec_sound r prev s l m :
  exec r prev s = Some (l, m) ->
  exists w fol,
    s = w +:+ fol /\ l = String.length w /\ whole m = w /\
    matches r prev w fol (groups m).
Proof.
  unfold exec. destruct (run r _ Some) as [st|] eqn:E; [|discriminate].
  intros [= <- <-].
  apply (proj1 (run_correct r)) in E as (w & fol & c & Hs & M & [= <-]).
  cbn [after m_rest m_prev m_pos m_caps whole groups Nat.add] in *. subst s.
  exists w, fol. rewrite app_nil_r, slice0_app. auto.
Qed.

Lemma exec_complete r prev w fol c :
  matches r prev w fol c -> is_Some (exec r prev (w +:+ fol)).
Proof.
  intros M. unfold exec.
  destruct (proj2 (run_correct r) (MState prev (w +:+ fol) 0 []) Some w fol c
              eq_refl M) as [st ->]; eauto.
Qed.

(** ** The ref expressions of a text *)

Lemma matches_lit s0 prev w fol c :
  matches (lit s0) prev w fol c <-> w = s0 /\ c = [].
Proof.
  revert prev w fol c. induction s0 as [|x s0 IH]; intros prev w fol c.
  - reflexivity.
  - destruct s0 as [|y s0].
    + cbn [lit matches]. split.
      * intros (z & Hz & -> & ->). apply is_char_eq in Hz as ->. auto.
      * intros [-> ->]. exists x. unfold is_char. now rewrite Ascii.eqb_refl.
    + change (lit (String x (String y s0)))
        with (Seq (Char (is_char x)) (lit (String y s0))).
      cbn [matches]. split.
      * intros (w1 & w2 & c1 & c2 & -> & -> & (z & Hz & -> & ->) & M).
        apply IH in M as [-> ->]. apply is_char_eq in Hz as ->. auto.
      * intros [-> ->]. exists (String x ""), (String y s0), [], [].
        repeat split. { exists x. unfold is_char. now rewrite Ascii.eqb_refl. }
        apply IH. auto.
Qed.

Lemma matches_Seq_intro r1 r2 prev w1 w2 fol c1 c2 :
  matches r1 prev w1 (w2 +:+ fol) c1 ->
  matches r2 (last_char prev w1) w2 fol c2 ->
  matches (Seq r1 r2) prev (w1 +:+ w2) fol (c2 ++ c1)%list.
Proof. intros M1 M2. cbn [matches]. exists w1, w2, c1, c2. auto. Qed.

Lemma nonempty_length (n : string) : n <> "" <-> (1 <= String.length n)%nat.
Proof. destruct n; simpl; split; intros H; try congruence; lia. Qed.

Lemma matches_ref_iff prev e fol c :
  matches re_ref prev e fol c <-> exists n, is_ref_expr e n /\ c = [(1%nat, n)].
Proof.
  unfold re_ref. cbn [seq]. split.
  - cbn [matches star plus].
    intros (w1 & ? & c1 & ? & -> & -> & M1 &
            w2 & ? & c2 & ? & -> & -> & (Hw2 & _ & ->) &
            w3 & ? & c3 & ? & -> & -> & M3 &
            w4 & ? & c4 & ? & -> & -> & (q1 & Hq1 & -> & ->) &
            w5 & ? & c5 & ? & -> & -> & (c5' & -> & Hw5 & Hn & ->) &
            w6 & ? & c6 & ? & -> & -> & (q2 & Hq2 & -> & ->) &
            w7 & ? & c7 & ? & -> & -> & M7 &
            w8 & w9 & c8 & c9 & -> & -> & (Hw8 & _ & ->) & M9).
    apply matches_lit in M1 as [-> ->], M3 as [-> ->], M7 as [-> ->], M9 as [-> ->].
    exists w5. split; [|reflexivity].
    exists w2, q1, q2, w8. rewrite nonempty_length. auto 10.
  - intros (n & (ws1 & q1 & q2 & ws2 & H1 & H2 & H3 & H4 & H5 & H6 & ->) & ->).
    apply nonempty_length in H3.
    apply (matches_Seq_intro _ _ _ "{{" _ _ [] [(1%nat, n)]);
      [now apply matches_lit|].
    apply (matches_Seq_intro _ _ _ ws1 _ _ [] [(1%nat, n)]);
      [cbn [matches star]; auto with arith|].
    apply (matches_Seq_intro _ _ _ "ref(" _ _ [] [(1%nat, n)]);
      [now apply matches_lit|].
    apply (matches_Seq_intro _ _ _ (String q1 "") _ _ [] [(1%nat, n)]);
      [cbn [matches]; eauto|].
    apply (matches_Seq_intro _ _ _ n _ _ [(1%nat, n)] []);
      [cbn [matches plus]; eauto|].
    apply (matches_Seq_intro _ _ _ (String q2 "") _ _ [] []);
      [cbn [matches]; eauto|].
    apply (matches_Seq_intro _ _ _ ")" _ _ [] []);
      [now apply matches_lit|].
    apply (matches_Seq_intro _ _ _ ws2 "}}" _ [] []);
      [cbn [matches star]; auto with arith | now apply matches_lit].
Qed.

Lemma app_stops_unique p a a' b b' :
  all_in p a = true -> all_in p a' = true ->
  stops p b = true -> stops p b' = true ->
  a +:+ b = a' +:+ b' -> a = a' /\ b = b'.
Proof.
  intros Ha Ha' Hb Hb' E.
  pose proof (span_app p a b Ha Hb) as H1.
  pose proof (span_app p a' b' Ha' Hb') as H2.
  rewrite E in H1. rewrite H1 in H2. now injection H2.
Qed.

Lemma quote_stops_name q s : is_quote q = true -> stops not_quote (String q s) = true.
Proof. intros H. unfold stops, not_quote. now rewrite H. Qed.

(** Where a ref expression begins, its name and its end are determined. *)
Lemma ref_at_unique s n rest n' rest' :
  ref_at s n rest -> ref_at s n' rest' -> n = n' /\ rest = rest'.
Proof.
  intros (e & (ws1 & q1 & q2 & ws2 & H1 & H2 & H3 & H4 & H5 & H6 & ->) & ->)
         (e' & (ws1' & q1' & q2' & ws2' & H1' & H2' & H3' & H4' & H5' & H6' & ->) & E).
  unfold ref_expr in E.
  repeat (rewrite ?str_app_assoc in E; cbn [String.append] in E).
  injection E as E.
  apply (app_stops_unique is_space) in E as [-> E]; try assumption; try reflexivity.
  injection E as -> E.
  apply (app_stops_unique not_quote) in E as [-> E];
    try assumption; try (now apply quote_stops_name).
  injection E as -> E.
  apply (app_stops_unique is_space) in E as [-> E]; try assumption; try reflexivity.
  injection E as ->. auto.
Qed.

Lemma ref_at_nonempty n rest : ~ ref_at "" n rest.
Proof.
  intros (e & (ws1 & q1 & q2 & ws2 & _ & _ & _ & _ & _ & _ & ->) & E). discriminate.
Qed.

Lemma ref_scan_unique s l : ref_scan s l -> forall l', ref_scan s l' -> l = l'.
Proof.
  induction 1 as [|s n rest l Hat Hs IH|c s l Hno Hs IH]; intros l' H'.
  - inversion H' as [|s0 n rest l0 Hat|]; subst; [reflexivity|].
    now apply ref_at_nonempty in Hat.
  - inversion H' as [|s0 n' rest' l0 Hat' Hs'|c s0 l0 Hno' Hs']; subst.
    + now apply ref_at_nonempty in Hat.
    + destruct (ref_at_unique _ _ _ _ _ Hat Hat') as [-> ->].
      f_equal. now apply IH.
    + now apply Hno' in Hat.
  - inversion H' as [|s0 n' rest' l0 Hat' Hs'|c0 s0 l0 Hno' Hs']; subst.
    + now apply Hno in Hat'.
    + now apply IH.
Qed.

(** The scan skips the code units of a match. *)
Lemma matchAll_from_skip r a :
  forall prev b,
    matchAll_from r (String.length a) prev (a +:+ b) =
    matchAll_from r 0 (last_char prev a) b.
Proof.
  induction a as [|x a IH]; intros prev b; [reflexivity|].
  change (String x a +:+ b) with (String x (a +:+ b)).
  cbn [String.length matchAll_from last_char]. apply IH.
Qed.

Lemma exec_ref_sound prev s l m :
  exec re_ref prev s = Some (l, m) ->
  exists e rest, s = e +:+ rest /\ l = String.length e /\
                 is_ref_expr e (cap 1 m).
Proof.
  intros H. apply exec_sound in H as (w & fol & -> & -> & _ & M).
  apply matches_ref_iff in M as (n & Hn & Hc).
  exists w, fol. unfold cap. rewrite Hc. simpl. auto.
Qed.

Lemma exec_ref_none prev s :
  exec re_ref prev s = None -> forall n rest, ~ ref_at s n rest.
Proof.
  intros H n rest (e & He & ->).
  destruct (exec_complete re_ref prev e rest [(1%nat, n)]) as [x Hx]; [|congruence].
  apply matches_ref_iff. eauto.
Qed.

Lemma matchAll_ref_scan k :
  forall s prev, (String.length s <= k)%nat ->
    ref_scan s (map (cap 1) (matchAll_from re_ref 0 prev s)).
Proof.
  induction k as [|k IH]; intros s prev Hk.
  - destruct s; [|simpl in Hk; lia]. cbn [matchAll_from].
    destruct (exec re_ref prev "") as [[l m]|] eqn:E; [|constructor].
    apply exec_ref_sound in E as (e & rest & E & _ & (? & ? & ? & ? & He)).
    destruct He as (_ & _ & _ & _ & _ & _ & ->). discriminate.
  - destruct s as [|c s]; [apply (IH "" prev); simpl; lia|].
    cbn [matchAll_from].
    destruct (exec re_ref prev (String c s)) as [[l m]|] eqn:E.
    + apply exec_ref_sound in E as (e & rest & E & -> & He).
      destruct e as [|c' e].
      { destruct He as (? & ? & ? & ? & _ & _ & _ & _ & _ & _ & He). discriminate. }
      injection E as <- ->. cbn [String.length Nat.pred map].
      rewrite matchAll_from_skip.
      apply scan_hit with (rest := rest).
      * exists (String c e). auto.
      * apply IH. simpl in Hk. rewrite str_length_app in Hk. lia.
    + apply scan_skip; [now apply (exec_ref_none prev)|].
      apply IH. simpl in Hk. lia.
Qed.

Lemma parseRefs_scan content : ref_scan content (parseRefs content).
Proof. unfold parseRefs, matchAll. now apply (matchAll_ref_scan (String.length content)). Qed.

(** C5, as the spec words it, fails: a ref call that does not stand alone
    between the template delimiters is not collected. *)
Lemma ref_call_counterexample :
  has_ref_call "{% set src = ref('a') %}" "a" /\
  exists m, parseModel "{% set src = ref('a') %}" "orders.sql" = Ok m /\ refs m = [].
Proof.
  split.
  - exists "{% set src = ", " %}", "'"%char, "'"%char. repeat split.
  - eexists. split; [vm_compute; reflexivity | reflexivity].
Qed.

(** C5, amended.  [parseModel] collects into refs the name of every ref
    expression of the text, that is of every ref call with a quoted name
    (quotes of either kind) that stands alone between the delimiters {{ and
    }}, white space aside: the names come in the order of the text, one for
    each expression, repeated names kept.  For the text
    {{ ref('a') }} ... {{ ref('b') }} ... {{ ref('a') }} the refs are a, b, a. *)
Theorem refs_in_order :
  (forall content fileName,
     exists m, parseModel content fileName = Ok m /\
       ref_scan content (refs m) /\
       (forall l, ref_scan content l -> l = refs m)) /\
  (exists m,
     parseModel "{{ ref('a') }} ... {{ ref('b') }} ... {{ ref('a') }}" "orders.sql" = Ok m /\
     refs m = ["a"; "b"; "a"]).
Proof.
  split.
  - intros content fileName.
    destruct (parseModel_ok content fileName) as (mat & cfg & cols & _ & _ & Hm).
    eexists. split; [exact Hm|]. cbn [refs]. split; [apply parseRefs_scan|].
    intros l Hl. apply (ref_scan_unique _ _ Hl), parseRefs_scan.
  - eexists. split; [vm_compute; reflexivity | reflexivity].
Qed.

Lemma refs_in_order_witness :
  exists m, parseModel "{{ref('a')}}" "orders.sql" = Ok m /\ ["a"] = refs m.
Proof.
  destruct (proj1 refs_in_order "{{ref('a')}}" "orders.sql") as (m & Hm & _ & Hu).
  exists m. split; [exact Hm|]. apply Hu.
  apply scan_hit with (rest := ""); [|constructor].
  exists "{{ref('a')}}". split; [|reflexivity].
  exists "", "'"%char, "'"%char, "". repeat split. discriminate.
Defined.

(** * Further properties of the code *)

(** ** Lines *)

Lemma split_lines_go_len s : forall cur, len (split_lines_go cur s) = 1 + count_lf s.
Proof.
  induction s as [|c s IH]; intros cur; cbn [split_lines_go count_lf].
  - reflexivity.
  - destruct (code c =? 10)%N.
    + unfold len in *. cbn [List.length]. rewrite Nat2Z.inj_succ, (IH EmptyString). lia.
    + rewrite IH. lia.
Qed.

Lemma count_lf_nonneg s : 0 <= count_lf s.
Proof.
  induction s as [|c s IH]; cbn [count_lf]; [lia|].
  destruct (code c =? 10)%N; lia.
Qed.

Lemma count_lf_app a b : count_lf (a +:+ b) = count_lf a + count_lf b.
Proof.
  induction a as [|c a IH]; cbn [String.append count_lf]; [lia | rewrite IH; lia].
Qed.

Lemma parseModel_lineCount content fileName m :
  parseModel content fileName = Ok m -> lineCount m = 1 + count_lf content.
Proof.
  destruct (parseModel_ok content fileName) as (mat & cfg & cols & _ & _ & Hm).
  rewrite Hm. intros [= <-]. cbn [lineCount]. unfold split_lines.
  apply split_lines_go_len.
Qed.

(** X1. The line count of a parsed model is one more than the number of
    line feeds of the text, so at least 1 (the empty text has one line);
    and the line count of two texts joined by a line feed is the sum of
    their line counts. *)
Theorem lineCount_counts_line_feeds (a b fileName : string) :
  exists ma mb mab,
    parseModel a fileName = Ok ma /\ parseModel b fileName = Ok mb /\
    parseModel (a +:+ LF +:+ b) fileName = Ok mab /\
    lineCount ma = 1 + count_lf a /\ 1 <= lineCount ma /\
    lineCount mab = lineCount ma + lineCount mb.
Proof.
  destruct (parseModel_ok a fileName) as (? & ? & ? & _ & _ & Ha).
  destruct (parseModel_ok b fileName) as (? & ? & ? & _ & _ & Hb).
  destruct (parseModel_ok (a +:+ LF +:+ b) fileName) as (? & ? & ? & _ & _ & Hab).
  eexists _, _, _. split; [exact Ha|]. split; [exact Hb|]. split; [exact Hab|].
  rewrite (parseModel_lineCount _ _ _ Ha), (parseModel_lineCount _ _ _ Hb),
          (parseModel_lineCount _ _ _ Hab).
  rewrite !count_lf_app. change (count_lf LF) with 1.
  pose proof (count_lf_nonneg a). lia.
Qed.

Lemma str_app_empty_r (a : string) : a +:+ "" = a.
Proof. induction a as [|x a IH]; simpl; [reflexivity | now rewrite IH]. Qed.

Lemma rev_app_spec a : forall b, String.rev_app a b = String.rev a +:+ b.
Proof.
  unfold String.rev. induction a as [|x a IH]; intros b; [reflexivity|].
  cbn [String.rev_app]. rewrite IH, (IH (String x "")), str_app_assoc. reflexivity.
Qed.

(** [split] one code unit at a time: a line feed opens a line, any other
    code unit goes to the front of the first line of what follows. *)
Lemma split_lines_go_cur s :
  forall cur,
    split_lines_go cur s =
    match split_lines s with
    | l :: ls => (String.rev cur +:+ l) :: ls
    | [] => []
    end.
Proof.
  unfold split_lines. induction s as [|c s IH]; intros cur; cbn [split_lines_go].
  - now rewrite str_app_empty_r.
  - destruct (code c =? 10)%N.
    + now rewrite str_app_empty_r.
    + rewrite (IH (String c cur)), (IH (String c "")).
      destruct (split_lines_go "" s) as [|l ls]; [reflexivity|].
      unfold String.rev. cbn [String.rev_app].
      now rewrite (rev_app_spec cur (String c "")), str_app_assoc.
Qed.

Lemma split_lines_cons c s :
  split_lines (String c s) =
  if (code c =? 10)%N then "" :: split_lines s
  else match split_lines s with
       | l :: ls => String c l :: ls
       | [] => []
       end.
Proof.
  unfold split_lines at 1. cbn [split_lines_go].
  destruct (code c =? 10)%N; [reflexivity|].
  rewrite split_lines_go_cur. destruct (split_lines s); reflexivity.
Qed.

Lemma split_lines_nonempty s : split_lines s <> [].
Proof.
  intros H. pose proof (split_lines_go_len s "") as Hl.
  unfold split_lines in H. rewrite H in Hl.
  pose proof (count_lf_nonneg s). unfold len in Hl. simpl in Hl. lia.
Qed.

Lemma startsWith_first_line t :
  no_lf t = true ->
  forall s, startsWith t s = true ->
    exists l ls, split_lines s = l :: ls /\ startsWith t l = true.
Proof.
  unfold no_lf. induction t as [|a t IH]; intros Ht s H.
  - destruct (split_lines s) as [|l ls] eqn:E; [now apply split_lines_nonempty in E|].
    exists l, ls. auto.
  - cbn [all_in] in Ht. apply andb_true_iff in Ht as [Ha Ht].
    destruct s as [|b s]; [discriminate|]. cbn [startsWith] in H.
    apply andb_true_iff in H as [Hab H]. apply Ascii.eqb_eq in Hab as <-.
    destruct (IH Ht s H) as (l & ls & E & Hl).
    rewrite split_lines_cons, E. apply negb_true_iff in Ha. rewrite Ha.
    exists (String a l), ls. split; [reflexivity|].
    cbn [startsWith]. now rewrite Ascii.eqb_refl.
Qed.

(** A text without a line feed that occurs in [s] occurs in one of its lines. *)
Lemma includes_some_line t s :
  no_lf t = true -> includes t s = true ->
  existsb (includes t) (split_lines s) = true.
Proof.
  intros Ht. induction s as [|c s IH]; intros H.
  - change (includes t "" || false = true). now rewrite orb_false_r.
  - cbn [includes] in H. apply orb_true_iff in H as [H|H].
    + destruct (startsWith_first_line t Ht _ H) as (l & ls & -> & Hl).
      cbn [existsb]. destruct l; cbn [includes]; now rewrite Hl.
    + specialize (IH H). rewrite split_lines_cons.
      destruct (code c =? 10)%N.
      * cbn [existsb]. rewrite IH. apply orb_true_r.
      * destruct (split_lines s) as [|l ls]; [discriminate|].
        cbn [existsb] in *. apply orb_true_iff in IH as [IH|IH].
        -- cbn [includes]. rewrite IH. now rewrite orb_true_r.
        -- rewrite IH. apply orb_true_r.
Qed.

Lemma findIndex_found {A} (p : A -> bool) l :
  existsb p l = true -> 0 <= findIndex p l < len l.
Proof.
  unfold len. induction l as [|x l IH]; intros H; [discriminate|].
  cbn [existsb findIndex] in *. cbn [List.length]. rewrite Nat2Z.inj_succ.
  destruct (p x); [lia|]. specialize (IH H).
  destruct (findIndex p l); lia.
Qed.

Lemma lower_char_lf c : (code (lower_char c) =? 10)%N = (code c =? 10)%N.
Proof.
  destruct c as [b0 b1 b2 b3 b4 b5 b6 b7].
  destruct b0, b1, b2, b3, b4, b5, b6, b7; reflexivity.
Qed.

Lemma split_lines_lower s :
  split_lines (toLowerCase s) = map toLowerCase (split_lines s).
Proof.
  induction s as [|c s IH]; [reflexivity|].
  cbn [toLowerCase]. rewrite !split_lines_cons, lower_char_lf, IH.
  destruct (code c =? 10)%N; [reflexivity|].
  destruct (split_lines s); reflexivity.
Qed.

Lemma existsb_map {A B} (f : A -> B) (p : B -> bool) l :
  existsb p (map f l) = existsb (fun x => p (f x)) l.
Proof. induction l as [|x l IH]; simpl; [reflexivity | now rewrite IH]. Qed.

(** The line a rule reports for a trigger it found in the lower-cased text. *)
Lemma lineOfLower_range t content :
  no_lf t = true -> includes t (toLowerCase content) = true ->
  1 <= lineOfLower t (split_lines content) <= len (split_lines content).
Proof.
  intros Ht H. unfold lineOfLower.
  apply (includes_some_line t _ Ht) in H.
  rewrite split_lines_lower, existsb_map in H.
  apply findIndex_found in H. lia.
Qed.

Lemma in_fired_true {A} (b : bool) (x i : A) : In i (fired b x) -> b = true /\ i = x.
Proof. destruct b; simpl; intuition. Qed.

(** A search, against the denotation. *)
Lemma search_from_sound r s :
  forall prev m,
    search_from r prev s = Some m ->
    exists pre w fol prev',
      s = pre +:+ w +:+ fol /\ whole m = w /\ matches r prev' w fol (groups m).
Proof.
  induction s as [|c s IH]; intros prev m H; cbn [search_from] in H.
  - destruct (exec r prev "") as [[l m']|] eqn:E; [|discriminate].
    injection H as ->. apply exec_sound in E as (w & fol & Hs & _ & Hw & M).
    exists "", w, fol, prev. auto.
  - destruct (exec r prev (String c s)) as [[l m']|] eqn:E.
    + injection H as ->. apply exec_sound in E as (w & fol & Hs & _ & Hw & M).
      exists "", w, fol, prev. auto.
    + apply IH in H as (pre & w & fol & prev' & -> & Hw & M).
      exists (String c pre), w, fol, prev'. auto.
Qed.

Lemma digit_not_lf c : is_digit c = true -> negb (code c =? 10)%N = true.
Proof.
  unfold is_digit, in_range. intros H. apply andb_true_iff in H as [H _].
  apply N.leb_le in H. apply negb_true_iff, N.eqb_neq. lia.
Qed.

Lemma matches_date_no_lf prev w fol c : matches re_date prev w fol c -> no_lf w = true.
Proof.
  unfold re_date. cbn [seq matches].
  intros (w1 & ? & c1 & ? & -> & -> & M1 &
          w2 & w3 & c2 & c3 & -> & -> & (c2' & -> & M2) & M3).
  apply matches_lit in M1 as [-> _], M3 as [-> _].
  destruct M2 as (? & ? & ? & ? & -> & -> & Ma &
                  ? & ? & ? & ? & -> & -> & (y3 & H3 & -> & ->) &
                  ? & ? & ? & ? & -> & -> & (y4 & H4 & -> & ->) &
                  ? & ? & ? & ? & -> & -> & Mb &
                  ? & ? & ? & ? & -> & -> & (m1 & H5 & -> & ->) &
                  ? & ? & ? & ? & -> & -> & (m2 & H6 & -> & ->) &
                  ? & ? & ? & ? & -> & -> & Mc &
                  ? & ? & ? & ? & -> & -> & (d1 & H7 & -> & ->) &
                  (d2 & H8 & -> & ->)).
  apply matches_lit in Ma as [-> _], Mb as [-> _], Mc as [-> _].
  unfold no_lf. cbn [String.append all_in].
  rewrite (digit_not_lf _ H3), (digit_not_lf _ H4), (digit_not_lf _ H5),
    (digit_not_lf _ H6), (digit_not_lf _ H7), (digit_not_lf _ H8). reflexivity.
Qed.

(** X2. Every line number the detector reports is a line of the text: an
    issue that carries a line carries one between 1 and the number of lines
    of the text. *)
Theorem reported_lines_in_range
    (content : string) (model : ParsedModel) (warehouse : string) (i : Issue) (n : Z) :
  In i (detectAntiPatternsFromContent content model warehouse) ->
  line i = Some n ->
  1 <= n <= len (split_lines content).
Proof.
  rewrite detect_rule_table. unfold rule_table. cbv zeta.
  rewrite !in_app_iff. intros Hi Hn.
  repeat match goal with H : _ \/ _ |- _ => destruct H as [H|H] end;
    try (apply in_fired_true in Hi as [Hb ->];
         cbv [line issue_select_star issue_staging_join issue_staging_ref
              issue_no_unique_key issue_unbounded issue_distinct_join issue_cross_join
              issue_func_filter issue_uuid_view issue_limit issue_cte_count] in Hn;
         first
           [ discriminate Hn
           | injection Hn as <-;
             repeat match goal with
                    | H : _ && _ = true |- _ => apply andb_true_iff in H as [? ?]
                    end;
             apply lineOfLower_range; [reflexivity | assumption] ]).
  destruct (search re_date content) as [m|] eqn:E; [|destruct Hi].
  destruct Hi as [<-|[]]. injection Hn as <-.
  apply search_from_sound in E as (pre & w & fol & prev' & Hs & Hw & M).
  apply matches_date_no_lf in M. rewrite Hw.
  assert (Hin : includes w content = true)
    by (apply includes_spec; exists pre, fol; exact Hs).
  apply (includes_some_line w _ M) in Hin. apply findIndex_found in Hin.
  change (1 <= findIndex (includes w) (split_lines content) + 1
          <= len (split_lines content)).
  lia.
Qed.

Lemma reported_lines_in_range_witness : 1 <= 2 <= len (split_lines fct_orders_text).
Proof.
  apply (reported_lines_in_range fct_orders_text fct_orders_model "snowflake"
           (issue_select_star 2)).
  - rewrite fct_orders_detect. left. reflexivity.
  - reflexivity.
Defined.

(** ** The rules of the detector *)

Lemma fired_sublist {A} (b : bool) (x : A) : fired b x `sublist_of` [x].
Proof. destruct b; simpl; [reflexivity | apply sublist_nil_l]. Qed.

Lemma map_fired {A B} (f : A -> B) b x : map f (fired b x) = fired b (f x).
Proof. now destruct b. Qed.

Lemma fired_length {A} (b : bool) (x : A) :
  List.length (fired b x) = if b then 1%nat else 0%nat.
Proof. now destruct b. Qed.

Lemma rule_table_patterns content model warehouse :
  map pattern (rule_table content model warehouse) `sublist_of` rule_patterns.
Proof.
  unfold rule_table, rule_patterns. cbv zeta.
  rewrite !map_app, !map_fired.
  repeat (apply (sublist_app _ [_]); [apply fired_sublist|]).
  apply (sublist_app _ [_]);
    [destruct (search re_date content); simpl; [reflexivity | apply sublist_nil_l]|].
  repeat (apply (sublist_app _ [_]); [apply fired_sublist|]).
  apply fired_sublist.
Qed.

(** X3. No rule fires twice: the patterns of the issues the detector returns
    are pairwise different and come in the order of the rule set; and since
    the two warehouse rules exclude each other, at most 11 issues are
    returned. *)
Theorem detector_rules_fire_once
    (content : string) (model : ParsedModel) (warehouse : string) :
  let found := detectAntiPatternsFromContent content model warehouse in
  NoDup (map pattern found) /\
  map pattern found `sublist_of` rule_patterns /\
  (List.length found <= 11)%nat.
Proof.
  cbv zeta. rewrite detect_rule_table.
  pose proof (rule_table_patterns content model warehouse) as Hs.
  split; [|split; [exact Hs|]].
  - refine (sublist_NoDup _ _ _ Hs).
    apply (bool_decide_unpack _). vm_compute. exact I.
  - unfold rule_table. cbv zeta. rewrite !length_app, !fired_length.
    assert (Hw : String.eqb warehouse "snowflake" && String.eqb warehouse "bigquery" = false).
    { destruct (String.eqb warehouse "snowflake") eqn:E; [|reflexivity].
      apply String.eqb_eq in E as ->. reflexivity. }
    destruct (String.eqb warehouse "snowflake"), (String.eqb warehouse "bigquery");
      try discriminate Hw; cbn [andb];
      destruct (search re_date content); cbn [List.length];
      repeat match goal with
             | |- context [if ?b then 1%nat else 0%nat] =>
                 let n := fresh "n" in
                 set (n := if b then 1%nat else 0%nat);
                 assert (n <= 1)%nat by (subst n; destruct b; lia);
                 clearbody n
             end; lia.
Qed.

(** Which rule reported an issue of a given pattern: every rule but the one
    with that pattern is ruled out; the guard of the one is left in [Hb]. *)
Ltac rule_inv Hi Hp :=
  rewrite detect_rule_table in Hi; unfold rule_table in Hi; cbv zeta in Hi;
  rewrite !in_app_iff in Hi;
  repeat (destruct Hi as [Hi|Hi]);
  first
    [ let Hb := fresh "Hb" in
      apply in_fired_true in Hi as [Hb ->]; try discriminate Hp
    | destruct (search re_date _) eqn:?;
      [destruct Hi as [<-|[]]; try discriminate Hp | destruct Hi] ].

Lemma len_pos_nonempty {A} (l : list A) : (0 <? len l) = true <-> l <> [].
Proof.
  unfold len. destruct l as [|x l]; cbn [List.length].
  - split; [discriminate | congruence].
  - split; [discriminate|]. intros _. apply Z.ltb_lt. lia.
Qed.

(** X4. The two staging rules fire for staging models only.  The detector
    reports ref() in staging model exactly when the model has type staging
    and at least one ref, and Join in staging model exactly when the model
    has type staging and the lower-cased text contains a join between
    spaces and not the word deduplication. *)
Theorem staging_rules_iff (content : string) (model : ParsedModel) (warehouse : string) :
  let found := detectAntiPatternsFromContent content model warehouse in
  ((exists i, In i found /\ pattern i = "ref() in staging model") <->
   type model = staging /\ refs model <> []) /\
  ((exists i, In i found /\ pattern i = "Join in staging model") <->
   type model = staging /\ includes " join " (toLowerCase content) = true
   /\ includes "deduplication" (toLowerCase content) = false).
Proof.
  cbv zeta. split; split.
  - intros (i & Hi & Hp). rule_inv Hi Hp.
    apply andb_true_iff in Hb as [Ht Hr].
    apply bool_decide_eq_true in Ht. now apply len_pos_nonempty in Hr.
  - intros [Ht Hr]. exists issue_staging_ref. split; [|reflexivity].
    now apply staging_ref_in_table.
  - intros (i & Hi & Hp). rule_inv Hi Hp.
    apply andb_true_iff in Hb as [Ht Hb]. apply andb_true_iff in Hb as [Hj Hd].
    apply bool_decide_eq_true in Ht. apply negb_true_iff in Hd. auto.
  - intros (Ht & Hj & Hd). eexists. rewrite detect_rule_table. unfold rule_table.
    cbv zeta. rewrite (bool_decide_eq_true_2 _ Ht), Hj, Hd. rewrite !in_app_iff.
    split; [right; left; left; reflexivity | reflexivity].
Qed.

(** ** The verdict *)

Lemma some_severity_app s l1 l2 :
  some_severity s (l1 ++ l2) = some_severity s l1 || some_severity s l2.
Proof. apply existsb_app. Qed.

Lemma some_severity_review s l :
  some_severity (severity_name s) (map review_of l) = has_severity s l.
Proof.
  unfold some_severity, has_severity. rewrite existsb_map.
  induction l as [|x l IH]; [reflexivity|]. cbn [existsb]. rewrite IH. f_equal.
  cbn [r_severity review_of]. destruct (severity x), s; reflexivity.
Qed.

Lemma some_severity_fired_low s b x :
  r_severity x = "low" -> s <> low -> some_severity (severity_name s) (fired b x) = false.
Proof.
  intros Hx Hs. destruct b; [|reflexivity]. cbn [fired some_severity existsb].
  rewrite Hx. destruct s; try reflexivity. congruence.
Qed.

(** The verdict, from the detected issues. *)
Lemma reviewCode_overall model content warehouse strict :
  let found := detectAntiPatternsFromContent content model warehouse in
  let r := reviewCode model content warehouse strict in
  overall r =
  if has_severity critical found then request_changes
  else if has_severity high found then (if strict then request_changes else comment)
  else if 0 <? len (issues r) then comment
  else approve.
Proof.
  cbv zeta.
  assert (H : forall s, s <> low ->
            some_severity (severity_name s)
              (issues (reviewCode model content warehouse strict)) =
            has_severity s (detectAntiPatternsFromContent content model warehouse)).
  { intros s Hs. rewrite reviewCode_issues, !some_severity_app, some_severity_review,
      !some_severity_fired_low by (reflexivity || assumption).
    now rewrite !orb_false_r. }
  rewrite <- (H critical), <- (H high) by discriminate.
  unfold reviewCode. destruct (fold_left review_step _ _) as [is0 sc0].
  destruct strict; [|reflexivity].
  destruct (negb (includes "description" content));
    destruct (negb (bool_decide (type model = unknown)) && _); reflexivity.
Qed.

Lemma has_severity_in s l : has_severity s l = true <-> exists i, In i l /\ severity i = s.
Proof.
  unfold has_severity. rewrite existsb_exists. split.
  - intros (i & Hi & Hs). apply bool_decide_eq_true in Hs. eauto.
  - intros (i & Hi & Hs). exists i. split; [exact Hi|]. now apply bool_decide_eq_true.
Qed.

Lemma total_penalty_in i l : In i l -> penalty (severity i) <= total_penalty l.
Proof.
  induction l as [|x l IH]; intros H; [destruct H|].
  cbn [total_penalty fold_right]. fold (total_penalty l).
  pose proof (total_penalty_nonneg l).
  destruct H as [->|H]; [lia|]. specialize (IH H).
  destruct (severity x); simpl; lia.
Qed.

(** X5. The verdict is request_changes exactly when a critical issue was
    detected, or a high one under [strict]; the score is then at most 85, and
    at most 75 when the issue is critical. *)
Theorem request_changes_iff
    (model : ParsedModel) (content warehouse : string) (strict : bool) :
  let found := detectAntiPatternsFromContent content model warehouse in
  let r := reviewCode model content warehouse strict in
  (overall r = request_changes <->
   (exists i, In i found /\ severity i = critical) \/
   (strict = true /\ exists i, In i found /\ severity i = high)) /\
  (overall r = request_changes -> score r <= 85) /\
  ((exists i, In i found /\ severity i = critical) -> score r <= 75).
Proof.
  cbv zeta. rewrite reviewCode_overall, reviewCode_score.
  rewrite <- !has_severity_in.
  pose proof (points_nonneg (strict && lacks_description content)).
  pose proof (points_nonneg (strict && breaks_naming model)).
  assert (Hc : has_severity critical (detectAntiPatternsFromContent content model warehouse)
               = true ->
               25 <= total_penalty (detectAntiPatternsFromContent content model warehouse)).
  { intros Hx. apply has_severity_in in Hx as (i & Hi & Hs).
    apply total_penalty_in in Hi. now rewrite Hs in Hi. }
  assert (Hh : has_severity high (detectAntiPatternsFromContent content model warehouse)
               = true ->
               15 <= total_penalty (detectAntiPatternsFromContent content model warehouse)).
  { intros Hx. apply has_severity_in in Hx as (i & Hi & Hs).
    apply total_penalty_in in Hi. now rewrite Hs in Hi. }
  unfold clamp.
  destruct (has_severity critical _) eqn:E1; [split; [tauto|]; split; intros _;
    specialize (Hc eq_refl); lia|].
  destruct (has_severity high _) eqn:E2.
  - destruct strict.
    + split; [tauto|]. split; [intros _; specialize (Hh eq_refl); lia | discriminate].
    + split; [|split; discriminate]. split; [discriminate|]. intros [?|[? _]]; discriminate.
  - split; [|split; [|discriminate]].
    + split; [destruct (0 <? _); discriminate|]. intros [?|[_ ?]]; discriminate.
    + destruct (0 <? _); discriminate.
Qed.

Lemma request_changes_iff_witness :
  score (reviewCode busy_model busy_cross_text "postgres" false) <= 85.
Proof.
  apply (proj1 (proj2 (request_changes_iff busy_model busy_cross_text "postgres" false))).
  vm_compute. reflexivity.
Defined.

Lemma total_penalty_zero l : total_penalty l = 0 <-> l = [].
Proof.
  split; [|intros ->; reflexivity].
  destruct l as [|x l]; [reflexivity|]. cbn [total_penalty fold_right].
  fold (total_penalty l). pose proof (total_penalty_nonneg l).
  destruct (severity x); simpl; lia.
Qed.

Lemma reviewCode_no_issues model content warehouse strict :
  issues (reviewCode model content warehouse strict) = [] <->
  detectAntiPatternsFromContent content model warehouse = [] /\
  strict && lacks_description content = false /\
  strict && breaks_naming model = false.
Proof.
  rewrite reviewCode_issues. split.
  - intros H. apply app_eq_nil in H as [H1 H]. apply app_eq_nil in H as [H2 H3].
    apply map_eq_nil in H1. split; [exact H1|].
    split; [destruct (strict && lacks_description content) | destruct (strict && breaks_naming model)];
      (reflexivity || discriminate).
  - intros (-> & -> & ->). reflexivity.
Qed.

(** X6. A review approves exactly when it has no issue at all, and exactly
    then the score is 100: any issue, of whatever severity, costs points and
    the approval. *)
Theorem approve_iff_no_issue
    (model : ParsedModel) (content warehouse : string) (strict : bool) :
  let r := reviewCode model content warehouse strict in
  (overall r = approve <-> issues r = []) /\
  (score r = 100 <-> issues r = []).
Proof.
  cbv zeta. split.
  - rewrite reviewCode_overall. split.
    + destruct (has_severity critical _); [discriminate|].
      destruct (has_severity high _); [destruct strict; discriminate|].
      destruct (0 <? len _) eqn:E; [discriminate|]. intros _.
      destruct (issues _); [reflexivity|].
      unfold len in E. cbn [List.length] in E. apply Z.ltb_ge in E. lia.
    + intros H. pose proof H as H'. apply reviewCode_no_issues in H' as (Hd & _ & _).
      rewrite H, Hd. reflexivity.
  - rewrite reviewCode_no_issues, reviewCode_score, <- total_penalty_zero.
    pose proof (total_penalty_nonneg (detectAntiPatternsFromContent content model warehouse)).
    unfold clamp.
    destruct (strict && lacks_description content), (strict && breaks_naming model);
      cbn [points]; split; try (intros (? & ? & ?); discriminate); lia.
Qed.

Lemma approve_iff_helper model content warehouse :
  overall (reviewCode model content warehouse true) = approve ->
  overall (reviewCode model content warehouse false) = approve.
Proof.
  rewrite !reviewCode_overall.
  destruct (has_severity critical _); [discriminate|].
  destruct (has_severity high _); [discriminate|].
  destruct (0 <? len (issues (reviewCode model content warehouse true))) eqn:E;
    [discriminate|]. intros _.
  destruct (0 <? len (issues (reviewCode model content warehouse false))) eqn:E';
    [|reflexivity].
  rewrite reviewCode_issues in E, E'. cbn [andb fired app] in E, E'.
  rewrite app_nil_r in E'. unfold len in *. rewrite length_app in E.
  apply Z.ltb_ge in E. apply Z.ltb_lt in E'. lia.
Qed.

Lemma reviewCode_strengths model content warehouse strict :
  strengths (reviewCode model content warehouse strict) =
  (fired (includes "config(" content) "Uses config block for model configuration"
   ++ fired (includes "-- " content || includes "/*" content) "Code includes comments"
   ++ fired (includes "coalesce" (toLowerCase content)
             || includes "ifnull" (toLowerCase content)
             || includes "nvl" (toLowerCase content))
            "Handles null values appropriately"
   ++ fired (option_eqb (materialization model) "incremental")
            "Uses incremental materialization for efficiency"
   ++ fired ((0 <? cteCount model) && (cteCount model <=? 5))
            "Uses CTEs for readable organization")%list.
Proof.
  unfold reviewCode. destruct (fold_left review_step _ _) as [is0 sc0].
  rewrite !push_if_fired. cbn [app].
  destruct strict;
    [destruct (negb (includes "description" content));
     destruct (negb (bool_decide (type model = unknown)) && _)|];
    cbn [strengths]; rewrite <- ?app_assoc; reflexivity.
Qed.

(** X7. [strict] never helps: the issues of the strict review are those of
    the plain review followed by at most two more, the score is lower by at
    most 10 and never higher, a plain request_changes stays one and a strict
    approve is a plain approve. *)
Theorem strict_is_stricter (model : ParsedModel) (content warehouse : string) :
  let lax := reviewCode model content warehouse false in
  let r := reviewCode model content warehouse true in
  (exists more, issues r = (issues lax ++ more)%list /\ (List.length more <= 2)%nat) /\
  score r <= score lax <= score r + 10 /\
  strengths r = strengths lax /\
  (overall lax = request_changes -> overall r = request_changes) /\
  (overall r = approve -> overall lax = approve).
Proof.
  cbv zeta. split; [|split; [|split; [|split]]].
  - rewrite !reviewCode_issues. cbn [andb fired app]. rewrite app_nil_r.
    eexists. split; [reflexivity|]. rewrite length_app, !fired_length.
    destruct (lacks_description content), (breaks_naming model); simpl; lia.
  - rewrite !reviewCode_score. cbn [andb points]. unfold clamp.
    destruct (lacks_description content), (breaks_naming model); cbn [points]; lia.
  - now rewrite !reviewCode_strengths.
  - rewrite !reviewCode_overall.
    destruct (has_severity critical _); [reflexivity|].
    destruct (has_severity high _); [discriminate|].
    destruct (0 <? len (issues (reviewCode model content warehouse false))); discriminate.
  - intros H. apply approve_iff_helper in H. exact H.
Qed.

Lemma strict_is_stricter_witness :
  overall (reviewCode busy_model busy_cross_text "snowflake" true) = request_changes.
Proof.
  refine (proj1 (proj2 (proj2 (proj2
            (strict_is_stricter busy_model busy_cross_text "snowflake")))) _).
  vm_compute. reflexivity.
Defined.

Lemma detected_pattern_known content model warehouse i :
  In i (detectAntiPatternsFromContent content model warehouse) ->
  pattern i ∈ rule_patterns.
Proof.
  intros Hi. rewrite detect_rule_table in Hi.
  eapply elem_of_sublist; [|apply rule_table_patterns].
  apply list_elem_of_In, in_map, Hi.
Qed.

(** The strict naming issue is reported exactly when the naming check fails. *)
Lemma naming_issue_iff model content warehouse :
  (exists i, In i (issues (reviewCode model content warehouse true)) /\
             title i = "Inconsistent naming convention") <->
  breaks_naming model = true.
Proof.
  rewrite reviewCode_issues. cbn [andb]. split.
  - intros (i & Hi & Ht). rewrite !in_app_iff in Hi. destruct Hi as [Hi|[Hi|Hi]].
    + apply in_map_iff in Hi as (x & <- & Hx). cbn [title review_of] in Ht.
      apply detected_pattern_known in Hx. rewrite Ht in Hx.
      exfalso. revert Hx. apply (bool_decide_unpack _). vm_compute. exact I.
    + apply in_fired_true in Hi as [_ ->]. discriminate Ht.
    + apply in_fired_true in Hi as [Hb _]. exact Hb.
  - intros ->. exists (issue_naming model). rewrite !in_app_iff.
    split; [right; right; left; reflexivity | reflexivity].
Qed.

Lemma inferType_prefix r :
  inferType ("stg_" +:+ r) = staging /\ inferType ("int_" +:+ r) = intermediate /\
  inferType ("fct_" +:+ r) = fact /\ inferType ("dim_" +:+ r) = dimension.
Proof. repeat split. Qed.

(** X8. Under [strict] a file named stg_... or fct_... always gets the issue
    Inconsistent naming convention, because the check asks for the first
    three letters of the type name (sta_, fac_): such a model is never
    approved and never scores above 95.  A file named int_... or dim_...
    never gets that issue. *)
Theorem strict_naming_on_parsed_models (content rest warehouse : string) :
  (forall fileName, fileName = "stg_" +:+ rest \/ fileName = "fct_" +:+ rest ->
     exists m, parseModel content fileName = Ok m /\
       let r := reviewCode m content warehouse true in
       (exists i, In i (issues r) /\ title i = "Inconsistent naming convention"
                  /\ r_severity i = "low") /\
       score r <= 95 /\ overall r <> approve) /\
  (forall fileName, fileName = "int_" +:+ rest \/ fileName = "dim_" +:+ rest ->
     exists m, parseModel content fileName = Ok m /\
       forall i, In i (issues (reviewCode m content warehouse true)) ->
                 title i <> "Inconsistent naming convention").
Proof.
  split; intros fileName Hf;
    destruct (parseModel_ok content fileName) as (mat & cfg & cols & _ & _ & Hm);
    eexists; (split; [exact Hm|]).
  - match goal with |- context [reviewCode ?m _ _ _] => set (m0 := m) end.
    assert (Hb : breaks_naming m0 = true) by (destruct Hf as [->| ->]; reflexivity).
    cbv zeta. split; [|split].
    + exists (issue_naming m0). rewrite reviewCode_issues, Hb. cbn [andb fired].
      rewrite !in_app_iff. split; [right; right; left; reflexivity | split; reflexivity].
    + rewrite reviewCode_score, Hb. cbn [andb points]. unfold clamp.
      pose proof (total_penalty_nonneg (detectAntiPatternsFromContent content m0 warehouse)).
      pose proof (points_nonneg (lacks_description content)). lia.
    + intros Ha.
      assert (Hi : issues (reviewCode m0 content warehouse true) = []).
      { rewrite reviewCode_overall in Ha.
        destruct (has_severity critical _); [discriminate|].
        destruct (has_severity high _); [discriminate|].
        destruct (0 <? len _) eqn:E; [discriminate|].
        destruct (issues _); [reflexivity|].
        unfold len in E. cbn [List.length] in E. apply Z.ltb_ge in E. lia. }
      apply reviewCode_no_issues in Hi as (_ & _ & Hn). cbn [andb] in Hn. congruence.
  - match goal with |- context [reviewCode ?m _ _ _] => set (m0 := m) end.
    assert (Hb : breaks_naming m0 = false) by (destruct Hf as [->| ->]; reflexivity).
    intros i Hi Ht.
    assert (breaks_naming m0 = true) by (apply (naming_issue_iff m0 content warehouse); eauto).
    congruence.
Qed.

Lemma strict_naming_on_parsed_models_witness :
  exists m, parseModel "select 1" "fct_orders" = Ok m /\
            score (reviewCode m "select 1" "snowflake" true) <= 95.
Proof.
  destruct (proj1 (strict_naming_on_parsed_models "select 1" "orders" "snowflake")
              "fct_orders" (or_intror eq_refl)) as (m & Hm & _ & Hs & _).
  exists m. split; [exact Hm | exact Hs].
Defined.

Lemma total_penalty_div5 l : exists k, total_penalty l = 5 * k.
Proof.
  induction l as [|x l [k IH]]; [exists 0; reflexivity|].
  cbn [total_penalty fold_right]. fold (total_penalty l). rewrite IH.
  destruct (severity x); cbn [penalty];
    [exists (5 + k) | exists (3 + k) | exists (2 + k) | exists (1 + k)]; lia.
Qed.

(** X9. Every score is one of 0, 5, 10, ..., 100: each deduction is a
    multiple of 5, and so are both bounds of the clamp. *)
Theorem score_is_multiple_of_5
    (model : ParsedModel) (content warehouse : string) (strict : bool) :
  exists k, 0 <= k <= 20 /\ score (reviewCode model content warehouse strict) = 5 * k.
Proof.
  rewrite reviewCode_score.
  pose proof (total_penalty_nonneg (detectAntiPatternsFromContent content model warehouse)) as H.
  destruct (total_penalty_div5 (detectAntiPatternsFromContent content model warehouse))
    as [k Hk].
  rewrite Hk in *. unfold clamp.
  destruct (strict && lacks_description content), (strict && breaks_naming model);
    cbn [points];
    [exists (Z.max 0 (18 - k)) | exists (Z.max 0 (19 - k))
    | exists (Z.max 0 (19 - k)) | exists (Z.max 0 (20 - k))]; lia.
Qed.

(** X10. A text that contains cross join, in any case, gets the issue CROSS
    JOIN detected, and only such a text does; the issue is critical, so that
    every review of the text, strict or not and whatever the model and the
    warehouse, requests changes and scores at most 75. *)
Theorem cross_join_rule
    (content : string) (model : ParsedModel) (warehouse : string) (strict : bool) :
  let found := detectAntiPatternsFromContent content model warehouse in
  let r := reviewCode model content warehouse strict in
  ((exists i, In i found /\ pattern i = "CROSS JOIN detected") <->
   includes "cross join" (toLowerCase content) = true) /\
  (forall i, In i found -> pattern i = "CROSS JOIN detected" -> severity i = critical) /\
  (includes "cross join" (toLowerCase content) = true ->
   overall r = request_changes /\ score r <= 75).
Proof.
  cbv zeta.
  assert (Hin : includes "cross join" (toLowerCase content) = true ->
                In (issue_cross_join (lineOfLower "cross join" (split_lines content)))
                   (detectAntiPatternsFromContent content model warehouse)).
  { intros H. rewrite detect_rule_table. unfold rule_table. cbv zeta. rewrite H.
    rewrite !in_app_iff. do 7 right. left. left. reflexivity. }
  split; [split|split].
  - intros (i & Hi & Hp). rule_inv Hi Hp. exact Hb.
  - intros H. eexists. split; [apply (Hin H) | reflexivity].
  - intros i Hi Hp. rule_inv Hi Hp. reflexivity.
  - intros H. apply Hin in H.
    assert (Hc : has_severity critical
                   (detectAntiPatternsFromContent content model warehouse) = true)
      by (apply has_severity_in; eauto).
    split; [rewrite reviewCode_overall, Hc; reflexivity|].
    rewrite reviewCode_score. apply total_penalty_in in H. cbn [severity issue_cross_join penalty] in H.
    pose proof (points_nonneg (strict && lacks_description content)).
    pose proof (points_nonneg (strict && breaks_naming model)).
    unfold clamp. lia.
Qed.

Lemma cross_join_rule_witness :
  overall (reviewCode fct_orders_model "select 1 from a CROSS JOIN b" "duckdb" false)
  = request_changes.
Proof.
  refine (proj1 (proj2 (proj2
            (cross_join_rule "select 1 from a CROSS JOIN b" fct_orders_model "duckdb" false))
            _)).
  vm_compute. reflexivity.
Defined.

(** X11. Only the warehouses snowflake and bigquery select rules: every
    other warehouse name gives the same issues as any other, and those
    issues are reported for snowflake and for bigquery as well. *)
Theorem warehouse_rules
    (content : string) (model : ParsedModel) (w1 w2 : string) :
  w1 <> "snowflake" -> w1 <> "bigquery" ->
  (w2 <> "snowflake" -> w2 <> "bigquery" ->
   detectAntiPatternsFromContent content model w1 =
   detectAntiPatternsFromContent content model w2) /\
  (forall i, In i (detectAntiPatternsFromContent content model w1) ->
             In i (detectAntiPatternsFromContent content model w2)).
Proof.
  intros H1 H2. apply String.eqb_neq in H1, H2.
  rewrite !detect_rule_table. unfold rule_table. cbv zeta.
  rewrite H1, H2. cbn [andb fired app]. split.
  - intros H3 H4. apply String.eqb_neq in H3, H4. rewrite H3, H4. reflexivity.
  - intros i Hi. rewrite !in_app_iff in *. tauto.
Qed.

Lemma warehouse_rules_witness :
  detectAntiPatternsFromContent fct_orders_text fct_orders_model "postgres" =
  detectAntiPatternsFromContent fct_orders_text fct_orders_model "duckdb".
Proof.
  refine (proj1 (warehouse_rules fct_orders_text fct_orders_model "postgres" "duckdb"
                   _ _) _ _); discriminate.
Defined.

(** ** The parsed configuration *)

Lemma matchAll_sound r s m :
  In m (matchAll r s) ->
  exists prev w fol, whole m = w /\ matches r prev w fol (groups m).
Proof.
  intros H. apply matchAll_from_exec in H as (prev & s' & l & E).
  apply exec_sound in E as (w & fol & _ & _ & Hw & M). eauto.
Qed.

Lemma word_nonempty w : (1 <= String.length w)%nat -> w <> "".
Proof. now apply nonempty_length. Qed.

(** One key-value pair of the configuration: the key is a word, the value
    is not empty. *)
Lemma kv_match_shape prev w fol c :
  matches re_kv prev w fol c ->
  exists k v, group 1 c = Some k /\ cap_or (group 3 c) (group 4 c) = v /\
              k <> "" /\ all_in is_word k = true /\ v <> "".
Proof.
  unfold re_kv. cbn [seq matches plus star].
  intros (k & ? & c1 & ? & -> & -> & (c1' & -> & Hk & Hk1 & ->) &
          ? & ? & ? & ? & -> & -> & (_ & _ & ->) &
          ? & ? & ? & ? & -> & -> & M3 &
          ? & w5 & ? & c5 & -> & -> & (_ & _ & ->) &
          (c5' & -> & Malt)).
  apply matches_lit in M3 as [-> ->].
  exists k. destruct Malt as [Mq | Mw].
  - destruct Mq as (? & ? & ? & ? & Hw5 & -> & (q1 & _ & -> & ->) &
                    v & ? & ? & ? & -> & -> & (c3' & -> & Hv & Hv1 & ->) &
                    (q2 & _ & -> & ->)).
    exists v. cbn. repeat split; try assumption; try (now apply word_nonempty).
    destruct v; [simpl in Hv1; lia | reflexivity].
  - destruct Mw as (c4' & -> & Hv & Hv1 & ->).
    exists w5. cbn. repeat split; try assumption; try (now apply word_nonempty).
Qed.

Lemma config_of_good kvPairs :
  (forall m, In m kvPairs ->
     exists prev w fol, matches re_kv prev w fol (groups m)) ->
  forall k v, config_of kvPairs !! k = Some v -> good_entry k v.
Proof.
  unfold config_of.
  assert (G : forall l (cfg : gmap string string),
            (forall m, In m l -> exists prev w fol, matches re_kv prev w fol (groups m)) ->
            (forall k v, cfg !! k = Some v -> good_entry k v) ->
            forall k v,
              fold_left (fun cfg m =>
                           config_set (cap 1 m)
                             (cap_or (group 3 (groups m)) (group 4 (groups m))) cfg)
                        l cfg !! k = Some v -> good_entry k v).
  { induction l as [|m l IH]; intros cfg Hl Hcfg; [exact Hcfg|].
    cbn [fold_left]. apply IH; [intros m' Hm'; apply Hl; now right|].
    destruct (Hl m (or_introl eq_refl)) as (prev & w & fol & M).
    apply kv_match_shape in M as (k0 & v0 & Hk & Hv & Hk1 & Hk2 & Hv1).
    unfold cap. rewrite Hk, Hv. unfold config_set.
    destruct (String.eqb k0 "__proto__") eqn:E; [exact Hcfg|].
    apply String.eqb_neq in E.
    intros k v. rewrite lookup_insert. case_decide as Hd.
    - intros [= <-]. subst k. repeat split; assumption.
    - apply Hcfg. }
  intros Hl. apply G; [exact Hl|]. intros k v. rewrite lookup_empty. discriminate.
Qed.

Lemma parseConfig_good content mat cfg :
  parseConfig content = Ok (mat, cfg) ->
  forall k v, cfg !! k = Some v -> good_entry k v.
Proof.
  unfold parseConfig. destruct (search re_config content) as [m|].
  - destruct (group 1 (groups m)) as [configStr|]; [|discriminate].
    cbn. intros [= _ <-]. apply config_of_good.
    intros m' Hm'. apply matchAll_sound in Hm' as (prev & w & fol & _ & M). eauto.
  - intros [= _ <-] k v. rewrite lookup_empty. discriminate.
Qed.



(** X13. For a parsed model the rule on unique_key depends on the key being
    there: the detector reports Incremental without unique_key exactly when
    the text contains is_incremental() (in any case) and the configuration of
    the model has no entry unique_key. *)
Theorem unique_key_rule_on_parsed_models (content fileName warehouse : string) :
  exists m, parseModel content fileName = Ok m /\
    ((exists i, In i (detectAntiPatternsFromContent content m warehouse) /\
                pattern i = "Incremental without unique_key") <->
     includes "is_incremental()" (toLowerCase content) = true /\
     config m !! "unique_key" = None).
Proof.
  destruct (parseModel_ok content fileName) as (mat & cfg & cols & Hc & _ & Hm).
  eexists. split; [exact Hm|].
  match goal with |- context [detectAntiPatternsFromContent _ ?m _] => set (m0 := m) end.
  assert (Ht : negb (truthy (config m0 !! "unique_key")) = true <->
               config m0 !! "unique_key" = None).
  { cbn [config m0]. destruct (cfg !! "unique_key") as [v|] eqn:E.
    - destruct (parseConfig_good _ _ _ Hc _ _ E) as (_ & _ & _ & Hv).
      destruct v; [congruence|]. split; discriminate.
    - split; reflexivity. }
  split.
  - intros (i & Hi & Hp). rule_inv Hi Hp.
    apply andb_true_iff in Hb as [H1 H2]. split; [exact H1 | now apply Ht].
  - intros [H1 H2]. apply Ht in H2. exists issue_no_unique_key.
    split; [|reflexivity]. rewrite detect_rule_table. unfold rule_table. cbv zeta.
    rewrite H1, H2. rewrite !in_app_iff. do 3 right. left. left. reflexivity.
Qed.

(** ** The names [parseModel] extracts *)

Lemma alias_match_shape prev w fol c :
  matches re_alias prev w fol c ->
  exists n, group 1 c = Some n /\ n <> "" /\ all_in is_word n = true.
Proof.
  unfold re_alias. cbn [seq]. cbn [matches plus star].
  intros (? & ? & c1 & ? & -> & -> & _ &
          n & ? & ? & ? & -> & -> & (c3' & -> & Hn & Hn1 & ->) &
          ? & ? & ? & ? & -> & -> & (_ & _ & ->) & (_ & -> & _)).
  exists n. cbn. auto using word_nonempty.
Qed.

Lemma materialized_match_shape prev w fol c :
  matches re_materialized prev w fol c ->
  exists n, group 1 c = Some n /\ n <> "" /\ all_in is_word n = true.
Proof.
  unfold re_materialized. cbn [seq]. cbn [matches plus star].
  intros (? & ? & ? & ? & -> & -> & M1 &
          ? & ? & ? & ? & -> & -> & (_ & _ & ->) &
          ? & ? & ? & ? & -> & -> & M3 &
          ? & ? & ? & ? & -> & -> & (_ & _ & ->) &
          ? & ? & ? & ? & -> & -> & (q1 & _ & -> & ->) &
          n & ? & ? & ? & -> & -> & (c3' & -> & Hn & Hn1 & ->) &
          (q2 & _ & -> & ->)).
  apply matches_lit in M1 as [-> ->], M3 as [-> ->].
  exists n. cbn. auto using word_nonempty.
Qed.

Lemma columns_of_words columnPatterns :
  Forall (fun n => n <> "" /\ all_in is_word n = true) (columns_of columnPatterns).
Proof.
  unfold columns_of.
  assert (G : forall l acc,
            Forall (fun n => n <> "" /\ all_in is_word n = true) acc ->
            Forall (fun n => n <> "" /\ all_in is_word n = true)
              (fold_left (fun columns pat =>
                            match search re_alias (trim pat) with
                            | Some aliasMatch => (columns ++ [cap 1 aliasMatch])%list
                            | None => columns
                            end) l acc)).
  { induction l as [|pat l IH]; intros acc Hacc; [exact Hacc|].
    cbn [fold_left]. apply IH.
    destruct (search re_alias (trim pat)) as [m|] eqn:E; [|exact Hacc].
    apply search_from_sound in E as (pre & w & fol & prev' & _ & _ & M).
    apply alias_match_shape in M as (n & Hg & Hn).
    unfold cap. rewrite Hg. apply Forall_app. split; [exact Hacc|].
    constructor; [exact Hn | constructor]. }
  apply G. constructor.
Qed.

(** X14. The column names and the materialization of a parsed model are
    words: not empty, and made of letters, digits and underscores only.  In
    particular the wildcard is never a column. *)
Theorem parsed_names_are_words (content fileName : string) :
  exists m, parseModel content fileName = Ok m /\
    (forall n, In n (columns m) -> n <> "" /\ all_in is_word n = true /\ n <> "*") /\
    (forall v, materialization m = Some v -> v <> "" /\ all_in is_word v = true).
Proof.
  destruct (parseModel_ok content fileName) as (mat & cfg & cols & Hc & Hs & Hm).
  eexists. split; [exact Hm|]. cbn [columns materialization]. split.
  - assert (Hw : Forall (fun n => n <> "" /\ all_in is_word n = true) cols).
    { unfold parseColumns in Hs. destruct (search re_select content) as [sm|].
      - destruct (group 1 (groups sm)); [|discriminate].
        cbn [mbind result_bind bind need] in Hs.
        destruct (negb _); injection Hs as <-; [apply columns_of_words | constructor].
      - injection Hs as <-. constructor. }
    intros n Hn. rewrite Forall_forall in Hw.
    destruct (Hw n) as [H1 H2]; [now apply list_elem_of_In|].
    repeat split; try assumption. intros ->. discriminate H2.
  - unfold parseConfig in Hc. destruct (search re_config content) as [cm|].
    + destruct (group 1 (groups cm)) as [configStr|]; [|discriminate].
      cbn [mbind result_bind bind need] in Hc.
      destruct (search re_materialized configStr) as [mm|] eqn:E.
      * injection Hc as <- _. intros v [= <-].
        apply search_from_sound in E as (pre & w & fol & prev' & _ & _ & M).
        apply materialized_match_shape in M as (n & Hg & Hn).
        unfold cap. now rewrite Hg.
      * injection Hc as <- _. discriminate.
    + injection Hc as <- _. discriminate.
Qed.

Lemma parsed_names_are_words_witness :
  "incremental" <> "" /\ all_in is_word "incremental" = true.
Proof.
  destruct (parsed_names_are_words fct_orders_text "fct_orders.sql") as (m & Hm & _ & Hv).
  apply Hv. rewrite fct_orders_parse in Hm. injection Hm as <-. reflexivity.
Defined.

(** ** Scanning a text for template expressions *)

Section Scan.
Variables (A : Type) (r : regex) (val : rmatch -> A) (shape : string -> A -> Prop).

Let here (s : string) (a : A) (rest : string) : Prop :=
  exists e, shape e a /\ s = e +:+ rest.

Hypothesis shape_sound :
  forall prev w fol m,
    whole m = w -> matches r prev w fol (groups m) -> shape w (val m).
Hypothesis shape_complete :
  forall prev w fol a, shape w a -> exists c, matches r prev w fol c.
Hypothesis shape_nonempty : forall a, ~ shape "" a.

Lemma matchAll_from_expr_scan k :
  forall s prev, (String.length s <= k)%nat ->
    expr_scan here s (map val (matchAll_from r 0 prev s)).
Proof using shape_sound shape_complete shape_nonempty.
  assert (Hnone : forall prev s, exec r prev s = None -> forall a rest, ~ here s a rest).
  { intros prev s E a rest (e & He & ->).
    destruct (shape_complete prev e rest a He) as [c M].
    destruct (exec_complete r prev e rest c M) as [x Hx]. congruence. }
  induction k as [|k IH]; intros s prev Hk.
  - destruct s; [|simpl in Hk; lia]. cbn [matchAll_from].
    destruct (exec r prev "") as [[l m]|] eqn:E; [|constructor].
    apply exec_sound in E as (w & fol & E & _ & Hw & M).
    destruct w; [|discriminate]. now apply shape_sound, shape_nonempty in M.
  - destruct s as [|c s]; [apply (IH "" prev); simpl; lia|].
    cbn [matchAll_from].
    destruct (exec r prev (String c s)) as [[l m]|] eqn:E.
    + apply exec_sound in E as (w & fol & E & -> & Hw & M).
      apply shape_sound in M; [|exact Hw].
      destruct w as [|c' w]; [now apply shape_nonempty in M|].
      injection E as <- ->. cbn [String.length Nat.pred map].
      rewrite matchAll_from_skip.
      apply escan_hit with (rest := fol).
      * exists (String c w). auto.
      * apply IH. simpl in Hk. rewrite str_length_app in Hk. lia.
    + apply escan_skip; [now apply (Hnone prev)|].
      apply IH. simpl in Hk. lia.
Qed.

Lemma matchAll_expr_scan s : expr_scan here s (map val (matchAll r s)).
Proof using shape_sound shape_complete shape_nonempty.
  unfold matchAll. now apply (matchAll_from_expr_scan (String.length s)).
Qed.

Hypothesis here_unique :
  forall s a rest a' rest', here s a rest -> here s a' rest' -> a = a' /\ rest = rest'.

Lemma expr_scan_unique s l :
  expr_scan here s l -> forall l', expr_scan here s l' -> l = l'.
Proof using shape_nonempty here_unique.
  assert (Hne : forall a rest, ~ here "" a rest).
  { intros a rest (e & He & E). destruct e; [now apply shape_nonempty in He | discriminate]. }
  induction 1 as [|s a rest l Hat Hs IH|c s l Hno Hs IH]; intros l' H'.
  - inversion H' as [|s0 a rest l0 Hat|]; subst; [reflexivity|].
    now apply Hne in Hat.
  - inversion H' as [|s0 a' rest' l0 Hat' Hs'|c s0 l0 Hno' Hs']; subst.
    + now apply Hne in Hat.
    + destruct (here_unique _ _ _ _ _ Hat Hat') as [-> ->].
      f_equal. now apply IH.
    + now apply Hno' in Hat.
  - inversion H' as [|s0 a' rest' l0 Hat' Hs'|c0 s0 l0 Hno' Hs']; subst.
    + now apply Hno in Hat'.
    + now apply IH.
Qed.
End Scan.

(** ** The source expressions of a text *)

Lemma matches_source_iff prev e fol c :
  matches re_source prev e fol c <->
  exists src, is_source_expr e src /\ c = [(2%nat, table src); (1%nat, schema src)].
Proof.
  unfold re_source. cbn [seq]. split.
  - cbn [matches star plus].
    intros (w1 & ? & c1 & ? & -> & -> & M1 &
            w2 & ? & c2 & ? & -> & -> & (Hw2 & _ & ->) &
            w3 & ? & c3 & ? & -> & -> & M3 &
            w4 & ? & c4 & ? & -> & -> & (q1 & Hq1 & -> & ->) &
            w5 & ? & c5 & ? & -> & -> & (c5' & -> & Hw5 & Hn5 & ->) &
            w6 & ? & c6 & ? & -> & -> & (q2 & Hq2 & -> & ->) &
            w7 & ? & c7 & ? & -> & -> & M7 &
            w8 & ? & c8 & ? & -> & -> & (Hw8 & _ & ->) &
            w9 & ? & c9 & ? & -> & -> & (q3 & Hq3 & -> & ->) &
            w10 & ? & c10 & ? & -> & -> & (c10' & -> & Hw10 & Hn10 & ->) &
            w11 & ? & c11 & ? & -> & -> & (q4 & Hq4 & -> & ->) &
            w12 & ? & c12 & ? & -> & -> & M12 &
            w13 & w14 & c13 & c14 & -> & -> & (Hw13 & _ & ->) & M14).
    apply matches_lit in M1 as [-> ->], M3 as [-> ->], M7 as [-> ->],
                         M12 as [-> ->], M14 as [-> ->].
    exists {| schema := w5; table := w10 |}. split; [|reflexivity].
    exists w2, q1, q2, w8, q3, q4, w13. cbn [schema table].
    rewrite !nonempty_length. repeat split; assumption.
  - intros ([sch tab] & (ws1 & q1 & q2 & ws2 & q3 & q4 & ws3 &
              H1 & H2 & H3 & H4 & H5 & H6 & H7 & H8 & H9 & H10 & H11 & ->) & ->).
    cbn [schema table] in *.
    apply nonempty_length in H3, H8.
    apply (matches_Seq_intro _ _ _ "{{" _ _ [] [(2%nat, tab); (1%nat, sch)]);
      [now apply matches_lit|].
    apply (matches_Seq_intro _ _ _ ws1 _ _ [] [(2%nat, tab); (1%nat, sch)]);
      [cbn [matches star]; auto with arith|].
    apply (matches_Seq_intro _ _ _ "source(" _ _ [] [(2%nat, tab); (1%nat, sch)]);
      [now apply matches_lit|].
    apply (matches_Seq_intro _ _ _ (String q1 "") _ _ [] [(2%nat, tab); (1%nat, sch)]);
      [cbn [matches]; eauto|].
    apply (matches_Seq_intro _ _ _ sch _ _ [(1%nat, sch)] [(2%nat, tab)]);
      [cbn [matches plus]; eauto|].
    apply (matches_Seq_intro _ _ _ (String q2 "") _ _ [] [(2%nat, tab)]);
      [cbn [matches]; eauto|].
    apply (matches_Seq_intro _ _ _ "," _ _ [] [(2%nat, tab)]);
      [now apply matches_lit|].
    apply (matches_Seq_intro _ _ _ ws2 _ _ [] [(2%nat, tab)]);
      [cbn [matches star]; auto with arith|].
    apply (matches_Seq_intro _ _ _ (String q3 "") _ _ [] [(2%nat, tab)]);
      [cbn [matches]; eauto|].
    apply (matches_Seq_intro _ _ _ tab _ _ [(2%nat, tab)] []);
      [cbn [matches plus]; eauto|].
    apply (matches_Seq_intro _ _ _ (String q4 "") _ _ [] []);
      [cbn [matches]; eauto|].
    apply (matches_Seq_intro _ _ _ ")" _ _ [] []);
      [now apply matches_lit|].
    apply (matches_Seq_intro _ _ _ ws3 "}}" _ [] []);
      [cbn [matches star]; auto with arith | now apply matches_lit].
Qed.

Lemma quote_not_space q : is_quote q = true -> is_space q = false.
Proof.
  unfold is_quote, is_char. intros H. apply orb_true_iff in H as [H|H];
    apply Ascii.eqb_eq in H; subst q; reflexivity.
Qed.

(** Where a source expression begins, its names and its end are determined. *)
Lemma source_at_unique s a rest a' rest' :
  source_at s a rest -> source_at s a' rest' -> a = a' /\ rest = rest'.
Proof.
  destruct a as [sch tab], a' as [sch' tab'].
  intros (e & (ws1 & q1 & q2 & ws2 & q3 & q4 & ws3 &
               H1 & H2 & H3 & H4 & H5 & H6 & H7 & H8 & H9 & H10 & H11 & ->) & ->)
         (e' & (ws1' & q1' & q2' & ws2' & q3' & q4' & ws3' &
               H1' & H2' & H3' & H4' & H5' & H6' & H7' & H8' & H9' & H10' & H11' & ->) & E).
  cbn [schema table] in *. unfold source_expr in E.
  repeat (rewrite ?str_app_assoc in E; cbn [String.append] in E).
  injection E as E.
  apply (app_stops_unique is_space) in E as [-> E]; try assumption; try reflexivity.
  injection E as -> E.
  apply (app_stops_unique not_quote) in E as [-> E];
    try assumption; try (now apply quote_stops_name).
  injection E as -> E.
  apply (app_stops_unique is_space) in E as [-> E]; try assumption;
    try (unfold stops; apply negb_true_iff; now apply quote_not_space).
  injection E as -> E.
  apply (app_stops_unique not_quote) in E as [-> E];
    try assumption; try (now apply quote_stops_name).
  injection E as -> E.
  apply (app_stops_unique is_space) in E as [-> E]; try assumption; try reflexivity.
  injection E as ->. auto.
Qed.

(** X15. The sources of a parsed model are the source expressions of the
    text, read from left to right: a scan that takes at each position the
    source expression that begins there (two opening braces, white space,
    the word source, two quoted names that are not empty and hold no quote,
    with a comma and white space between them, white space and two closing
    braces), and else moves one code unit on, finds the schema and table of
    exactly the list [sources], in this order and with repetitions. *)
Theorem sources_in_order (content fileName : string) :
  exists model,
    parseModel content fileName = Ok model /\
    forall l, expr_scan source_at content l <-> l = sources model.
Proof.
  destruct (parseModel_ok content fileName) as (mat & cfg & cols & _ & _ & ->).
  eexists. split; [reflexivity|]. cbn [sources]. unfold parseSources.
  set (val := fun m => {| schema := cap 1 m; table := cap 2 m |}).
  assert (Hsound : forall prev w fol m,
             whole m = w -> matches re_source prev w fol (groups m) ->
             is_source_expr w (val m)).
  { intros prev w fol m _ M.
    apply matches_source_iff in M as ([sch tab] & He & Hc).
    unfold val, cap. rewrite Hc. exact He. }
  assert (Hcomplete : forall (prev : option ascii) w fol a,
             is_source_expr w a -> exists c, matches re_source prev w fol c).
  { intros prev w fol a He. eexists. apply matches_source_iff. eauto. }
  assert (Hne : forall a, ~ is_source_expr "" a).
  { intros a (ws1 & q1 & q2 & ws2 & q3 & q4 & ws3 & H).
    decompose [and] H. discriminate. }
  pose proof (matchAll_expr_scan Source re_source val is_source_expr
                Hsound Hcomplete Hne content) as Hscan.
  intros l. split.
  - intros Hl.
    exact (expr_scan_unique Source is_source_expr Hne source_at_unique _ _ Hl _ Hscan).
  - intros ->. exact Hscan.
Qed.

(** ** analyzeCommand *)

Section AnalyzeProperties.
Variable basename : string -> string -> string.

Lemma parsed_type_infer f :
  parsed_type basename f = Some (inferType (basename f.1 ".sql")).
Proof.
  unfold parsed_type.
  destruct (parseModel_ok f.2 (basename f.1 ".sql")) as (mat & cfg & cols & _ & _ & ->).
  reflexivity.
Qed.

Lemma count_type_cons t f files :
  count_type basename t (f :: files) =
  (if bool_decide (inferType (basename f.1 ".sql") = t) then 1 else 0)
  + count_type basename t files.
Proof.
  unfold count_type. cbn [List.filter]. rewrite parsed_type_infer.
  destruct (decide (inferType (basename f.1 ".sql") = t)) as [E|E].
  - rewrite !bool_decide_eq_true_2 by congruence. unfold len. cbn [List.length]. lia.
  - rewrite !bool_decide_eq_false_2 by congruence. lia.
Qed.

Ltac tally :=
  cbn [orb ms_total ms_staging ms_intermediate ms_mart ms_other];
  repeat case_bool_decide; try congruence; repeat split; lia.

(** The loop never throws, pushes no issue, and counts the files by the
    type of their model. *)
Lemma analyze_loop_counts warehouse files :
  forall st found,
    exists st',
      analyze_loop basename warehouse files (st, found) = Ok (st', found) /\
      ms_total st' = ms_total st /\
      ms_staging st' = ms_staging st + count_type basename staging files /\
      ms_intermediate st' = ms_intermediate st + count_type basename intermediate files /\
      ms_mart st' = ms_mart st + count_type basename fact files
                    + count_type basename dimension files /\
      ms_other st' = ms_other st + count_type basename snapshot files
                     + count_type basename unknown files.
Proof.
  induction files as [|[file content] files IH]; intros st found.
  - exists st. unfold count_type, len. cbn. repeat split; lia.
  - cbn [analyze_loop analyze_step].
    destruct (parseModel_ok content (basename file ".sql"))
      as (mat & cfg & cols & _ & _ & ->).
    cbn [mbind result_bind bind]. unfold detectAntiPatterns. cbn [map].
    rewrite app_nil_r.
    destruct (IH (categorize (basename file ".sql") st) found)
      as (st' & -> & H0 & H1 & H2 & H3 & H4).
    exists st'. split; [reflexivity|].
    rewrite !count_type_cons. cbn [fst].
    rewrite H0, H1, H2, H3, H4. clear.
    unfold categorize, inferType.
    destruct (startsWith "stg_" (basename file ".sql")); [tally|].
    destruct (startsWith "int_" (basename file ".sql")); [tally|].
    destruct (startsWith "fct_" (basename file ".sql")); [tally|].
    destruct (startsWith "dim_" (basename file ".sql")); [tally|].
    destruct (includes "snapshot" (basename file ".sql")); tally.
Qed.

Lemma count_type_total files :
  count_type basename staging files + count_type basename intermediate files
  + count_type basename fact files + count_type basename dimension files
  + count_type basename snapshot files + count_type basename unknown files
  = len files.
Proof.
  induction files as [|f files IH]; [reflexivity|].
  rewrite !count_type_cons.
  replace (len (f :: files)) with (1 + len files)
    by (unfold len; cbn [List.length]; lia).
  destruct (inferType (basename f.1 ".sql")); tally.
Qed.

Lemma len_zero {A} (l : list A) : (len l =? 0) = true <-> l = [].
Proof.
  unfold len. destruct l; cbn [List.length]; split; intros H;
    try reflexivity; try discriminate H.
Qed.

(** X16. The analyze command reports no issue, whatever the files hold:
    parsing never throws and the detector it calls returns the empty list,
    so that all four counts of the summary are 0 and the command never ends
    with status 1 for critical issues.  With no file it returns at once;
    with files it returns after the JSON summary when that is asked for,
    and else exits with status 0. *)
Theorem analyze_reports_no_issue (warehouse : string) (json : bool)
    (files : list (string * string)) :
  match analyzeCommand basename warehouse json files with
  | (out, Some summary) =>
      files <> [] /\
      out = (if json then Returns else Exits 0) /\
      all_issues summary = [] /\
      n_critical summary = 0 /\ n_high summary = 0 /\
      n_medium summary = 0 /\ n_low summary = 0
  | (out, None) => files = [] /\ out = Returns
  end.
Proof.
  unfold analyzeCommand.
  destruct (len files =? 0) eqn:E.
  - apply len_zero in E. auto.
  - assert (files <> []) as Hne.
    { intros ->. discriminate E. }
    destruct (analyze_loop_counts warehouse files
                {| ms_total := len files; ms_staging := 0; ms_intermediate := 0;
                   ms_mart := 0; ms_other := 0 |} [])
      as (st' & -> & _).
    cbn [with_severity List.filter]. change (0 <? len []) with false. cbv iota.
    destruct json; cbn [all_issues n_critical n_high n_medium n_low]; auto 10.
Qed.

(** X17. The categories the analyze command counts agree with the types of
    the parsed models: for a project with files, the total is the number of
    files, the staging and intermediate counters are the numbers of models
    of these types, the mart counter is the number of fact and dimension
    models, the last counter the number of snapshot and unknown models, and
    the four counters add up to the total. *)
Theorem analyze_counts_model_types (warehouse : string) (json : bool)
    (files : list (string * string)) :
  files <> [] ->
  exists summary,
    snd (analyzeCommand basename warehouse json files) = Some summary /\
    totalModels summary = len files /\
    ms_total (modelTypes summary) = len files /\
    ms_staging (modelTypes summary) = count_type basename staging files /\
    ms_intermediate (modelTypes summary) = count_type basename intermediate files /\
    ms_mart (modelTypes summary) =
      count_type basename fact files + count_type basename dimension files /\
    ms_other (modelTypes summary) =
      count_type basename snapshot files + count_type basename unknown files /\
    ms_staging (modelTypes summary) + ms_intermediate (modelTypes summary)
    + ms_mart (modelTypes summary) + ms_other (modelTypes summary)
    = ms_total (modelTypes summary).
Proof.
  intros Hne. unfold analyzeCommand.
  destruct (len files =? 0) eqn:E; [now apply len_zero in E|].
  destruct (analyze_loop_counts warehouse files
              {| ms_total := len files; ms_staging := 0; ms_intermediate := 0;
                 ms_mart := 0; ms_other := 0 |} [])
    as (st' & -> & H0 & H1 & H2 & H3 & H4).
  cbn [ms_total ms_staging ms_intermediate ms_mart ms_other] in H0, H1, H2, H3, H4.
  pose proof (count_type_total files) as Ht.
  cbn [with_severity List.filter]. change (0 <? len []) with false. cbv iota.
  destruct json; cbn [snd]; eexists; (split; [reflexivity|]);
    cbn [totalModels modelTypes]; repeat split; lia.
Qed.
End AnalyzeProperties.

Lemma analyze_counts_model_types_witness :
  exists summary,
    snd (analyzeCommand (fun file _ => file) "snowflake" false
           [("stg_orders", "select 1"); ("orders", "select 2")]) = Some summary /\
    totalModels summary = 2.
Proof.
  destruct (analyze_counts_model_types (fun file _ => file) "snowflake" false
              [("stg_orders", "select 1"); ("orders", "select 2")])
    as (summary & Hs & Ht & _); [discriminate|].
  exists summary. split; [exact Hs | exact Ht].
Defined.

(** ** reviewCommand *)

(** The loop never throws and makes one review for each file, in order. *)
Lemma review_files_spec warehouse strict fileData :
  forall acc,
    exists reviews,
      review_files warehouse strict fileData acc = Ok (acc ++ reviews)%list /\
      Forall2 (fun f r => file_review warehouse strict f = Some r) fileData reviews.
Proof.
  induction fileData as [|[path content] fileData IH]; intros acc.
  - exists []. rewrite app_nil_r. split; [reflexivity | constructor].
  - cbn [review_files review_file].
    destruct (parseModel_ok content path) as (mat & cfg & cols & _ & _ & Hp).
    rewrite Hp. cbn [mbind result_bind bind].
    match goal with
    | |- context [(acc ++ [?r])%list] =>
        destruct (IH (acc ++ [r])%list) as (reviews & -> & Hall);
        exists (r :: reviews)
    end.
    rewrite <- app_assoc. split; [reflexivity|].
    constructor; [|exact Hall].
    unfold file_review. cbn [fst snd]. rewrite Hp. reflexivity.
Qed.

Lemma file_review_blocks warehouse strict f r :
  file_review warehouse strict f = Some r ->
  bool_decide (overall (fr_review r) = request_changes) = blocks warehouse strict f.
Proof.
  unfold file_review, blocks. destruct (parseModel f.2 f.1) as [model|]; [|discriminate].
  intros [= <-]. cbn [fr_review]. rewrite reviewCode_overall. cbv zeta.
  destruct (has_severity critical _); [reflexivity|].
  destruct (has_severity high _), strict; try reflexivity;
    destruct (0 <? len _); reflexivity.
Qed.

Lemma blockers_of_reviews warehouse strict fileData reviews :
  Forall2 (fun f r => file_review warehouse strict f = Some r) fileData reviews ->
  existsb (fun r => bool_decide (overall (fr_review r) = request_changes)) reviews =
  existsb (blocks warehouse strict) fileData.
Proof.
  induction 1 as [|f r fileData reviews Hfr _ IH]; [reflexivity|].
  cbn [existsb]. now rewrite IH, (file_review_blocks _ _ _ _ Hfr).
Qed.

Lemma file_review_file warehouse strict f r :
  file_review warehouse strict f = Some r -> fr_file r = f.1.
Proof.
  unfold file_review. destruct (parseModel f.2 f.1); [|discriminate].
  now intros [= <-].
Qed.

(** X18. How the local review ends.  It makes one review for each file, in
    the order of the files, and it exits with status 1 exactly when it runs
    in strict mode, prints no JSON, and some file has a critical or a high
    issue among those the detector finds; in every other case, also with
    critical issues outside strict mode, it returns normally. *)
Theorem review_exit_status (warehouse : option string) (strict json : bool)
    (fileData : list (string * string)) :
  let run := reviewCommand warehouse strict json fileData in
  outcome_of run =
    (if strict && negb json && existsb (blocks warehouse strict) fileData
     then Exits 1 else Returns) /\
  map fr_file (reviews_of run) = map fst fileData.
Proof.
  cbv zeta. unfold reviewCommand, outcome_of, reviews_of.
  destruct (review_files_spec warehouse strict fileData []) as (reviews & -> & Hall).
  cbn [app]. rewrite (blockers_of_reviews _ _ _ _ Hall).
  assert (map fr_file reviews = map fst fileData) as Hfiles.
  { clear -Hall. induction Hall as [|f r l l' H _ IH]; [reflexivity|].
    cbn [map]. now rewrite IH, (file_review_file _ _ _ _ H). }
  destruct json; [rewrite andb_false_r; split; [reflexivity | exact Hfiles]|].
  rewrite andb_true_r.
  destruct (existsb (blocks warehouse strict) fileData).
  - rewrite andb_true_r. destruct strict; split; try reflexivity; exact Hfiles.
  - rewrite andb_false_r. destruct (0 <? _); split; try reflexivity; exact Hfiles.
Qed.

Lemma total_issues_fold reviews :
  forall n,
    fold_left (fun acc r => acc + len (issues (fr_review r))) reviews n =
    n + fold_right (fun r acc => len (issues (fr_review r)) + acc) 0 reviews.
Proof.
  induction reviews as [|r reviews IH]; intros n; cbn [fold_left fold_right]; [lia|].
  rewrite IH. lia.
Qed.

Lemma len_nonneg {A} (l : list A) : 0 <= len l.
Proof. unfold len. lia. Qed.

Lemma total_issues_zero reviews :
  fold_right (fun r acc => len (issues (fr_review r)) + acc) 0 reviews = 0 <->
  Forall (fun r => issues (fr_review r) = []) reviews.
Proof.
  assert (Hpos : forall l,
             0 <= fold_right (fun (r : FileReview) acc => len (issues (fr_review r)) + acc) 0 l).
  { induction l as [|r l IH]; cbn [fold_right]; [lia|].
    pose proof (len_nonneg (issues (fr_review r))). lia. }
  induction reviews as [|r reviews IH]; cbn [fold_right].
  - split; [constructor | reflexivity].
  - pose proof (len_nonneg (issues (fr_review r))) as Hl.
    pose proof (Hpos reviews) as Hr.
    split.
    + intros Hsum. constructor.
      * destruct (issues (fr_review r)); [reflexivity|].
        unfold len in *. cbn [List.length] in *. lia.
      * apply IH. lia.
    + intros Hall. inversion Hall as [|? ? Hnil Hrest]; subst.
      rewrite Hnil. apply IH in Hrest. rewrite Hrest. reflexivity.
Qed.

Lemma file_review_approve warehouse strict f r :
  file_review warehouse strict f = Some r ->
  (issues (fr_review r) = [] <-> overall (fr_review r) = approve) /\
  (issues (fr_review r) = [] <-> score (fr_review r) = 100).
Proof.
  unfold file_review. destruct (parseModel f.2 f.1) as [model|]; [|discriminate].
  intros [= <-]. cbn [fr_review].
  set (w := cap_or warehouse (Some "snowflake")).
  pose proof (reviewCode_overall model f.2 w strict) as Ho. cbv zeta in Ho.
  pose proof (reviewCode_no_issues model f.2 w strict) as Hn.
  pose proof (reviewCode_score model f.2 w strict) as Hs.
  pose proof (total_penalty_nonneg (detectAntiPatternsFromContent f.2 model w)) as Hp.
  pose proof (total_penalty_zero (detectAntiPatternsFromContent f.2 model w)) as Hz.
  split; split.
  - intros E. rewrite Ho, E. apply Hn in E as (-> & _). reflexivity.
  - intros E. rewrite Ho in E.
    destruct (has_severity critical _); [discriminate|].
    destruct (has_severity high _); [destruct strict; discriminate|].
    destruct (issues _) as [|x l]; [reflexivity|].
    assert ((0 <? len (x :: l)) = true) as E0.
    { apply Z.ltb_lt. unfold len. cbn [List.length]. lia. }
    rewrite E0 in E. discriminate E.
  - intros E. apply Hn in E as (E1 & E2 & E3). rewrite Hs, E1, E2, E3. reflexivity.
  - intros E. apply Hn. rewrite Hs in E. unfold clamp in E.
    pose proof (points_nonneg (strict && lacks_description f.2)).
    pose proof (points_nonneg (strict && breaks_naming model)).
    assert (total_penalty (detectAntiPatternsFromContent f.2 model w) = 0
            /\ points (strict && lacks_description f.2) = 0
            /\ points (strict && breaks_naming model) = 0) as (E1 & E2 & E3) by lia.
    apply Hz in E1. split; [exact E1|].
    split; [destruct (strict && lacks_description f.2) | destruct (strict && breaks_naming model)];
      (reflexivity || discriminate).
Qed.

(** X19. The summary of the local review.  Without the JSON option the
    command prints a summary; its last line says that the review passed
    exactly when the total number of issues is 0, which is exactly when
    every file is approved, and exactly when every file has the score 100;
    it says that blocking issues were found exactly when some file has a
    critical issue, or in strict mode a high one.  With the JSON option no
    summary is made. *)
Theorem review_summary_message (warehouse : option string) (strict json : bool)
    (fileData : list (string * string)) :
  let run := reviewCommand warehouse strict json fileData in
  match summary_of run with
  | Some summary =>
      json = false /\
      (message summary = passed <-> totalIssues summary = 0) /\
      (message summary = passed <->
       Forall (fun r => overall (fr_review r) = approve) (reviews_of run)) /\
      (message summary = passed <->
       Forall (fun r => score (fr_review r) = 100) (reviews_of run)) /\
      (message summary = found_blocking <->
       existsb (blocks warehouse strict) fileData = true)
  | None => json = true
  end.
Proof.
  cbv zeta. unfold reviewCommand, summary_of, reviews_of.
  destruct (review_files_spec warehouse strict fileData []) as (reviews & -> & Hall).
  cbn [app]. rewrite (blockers_of_reviews _ _ _ _ Hall).
  destruct json; [reflexivity|].
  rewrite total_issues_fold, Z.add_0_l.
  pose proof (total_issues_zero reviews) as Hz.
  assert (Hq : Forall (fun r => (issues (fr_review r) = [] <-> overall (fr_review r) = approve)
                                /\ (issues (fr_review r) = [] <-> score (fr_review r) = 100))
                      reviews).
  { clear -Hall. induction Hall as [|f r l l' H _ IH]; constructor; [|exact IH].
    exact (file_review_approve _ _ _ _ H). }
  assert (Ha : Forall (fun r => issues (fr_review r) = []) reviews <->
               Forall (fun r => overall (fr_review r) = approve) reviews).
  { clear -Hq. induction Hq as [|r l [H _] _ IH].
    - split; constructor.
    - split; intros H'; inversion H'; subst; constructor; tauto. }
  assert (Hs : Forall (fun r => issues (fr_review r) = []) reviews <->
               Forall (fun r => score (fr_review r) = 100) reviews).
  { clear -Hq. induction Hq as [|r l [_ H] _ IH].
    - split; constructor.
    - split; intros H'; inversion H'; subst; constructor; tauto. }
  assert (Hb : existsb (blocks warehouse strict) fileData = true ->
               ~ Forall (fun r => issues (fr_review r) = []) reviews).
  { intros Hex Hnil. apply Ha in Hnil.
    rewrite <- (blockers_of_reviews _ _ _ _ Hall) in Hex.
    apply existsb_exists in Hex as (r & Hr & Hv).
    apply bool_decide_eq_true in Hv.
    rewrite List.Forall_forall in Hnil. specialize (Hnil r Hr). congruence. }
  set (total := fold_right _ 0 reviews) in *.
  assert (0 <= total) as Hpos.
  { subst total. clear. induction reviews as [|r l IH]; cbn [fold_right]; [lia|].
    pose proof (len_nonneg (issues (fr_review r))). lia. }
  destruct (existsb (blocks warehouse strict) fileData) eqn:Ex.
  - cbn [summary_of snd message totalIssues]. specialize (Hb eq_refl).
    split; [reflexivity|].
    split; [split; [discriminate | tauto]|].
    split; [split; [discriminate | tauto]|].
    split; [split; [discriminate | tauto]|].
    split; reflexivity.
  - destruct (0 <? total) eqn:E0; cbn [snd message totalIssues].
    + apply Z.ltb_lt in E0.
      split; [reflexivity|].
      split; [split; [discriminate | lia]|].
      split; [split; [discriminate | intros H; apply Ha, Hz in H; lia]|].
      split; [split; [discriminate | intros H; apply Hs, Hz in H; lia]|].
      split; discriminate.
    + apply Z.ltb_ge in E0. assert (total = 0) as E by lia.
      split; [reflexivity|].
      split; [tauto|].
      split; [split; [intros _; apply Ha, Hz, E | reflexivity]|].
      split; [split; [intros _; apply Hs, Hz, E | reflexivity]|].
      split; discriminate.
Qed.

(** X20. The local review names a model by the path of its file, not by
    its base name.  Hence a review holds one of the two staging issues only
    for a file whose path itself begins with stg_: a staging model that
    lies in a directory is never reviewed as one. *)
Theorem review_staging_needs_stg_path (warehouse : option string) (strict json : bool)
    (fileData : list (string * string)) (r : FileReview) (i : ReviewIssue) :
  In r (reviews_of (reviewCommand warehouse strict json fileData)) ->
  In i (issues (fr_review r)) ->
  title i = "ref() in staging model" \/ title i = "Join in staging model" ->
  startsWith "stg_" (fr_file r) = true.
Proof.
  unfold reviewCommand, reviews_of.
  destruct (review_files_spec warehouse strict fileData []) as (reviews & -> & Hall).
  cbn [app]. intros Hr Hi Ht.
  assert (In r reviews) as Hr'.
  { destruct json; [exact Hr|].
    destruct (existsb _ reviews); [exact Hr|].
    destruct (0 <? _); exact Hr. }
  clear Hr.
  assert (exists f, file_review warehouse strict f = Some r) as [f Hf].
  { clear -Hall Hr'. induction Hall as [|f r' l l' H _ IH]; [destruct Hr'|].
    destruct Hr' as [->|Hr']; eauto. }
  unfold file_review in Hf.
  destruct (parseModel_ok f.2 f.1) as (mat & cfg & cols & _ & _ & Hp).
  rewrite Hp in Hf. injection Hf as <-. cbn [fr_file fr_review] in *.
  rewrite reviewCode_issues in Hi. rewrite !in_app_iff in Hi.
  destruct Hi as [Hi|[Hi|Hi]].
  - apply in_map_iff in Hi as (ap & <- & Hap). cbn [title review_of] in Ht.
    assert (inferType f.1 = staging) as Hty.
    { destruct Ht as [Ht|Ht]; rule_inv Hap Ht;
        apply andb_true_iff in Hb as [Hb _];
        apply bool_decide_eq_true in Hb; exact Hb. }
    unfold inferType in Hty.
    destruct (startsWith "stg_" f.1); [reflexivity|].
    destruct (startsWith "int_" f.1); [discriminate|].
    destruct (startsWith "fct_" f.1); [discriminate|].
    destruct (startsWith "dim_" f.1); [discriminate|].
    destruct (includes "snapshot" f.1); discriminate.
  - apply in_fired_true in Hi as [_ ->]. destruct Ht; discriminate.
  - apply in_fired_true in Hi as [_ ->]. destruct Ht; discriminate.
Qed.

Lemma review_staging_needs_stg_path_witness :
  let fileData := [("stg_orders.sql", "select id from {{ ref('raw_orders') }}")] in
  let r := nth 0 (reviews_of (reviewCommand None false false fileData))
               {| fr_file := ""; fr_review := reviewCode fct_orders_model "" "" false |} in
  startsWith "stg_" (fr_file r) = true.
Proof.
  cbv zeta.
  refine (review_staging_needs_stg_path None false false
            [("stg_orders.sql", "select id from {{ ref('raw_orders') }}")] _
            (nth 0 (issues (fr_review
                      (nth 0 (reviews_of (reviewCommand None false false
                                [("stg_orders.sql", "select id from {{ ref('raw_orders') }}")]))
                             {| fr_file := ""; fr_review := reviewCode fct_orders_model "" "" false |})))
                   issue_missing_description) _ _ _).
  - vm_compute. left. reflexivity.
  - vm_compute. left. reflexivity.
  - vm_compute. left. reflexivity.
Defined.

(** ** The columns of the schema file *)

Lemma extract_step_name model columns pat :
  map c_name (extract_step model columns pat) =
  match search re_alias (trim pat) with
  | Some aliasMatch => (map c_name columns ++ [cap 1 aliasMatch])%list
  | None => map c_name columns
  end.
Proof.
  unfold extract_step.
  destruct (String.eqb (trim pat) "") eqn:E1.
  { apply String.eqb_eq in E1. rewrite E1. reflexivity. }
  destruct (String.eqb (trim pat) "*") eqn:E2.
  { apply String.eqb_eq in E2. rewrite E2. reflexivity. }
  cbn [orb]. destruct (search re_alias (trim pat)) as [m|]; [|reflexivity].
  destruct (describe model (cap 1 m)) as [d pk]. rewrite map_app. reflexivity.
Qed.

(** The loop of [extractColumns] finds the names the loop of [parseModel]
    finds: the two tests that pass over a fragment are no tests of the
    pattern for the name. *)
Lemma extract_names model l :
  forall acc,
    map c_name (fold_left (extract_step model) l acc) =
    fold_left (fun columns pat =>
                 match search re_alias (trim pat) with
                 | Some aliasMatch => (columns ++ [cap 1 aliasMatch])%list
                 | None => columns
                 end) l (map c_name acc).
Proof.
  induction l as [|pat l IH]; intros acc; [reflexivity|].
  cbn [fold_left]. rewrite IH, extract_step_name.
  destruct (search re_alias (trim pat)); reflexivity.
Qed.

(** X21. The docs command documents the columns the analyzer parsed: for
    every text, extractColumns does not throw, and the names of the columns
    it returns for the parsed model are, in order, the columns of the model,
    unless the select clause holds a star somewhere, where the model has no
    column at all while extractColumns still lists the named ones.  Every
    name is a non-empty word. *)
Theorem documented_columns_are_parsed_columns (content fileName : string) :
  exists model cols,
    parseModel content fileName = Ok model /\
    extractColumns content model = Ok cols /\
    columns model = (if has_star content then [] else map c_name cols) /\
    Forall (fun c => c_name c <> "" /\ all_in is_word (c_name c) = true) cols.
Proof.
  destruct (parseModel_ok content fileName) as (mat & cfg & cols' & _ & Hcols & ->).
  eexists. unfold extractColumns, has_star. unfold parseColumns in Hcols.
  destruct (search re_select content) as [m|] eqn:E.
  - rewrite (cap_defined re_select content m 1) in * by (simpl; auto).
    cbn [mbind result_bind bind need] in *.
    eexists. split; [reflexivity|]. split; [reflexivity|]. cbn [columns].
    pose proof (extract_names
                  {| name := fileName; type := inferType fileName; materialization := mat;
                     config := cfg; refs := parseRefs content;
                     sources := parseSources content; columns := cols';
                     hasTests := false; cteCount := countCtes content;
                     lineCount := len (split_lines content) |}
                  (split_re re_comma (cap 1 m)) []) as Hn.
    cbn [map] in Hn. fold (columns_of (split_re re_comma (cap 1 m))) in Hn.
    split.
    + destruct (includes "*" (cap 1 m)); cbn [negb] in Hcols; injection Hcols as <-;
        [reflexivity | now rewrite Hn].
    + pose proof (columns_of_words (split_re re_comma (cap 1 m))) as Hw.
      rewrite <- Hn in Hw. now apply Forall_map in Hw.
  - exists []. injection Hcols as <-. repeat split; constructor.
Qed.

(** *** The generated descriptions *)

Lemma rev_app_app a : forall b c,
  String.rev_app (a +:+ b) c = String.rev_app b (String.rev_app a c).
Proof. induction a as [|x a IH]; intros b c; [reflexivity | apply IH]. Qed.

Lemma str_rev_app a b : String.rev (a +:+ b) = String.rev b +:+ String.rev a.
Proof.
  unfold String.rev. rewrite rev_app_app, (rev_app_spec b). reflexivity.
Qed.

Lemma endsWith_rev t p u :
  endsWith t (p +:+ u) = startsWith (String.rev t) (String.rev u +:+ String.rev p).
Proof. unfold endsWith. now rewrite str_rev_app. Qed.

Lemma slice_from_app a b : slice_from (String.length a) (a +:+ b) = b.
Proof. induction a as [|x a IH]; [now destruct b | exact IH]. Qed.

(** A pattern that ends with [$] and matches one of the words [ws], none
    of which ends with [suffix] after something else, matches a text that
    ends with [suffix] only at the suffix. *)
Lemma replace_suffix r ws suffix :
  (forall prev w fol c, matches r prev w fol c -> fol = "" /\ In w ws) ->
  (forall q w, In w ws -> q <> "" -> q +:+ suffix <> w) ->
  (forall prev, exists c, matches r prev suffix "" c) ->
  forall p prev, replace_from r "" prev (p +:+ suffix) = p.
Proof.
  intros Hm Hws Hs. induction p as [|x p IH]; intros prev.
  - cbn [String.append]. destruct suffix as [|y suffix].
    + cbn [replace_from].
      destruct (exec r prev "") as [[l m]|] eqn:E; [|reflexivity].
      apply exec_sound in E as (w & fol & E & -> & _).
      destruct w; [reflexivity | discriminate].
    + cbn [replace_from].
      destruct (Hs prev) as [c M]. apply exec_complete in M as [[l m] E].
      rewrite str_app_empty_r in E. rewrite E.
      apply exec_sound in E as (w & fol & E & -> & _ & M).
      apply Hm in M as [-> _]. rewrite str_app_empty_r in E. subst w.
      rewrite <- (str_app_empty_r (String y suffix)) at 2.
      now rewrite slice_from_app.
  - change (String x p +:+ suffix) with (String x (p +:+ suffix)).
    cbn [replace_from].
    destruct (exec r prev (String x (p +:+ suffix))) as [[l m]|] eqn:E.
    + apply exec_sound in E as (w & fol & E & _ & _ & M).
      apply Hm in M as [-> Hw]. rewrite str_app_empty_r in E.
      exfalso. apply (Hws (String x p) w Hw); [discriminate|].
      now rewrite <- E.
    + now rewrite IH.
Qed.

Lemma exec_underscore prev c s :
  exec re_underscore prev (String c s) =
  if Ascii.eqb c "_" then Some (1%nat, RMatch (String c "") []) else None.
Proof.
  unfold exec, re_underscore. cbn. unfold is_char.
  destruct (Ascii.eqb c "_"); reflexivity.
Qed.

Lemma spaced_spec s : spaced s = underscores_to_spaces s.
Proof.
  unfold spaced, replaceAll. generalize (@None ascii).
  induction s as [|c s IH]; intros prev; [reflexivity|].
  cbn [replaceAll_from underscores_to_spaces]. rewrite exec_underscore.
  destruct (Ascii.eqb c "_"); cbn [String.append]; now rewrite IH.
Qed.

Lemma split_char_go_nonempty sep s : forall cur, split_char_go sep cur s <> [].
Proof.
  induction s as [|c s IH]; intros cur; cbn [split_char_go]; [discriminate|].
  destruct (Ascii.eqb c sep); [discriminate | apply IH].
Qed.

(** The piece after the last underscore. *)
Lemma last_piece_app w :
  split_char "_" w = [w] ->
  forall p, last_piece (p +:+ String "_" w) = Some w.
Proof.
  intros Hw p. unfold last_piece, split_char. generalize EmptyString.
  induction p as [|x p IH]; intros cur.
  - cbn [String.append split_char_go]. rewrite Ascii.eqb_refl.
    unfold split_char in Hw. rewrite Hw. reflexivity.
  - change (String x p +:+ String "_" w) with (String x (p +:+ String "_" w)).
    cbn [split_char_go]. destruct (Ascii.eqb x "_"); [|apply IH].
    specialize (IH EmptyString).
    destruct (split_char_go "_" "" (p +:+ String "_" w)) eqn:E;
      [now apply split_char_go_nonempty in E | exact IH].
Qed.

Lemma matches_seq_eos r prev w fol c :
  matches (Seq r Eos) prev w fol c ->
  fol = "" /\ exists c', matches r prev w "" c'.
Proof.
  cbn [matches]. intros (w1 & w2 & c1 & c2 & -> & -> & M & -> & -> & ->).
  rewrite str_app_empty_r. cbn [String.append] in M. eauto.
Qed.

Lemma matches_id_end prev w fol c :
  matches re_id_end prev w fol c -> fol = "" /\ In w ["_id"].
Proof.
  intros M. apply matches_seq_eos in M as [-> [c' M]].
  apply matches_lit in M as [-> _]. cbn. auto.
Qed.

Lemma matches_name_end prev w fol c :
  matches re_name_end prev w fol c -> fol = "" /\ In w ["_name"].
Proof.
  intros M. apply matches_seq_eos in M as [-> [c' M]].
  apply matches_lit in M as [-> _]. cbn. auto.
Qed.

Lemma matches_time_end prev w fol c :
  matches re_time_end prev w fol c -> fol = "" /\ In w ["_at"; "_date"; "_timestamp"].
Proof.
  unfold re_time_end. cbn [seq matches].
  intros (w1 & ? & c1 & ? & -> & -> & M1 &
          w2 & ? & c2 & ? & -> & -> & (c2' & -> & M2) & -> & -> & ->).
  apply matches_lit in M1 as [-> _]. split; [reflexivity|].
  destruct M2 as [M|[M|M]]; apply matches_lit in M as [-> _]; cbn; auto.
Qed.

Lemma matches_amount_end prev w fol c :
  matches re_amount_end prev w fol c -> fol = "" /\ In w ["_amount"; "_total"; "_count"].
Proof.
  unfold re_amount_end. cbn [seq matches].
  intros (w1 & ? & c1 & ? & -> & -> & M1 &
          w2 & ? & c2 & ? & -> & -> & (c2' & -> & M2) & -> & -> & ->).
  apply matches_lit in M1 as [-> _]. split; [reflexivity|].
  destruct M2 as [M|[M|M]]; apply matches_lit in M as [-> _]; cbn; auto.
Qed.

(** No word of the list ends with [suffix] after something else. *)
Lemma no_longer_end_by_length ws suffix :
  forallb (fun w => negb (endsWith suffix w)
                    || (String.length w <=? String.length suffix)%nat) ws = true ->
  forall q w, In w ws -> q <> "" -> q +:+ suffix <> w.
Proof.
  intros H q w Hw Hq E. rewrite forallb_forall in H. specialize (H w Hw).
  subst w. apply orb_true_iff in H as [H|H].
  - apply negb_true_iff in H. unfold endsWith in H.
    rewrite str_rev_app in H.
    assert (startsWith (String.rev suffix) (String.rev suffix +:+ String.rev q) = true)
      by (apply startsWith_spec; eauto).
    congruence.
  - apply Nat.leb_le in H. rewrite str_length_app in H.
    destruct q; [congruence | simpl in H; lia].
Qed.

Lemma replace_id_end p : replace re_id_end "" (p +:+ "_id") = p.
Proof.
  apply (replace_suffix re_id_end ["_id"] "_id").
  - apply matches_id_end.
  - now apply no_longer_end_by_length.
  - intros prev. exists []. unfold re_id_end.
    apply (matches_Seq_intro _ _ _ "_id" "" "" [] []); [now apply matches_lit|].
    cbn. auto.
Qed.

Lemma replace_name_end p : replace re_name_end "" (p +:+ "_name") = p.
Proof.
  apply (replace_suffix re_name_end ["_name"] "_name").
  - apply matches_name_end.
  - now apply no_longer_end_by_length.
  - intros prev. exists []. unfold re_name_end.
    apply (matches_Seq_intro _ _ _ "_name" "" "" [] []); [now apply matches_lit|].
    cbn. auto.
Qed.

Lemma matches_word_end (alts : regex) g prev :
  (forall prev', matches alts prev' g "" []) ->
  matches (seq [lit "_"; Group 1 alts; Eos]) prev (String "_" g) "" [(1%nat, g)].
Proof.
  intros Hg. cbn [seq].
  apply (matches_Seq_intro _ _ _ "_" g "" [] [(1%nat, g)]); [now apply matches_lit|].
  cbn [matches]. exists g, "", [(1%nat, g)], [].
  rewrite str_app_empty_r. cbn [String.append app].
  split; [reflexivity|]. split; [reflexivity|]. split; [|auto].
  exists []. split; [reflexivity | apply Hg].
Qed.

Lemma replace_time_end p suffix :
  In suffix ["_at"; "_date"; "_timestamp"] ->
  replace re_time_end "" (p +:+ suffix) = p.
Proof.
  intros Hs.
  apply (replace_suffix re_time_end ["_at"; "_date"; "_timestamp"] suffix).
  - apply matches_time_end.
  - apply no_longer_end_by_length.
    destruct Hs as [<-|[<-|[<-|[]]]]; reflexivity.
  - intros prev. unfold re_time_end.
    destruct Hs as [<-|[<-|[<-|[]]]]; eexists; apply matches_word_end; intros prev';
      cbn [matches]; rewrite !matches_lit; auto.
Qed.

Lemma replace_amount_end p suffix :
  In suffix ["_amount"; "_total"; "_count"] ->
  replace re_amount_end "" (p +:+ suffix) = p.
Proof.
  intros Hs.
  apply (replace_suffix re_amount_end ["_amount"; "_total"; "_count"] suffix).
  - apply matches_amount_end.
  - apply no_longer_end_by_length.
    destruct Hs as [<-|[<-|[<-|[]]]]; reflexivity.
  - intros prev. unfold re_amount_end.
    destruct Hs as [<-|[<-|[<-|[]]]]; eexists; apply matches_word_end; intros prev';
      cbn [matches]; rewrite !matches_lit; auto.
Qed.

Lemma replace_flag q :
  replace_start re_flag "" ("is_" +:+ q) = q /\
  replace_start re_flag "" ("has_" +:+ q) = q.
Proof. split; reflexivity. Qed.

Ltac ends :=
  rewrite ?endsWith_rev;
  cbn [startsWith String.rev String.rev_app String.append Ascii.eqb Bool.eqb andb orb].

(** X22. What the generated descriptions say.  The description of a column
    depends on its name alone, and for each kind of name it is a fixed text
    around the rest of the name with a space for each underscore: a name
    that ends with _id, _at, _date or _timestamp is described by what stands
    before that ending; so is, when it does not begin with is_ or has_, a
    name that ends with _amount, _total, _count or _name; a name that
    begins with is_ or has_ and has none of the first four endings is
    described by what follows that beginning; and a name that ends with
    _type, _status or _category and is no flag gets one of three constant
    texts, whatever stands before the ending. *)
Theorem description_closed_forms (model : ParsedModel) (p : string) :
  fst (describe model (p +:+ "_id")) =
    "Unique identifier for " +:+ underscores_to_spaces p /\
  (forall suffix, In suffix ["_at"; "_date"; "_timestamp"] ->
     fst (describe model (p +:+ suffix)) =
       "Timestamp of when " +:+ underscores_to_spaces p +:+ " occurred") /\
  (forall pre, In pre ["is_"; "has_"] ->
     endsWith "_id" (pre +:+ p) = false ->
     endsWith "_at" (pre +:+ p) || endsWith "_date" (pre +:+ p)
     || endsWith "_timestamp" (pre +:+ p) = false ->
     fst (describe model (pre +:+ p)) =
       "Boolean flag indicating " +:+ underscores_to_spaces p) /\
  (forall suffix, In suffix ["_amount"; "_total"; "_count"] ->
     startsWith "is_" (p +:+ suffix) || startsWith "has_" (p +:+ suffix) = false ->
     fst (describe model (p +:+ suffix)) =
       "Numeric value for " +:+ underscores_to_spaces p) /\
  (startsWith "is_" (p +:+ "_name") || startsWith "has_" (p +:+ "_name") = false ->
   fst (describe model (p +:+ "_name")) = "Name of the " +:+ underscores_to_spaces p) /\
  (forall suffix text,
     In (suffix, text) [("_type", "Type classification");
                        ("_status", "Status classification");
                        ("_category", "Category classification")] ->
     startsWith "is_" (p +:+ suffix) || startsWith "has_" (p +:+ suffix) = false ->
     fst (describe model (p +:+ suffix)) = text).
Proof.
  split; [|split; [|split; [|split; [|split]]]].
  - unfold describe. ends. cbn [fst].
    now rewrite replace_id_end, spaced_spec.
  - intros suffix Hs. rewrite <- (replace_time_end p suffix Hs) at 2.
    unfold describe.
    destruct Hs as [<-|[<-|[<-|[]]]]; ends; cbn [fst]; now rewrite spaced_spec.
  - intros pre Hpre H1 H2. unfold describe. rewrite H1, H2.
    destruct Hpre as [<-|[<-|[]]]; cbn [startsWith Ascii.eqb Bool.eqb andb orb String.append];
      cbn [fst]; rewrite <- spaced_spec; reflexivity.
  - intros suffix Hs Hf. rewrite <- (replace_amount_end p suffix Hs) at 2.
    unfold describe. rewrite Hf.
    destruct Hs as [<-|[<-|[<-|[]]]]; ends; cbn [fst]; now rewrite spaced_spec.
  - intros Hf. rewrite <- (replace_name_end p) at 2.
    unfold describe. rewrite Hf. ends. cbn [fst]. now rewrite spaced_spec.
  - intros suffix text Hs Hf. unfold describe. rewrite Hf.
    destruct Hs as [[= <- <-]|[[= <- <-]|[[= <- <-]|[]]]]; ends; cbn [fst].
    + now rewrite (last_piece_app "type" eq_refl p).
    + now rewrite (last_piece_app "status" eq_refl p).
    + now rewrite (last_piece_app "category" eq_refl p).
Qed.

(** *** The columns and their tests *)

Lemma describe_primary_key model cname d :
  describe model cname = (d, true) ->
  endsWith "_id" cname = true /\
  (cname = replace_start re_layer "" (name model) +:+ "_id" \/
   cname = show_opt (last_piece (name model)) +:+ "_id").
Proof.
  unfold describe. destruct (endsWith "_id" cname).
  - intros [= _ H]. split; [reflexivity|].
    apply orb_true_iff in H as [H|H]; apply String.eqb_eq in H; auto.
  - repeat match goal with
           | |- context [if ?b then _ else _] => destruct b
           end; discriminate.
Qed.

Lemma extract_step_keys model (P : ColumnInfo -> Prop) columns pat :
  (forall cname d pk required,
     (pk = true -> required = true /\ describe model cname = (d, true)) ->
     P {| c_name := cname; c_description := d; isPrimaryKey := pk;
          isRequired := required |}) ->
  Forall P columns -> Forall P (extract_step model columns pat).
Proof.
  intros HP Hall. unfold extract_step.
  destruct (String.eqb (trim pat) "" || String.eqb (trim pat) "*"); [exact Hall|].
  destruct (search re_alias (trim pat)) as [m|]; [|exact Hall].
  destruct (describe model (cap 1 m)) as [d pk] eqn:E.
  apply Forall_app. split; [exact Hall|]. constructor; [|constructor].
  apply HP. intros ->. split; [|exact E].
  destruct (includes "not null" _ || includes "coalesce" _); reflexivity.
Qed.

Lemma extractColumns_keys model (P : ColumnInfo -> Prop) content cols :
  (forall cname d pk required,
     (pk = true -> required = true /\ describe model cname = (d, true)) ->
     P {| c_name := cname; c_description := d; isPrimaryKey := pk;
          isRequired := required |}) ->
  extractColumns content model = Ok cols -> Forall P cols.
Proof.
  intros HP. unfold extractColumns.
  destruct (search re_select content) as [m|]; [|intros [= <-]; constructor].
  destruct (group 1 (groups m)) as [clause|]; [|discriminate].
  cbn [mbind result_bind bind need]. intros [= <-].
  assert (G : forall l acc, Forall P acc -> Forall P (fold_left (extract_step model) l acc)).
  { induction l as [|pat l IH]; intros acc Hacc; [exact Hacc|].
    cbn [fold_left]. apply IH. now apply extract_step_keys. }
  apply G. constructor.
Qed.

(** X23. Primary keys and tests in the generated documentation.  A column
    that extractColumns marks as primary key is required, has a name that
    ends with _id, and that name is the name of the model without its layer
    prefix, or the last piece of the name of the model, followed by _id.
    The documented columns are, in order, some of the extracted columns;
    each has a description or tests; its tests, if any, include not_null,
    and include unique only for a name that ends with _id; and every
    primary key is documented, with both tests. *)
Theorem primary_keys_are_tested (content : string) (model : ParsedModel)
    (cols : list ColumnInfo) :
  extractColumns content model = Ok cols ->
  Forall (fun c => isPrimaryKey c = true ->
            isRequired c = true /\ endsWith "_id" (c_name c) = true /\
            (c_name c = replace_start re_layer "" (name model) +:+ "_id" \/
             c_name c = show_opt (last_piece (name model)) +:+ "_id")) cols /\
  map d_name (column_docs cols) `sublist_of` map c_name cols /\
  Forall (fun d =>
            (d_description d <> "" \/ is_Some (data_tests d)) /\
            (forall ts, data_tests d = Some ts -> In test_not_null ts) /\
            (forall ts, data_tests d = Some ts -> In test_unique ts ->
                        endsWith "_id" (d_name d) = true))
         (column_docs cols) /\
  (forall c, In c cols -> isPrimaryKey c = true ->
     In {| d_name := c_name c; d_description := c_description c;
           data_tests := Some [test_unique; test_not_null] |} (column_docs cols)).
Proof.
  intros Hx.
  assert (Hkeys : Forall (fun c => isPrimaryKey c = true ->
            isRequired c = true /\ endsWith "_id" (c_name c) = true /\
            (c_name c = replace_start re_layer "" (name model) +:+ "_id" \/
             c_name c = show_opt (last_piece (name model)) +:+ "_id")) cols).
  { apply (extractColumns_keys model _ content cols); [|exact Hx].
    intros cname d pk required H. cbn [isPrimaryKey isRequired c_name].
    intros Hpk. destruct (H Hpk) as [-> Hd].
    split; [reflexivity|]. exact (describe_primary_key _ _ _ Hd). }
  split; [exact Hkeys|]. clear Hx. unfold column_docs.
  split; [|split].
  - induction cols as [|c cols IH]; [constructor|].
    apply Forall_cons in Hkeys as [_ Hkeys]. cbn [map List.filter].
    match goal with |- context [if ?b then _ else _] => destruct b end.
    + cbn [map d_name]. constructor. now apply IH.
    + constructor. now apply IH.
  - rewrite List.Forall_forall. intros d Hd.
    apply filter_In in Hd as [Hd Hkeep]. apply in_map_iff in Hd as (c & <- & Hc).
    rewrite List.Forall_forall in Hkeys. specialize (Hkeys c Hc).
    cbn [d_description data_tests d_name] in *.
    split; [|split].
    + apply orb_true_iff in Hkeep as [Hk|Hk].
      * left. intros E. rewrite E in Hk. discriminate Hk.
      * right. now apply bool_decide_eq_true in Hk.
    + intros ts. destruct (isPrimaryKey c); [intros [= <-]; cbn; auto|].
      destruct (isRequired c); [intros [= <-]; cbn; auto | discriminate].
    + intros ts. destruct (isPrimaryKey c).
      * intros _ _. now apply Hkeys.
      * destruct (isRequired c); [|discriminate].
        intros [= <-] [H|[]]. discriminate H.
  - intros c Hc Hpk. apply filter_In. split.
    + apply in_map_iff. exists c. split; [|exact Hc]. now rewrite Hpk.
    + cbn [data_tests d_description]. apply orb_true_iff. right.
      apply bool_decide_eq_true. eauto.
Qed.

Lemma primary_keys_are_tested_witness :
  map d_name (column_docs
                [{| c_name := "orders_id";
                    c_description := "Unique identifier for orders";
                    isPrimaryKey := true; isRequired := true |};
                 {| c_name := "note"; c_description := "";
                    isPrimaryKey := false; isRequired := false |}])
  `sublist_of` ["orders_id"; "note"].
Proof.
  refine (proj1 (proj2 (primary_keys_are_tested
                          "select orders_id, note from t"
                          {| name := "fct_orders"; type := fact; materialization := None;
                             config := ∅; refs := []; sources := [];
                             columns := ["orders_id"; "note"]; hasTests := false;
                             cteCount := 0; lineCount := 1 |} _ _))).
  vm_compute. reflexivity.
Defined.

(** ** Merging the columns of a schema file *)

Lemma findIndex_spec {A} (p : A -> bool) l :
  (findIndex p l = -1 /\ Forall (fun x => p x = false) l) \/
  (exists i x, findIndex p l = Z.of_nat i /\ l !! i = Some x /\ p x = true /\
               forall j y, (j < i)%nat -> l !! j = Some y -> p y = false).
Proof.
  induction l as [|a l IH]; [left; split; [reflexivity | constructor]|].
  cbn [findIndex]. destruct (p a) eqn:Ea.
  - right. exists 0%nat, a. repeat split; auto. intros j y Hj. lia.
  - destruct IH as [[-> Hall]|(i & x & -> & Hx & Hp & Hlt)].
    + left. split; [reflexivity | now constructor].
    + right. exists (S i), x. split.
      { destruct (Z.of_nat i) eqn:E; lia. }
      repeat split; auto.
      intros [|j] y Hj Hy; [now injection Hy as <-|].
      apply (Hlt j); [lia | exact Hy].
Qed.

Lemma findIndex_intro {A} (p : A -> bool) l :
  forall i x,
    l !! i = Some x -> p x = true ->
    (forall j y, (j < i)%nat -> l !! j = Some y -> p y = false) ->
    findIndex p l = Z.of_nat i.
Proof.
  induction l as [|a l IH]; intros i x Hx Hp Hlt; [discriminate|].
  cbn [findIndex]. destruct i as [|i].
  - injection Hx as ->. now rewrite Hp.
  - rewrite (Hlt 0%nat a) by (reflexivity || lia).
    rewrite (IH i x Hx Hp).
    + destruct (Z.of_nat i) eqn:E; lia.
    + intros j y Hj Hy. apply (Hlt (S j)); [lia | exact Hy].
Qed.

Section MergeProperties.
Context {value : Type} `{!Values value}.

Lemma field_described_name (c : gmap string value) v :
  field (<["description" := v]> c) "name" = field c "name".
Proof. unfold field. now rewrite lookup_insert_ne. Qed.

Lemma field_described (c : gmap string value) v :
  field (<["description" := v]> c) "description" = v.
Proof. unfold field. now rewrite lookup_insert_eq. Qed.

(** One turn of the loop never throws; it leaves each entry as it is or
    gives it the description of the column, and adds at most the column. *)
Lemma merge_step_spec merged col :
  exists merged',
    merge_step merged col = Ok merged' /\
    (List.length merged <= List.length merged' <= List.length merged + 1)%nat /\
    (forall i, (List.length merged <= i)%nat -> merged' !! i = Some col \/ merged' !! i = None) /\
    forall i c, merged !! i = Some c ->
      exists c', merged' !! i = Some c' /\
        (c' = c \/
         (is_truthy (field c "description") = false /\
          is_truthy (field col "description") = true /\
          strict_eq (field c "name") (field col "name") = true /\
          c' = <["description" := field col "description"]> c)).
Proof.
  unfold merge_step.
  destruct (findIndex_spec (fun c => strict_eq (field c "name") (field col "name")) merged)
    as [[-> _]|(i & x & -> & Hx & Hp & _)].
  - change (-1 <? 0) with true. cbv iota. eexists. split; [reflexivity|].
    rewrite length_app. cbn [List.length]. split; [lia|]. split.
    + intros i Hi. rewrite lookup_app_r by exact Hi.
      destruct (i - List.length merged)%nat as [|n]; [left | right]; reflexivity.
    + intros i c Hc. exists c. split; [|now left].
      rewrite lookup_app_l; [exact Hc | now apply lookup_lt_Some in Hc].
  - replace (Z.of_nat i <? 0) with false by (symmetry; apply Z.ltb_ge; lia).
    rewrite Nat2Z.id, Hx.
    destruct (negb (is_truthy (field x "description")) && is_truthy (field col "description"))
      eqn:Eu.
    + apply andb_true_iff in Eu as [Eu1 Eu2]. apply negb_true_iff in Eu1.
      eexists. split; [reflexivity|]. rewrite length_insert. split; [lia|]. split.
      * intros j Hj. right. apply list_lookup_insert_None. now apply lookup_ge_None.
      * intros j c Hc. destruct (decide (i = j)) as [<-|Hne].
        -- rewrite list_lookup_insert_eq by (now apply lookup_lt_Some in Hx).
           assert (c = x) as -> by congruence.
           eexists. split; [reflexivity|]. right. auto.
        -- rewrite list_lookup_insert_ne by exact Hne. exists c. auto.
    + eexists. split; [reflexivity|]. split; [lia|]. split.
      * intros j Hj. right. now apply lookup_ge_None.
      * intros j c Hc. exists c. auto.
Qed.

Lemma merge_loop_spec generated :
  forall merged,
    exists merged',
      merge_loop generated merged = Ok merged' /\
      (List.length merged <= List.length merged'
       <= List.length merged + List.length generated)%nat /\
      forall i c, merged !! i = Some c ->
        exists c', merged' !! i = Some c' /\ kept_entry generated c c'.
Proof.
  induction generated as [|col generated IH]; intros merged.
  - exists merged. split; [reflexivity|]. cbn [List.length]. split; [lia|].
    intros i c Hc. exists c. split; [exact Hc | now left].
  - cbn [merge_loop].
    destruct (merge_step_spec merged col) as (m1 & -> & Hlen1 & _ & H1).
    cbn [mbind result_bind bind].
    destruct (IH m1) as (m2 & -> & Hlen2 & H2).
    exists m2. split; [reflexivity|]. cbn [List.length]. split; [lia|].
    intros i c Hc.
    destruct (H1 i c Hc) as (c1 & Hc1 & Hk1).
    destruct (H2 i c1 Hc1) as (c2 & Hc2 & Hk2).
    exists c2. split; [exact Hc2|].
    destruct Hk1 as [->|(Hf & Ht & He & ->)].
    + destruct Hk2 as [->|(Hf & col' & Hin & Ht & He & ->)]; [now left|].
      right. split; [exact Hf|]. exists col'. cbn [In]. auto.
    + destruct Hk2 as [->|(Hf' & _)].
      * right. split; [exact Hf|]. exists col. cbn [In]. auto.
      * rewrite field_described in Hf'. congruence.
Qed.

(** X24. Enhancing a schema never loses what is there.  mergeColumns does
    not throw.  With no list of columns it returns the generated columns.
    With one, the result begins with the entries of that list, in their
    places, and holds at most the generated columns more; each of these
    entries is unchanged, or is the old entry with the description of a
    generated column of the same name where it had no description; in both
    cases it keeps its name, and an entry that has a description is not
    changed at all. *)
Theorem merge_keeps_existing (existing generated : list (gmap string value)) :
  mergeColumns None generated = Ok generated /\
  exists merged,
    mergeColumns (Some existing) generated = Ok merged /\
    (List.length existing <= List.length merged
     <= List.length existing + List.length generated)%nat /\
    forall i c, existing !! i = Some c ->
      exists c', merged !! i = Some c' /\
        kept_entry generated c c' /\
        field c' "name" = field c "name" /\
        (is_truthy (field c "description") = true -> c' = c).
Proof.
  split; [reflexivity|]. cbn [mergeColumns].
  destruct (merge_loop_spec generated existing) as (merged & -> & Hlen & H).
  exists merged. split; [reflexivity|]. split; [exact Hlen|].
  intros i c Hc. destruct (H i c Hc) as (c' & Hc' & Hk).
  exists c'. split; [exact Hc'|]. split; [exact Hk|].
  destruct Hk as [->|(Hf & col & _ & _ & _ & ->)].
  - auto.
  - split; [apply field_described_name | congruence].
Qed.
(** The column [col] has its entry in [merged], the first of its name,
    and has nothing to give it: the entry has a description or the column
    has none. *)
Lemma settled_step merged col i c :
  findIndex (fun c => strict_eq (field c "name") (field col "name")) merged = Z.of_nat i ->
  merged !! i = Some c ->
  is_truthy (field c "description") = true \/ is_truthy (field col "description") = false ->
  merge_step merged col = Ok merged.
Proof.
  intros Hi Hc Hd. unfold merge_step. rewrite Hi.
  replace (Z.of_nat i <? 0) with false by (symmetry; apply Z.ltb_ge; lia).
  rewrite Nat2Z.id, Hc.
  destruct Hd as [->| ->]; [reflexivity | now rewrite andb_false_r].
Qed.

Lemma step_keeps_settled merged merged' col' col i c :
  merge_step merged col' = Ok merged' ->
  findIndex (fun c => strict_eq (field c "name") (field col "name")) merged = Z.of_nat i ->
  merged !! i = Some c ->
  is_truthy (field c "description") = true \/ is_truthy (field col "description") = false ->
  exists c',
    findIndex (fun c => strict_eq (field c "name") (field col "name")) merged' = Z.of_nat i /\
    merged' !! i = Some c' /\
    (is_truthy (field c' "description") = true \/ is_truthy (field col "description") = false).
Proof.
  intros Hstep Hi Hc Hd.
  destruct (merge_step_spec merged col') as (m & Hm & _ & _ & Hkeep).
  rewrite Hstep in Hm. injection Hm as <-.
  destruct (findIndex_spec (fun c => strict_eq (field c "name") (field col "name")) merged)
    as [[E _]|(i0 & x & E & Hx & Hp & Hlt)]; [lia|].
  assert (i0 = i) as -> by lia. assert (x = c) as -> by congruence.
  destruct (Hkeep i c Hc) as (c' & Hc' & Hk). exists c'.
  split; [|split; [exact Hc'|]].
  - apply (findIndex_intro _ _ i c' Hc').
    + destruct Hk as [->|(_ & _ & _ & ->)]; [exact Hp|].
      now rewrite field_described_name.
    + intros j y' Hj Hy'.
      destruct (lookup_lt_is_Some_2 merged j) as [y Hy].
      { apply lookup_lt_Some in Hc. lia. }
      destruct (Hkeep j y Hy) as (y2 & Hy2 & Hk2).
      assert (y2 = y') as -> by congruence.
      destruct Hk2 as [->|(_ & _ & _ & ->)]; [now apply (Hlt j)|].
      rewrite field_described_name. now apply (Hlt j).
  - destruct Hk as [->|(_ & Ht & _ & ->)]; [exact Hd|].
    left. now rewrite field_described.
Qed.

Lemma step_settles merged merged' col :
  strict_eq (field col "name") (field col "name") = true ->
  merge_step merged col = Ok merged' ->
  exists i c,
    findIndex (fun c => strict_eq (field c "name") (field col "name")) merged' = Z.of_nat i /\
    merged' !! i = Some c /\
    (is_truthy (field c "description") = true \/ is_truthy (field col "description") = false).
Proof.
  intros Hrefl. unfold merge_step.
  destruct (findIndex_spec (fun c => strict_eq (field c "name") (field col "name")) merged)
    as [[-> Hall]|(i & x & -> & Hx & Hp & Hlt)].
  - change (-1 <? 0) with true. cbv iota. intros [= <-].
    exists (List.length merged), col.
    assert ((merged ++ [col])%list !! List.length merged = Some col) as Hl
      by now apply list_lookup_middle.
    split; [|split; [exact Hl|]].
    + apply (findIndex_intro _ _ _ col Hl Hrefl).
      intros j y Hj Hy. rewrite lookup_app_l in Hy by exact Hj.
      rewrite List.Forall_forall in Hall. apply Hall.
      apply list_elem_of_lookup_2, list_elem_of_In in Hy. exact Hy.
    + destruct (is_truthy (field col "description")); auto.
  - replace (Z.of_nat i <? 0) with false by (symmetry; apply Z.ltb_ge; lia).
    rewrite Nat2Z.id, Hx.
    destruct (negb (is_truthy (field x "description")) && is_truthy (field col "description"))
      eqn:Eu; intros [= <-].
    + apply andb_true_iff in Eu as [_ Eu].
      assert (<[i := <["description" := field col "description"]> x]> merged !! i
              = Some (<["description" := field col "description"]> x)) as Hl
        by (apply list_lookup_insert_eq; now apply lookup_lt_Some in Hx).
      eexists i, _. split; [|split; [exact Hl|]].
      * apply (findIndex_intro _ _ _ _ Hl); [now rewrite field_described_name|].
        intros j y Hj Hy. rewrite list_lookup_insert_ne in Hy by lia.
        now apply (Hlt j).
      * left. now rewrite field_described.
    + exists i, x. split; [|split; [exact Hx|]].
      * now apply (findIndex_intro _ _ i x).
      * apply andb_false_iff in Eu as [Eu|Eu]; [left | right; exact Eu].
        now apply negb_false_iff in Eu.
Qed.

Lemma merge_loop_settles generated :
  forall merged merged',
    Forall (fun col => strict_eq (field col "name") (field col "name") = true) generated ->
    merge_loop generated merged = Ok merged' ->
    Forall (fun col =>
              exists i c,
                findIndex (fun c => strict_eq (field c "name") (field col "name")) merged'
                = Z.of_nat i /\
                merged' !! i = Some c /\
                (is_truthy (field c "description") = true
                 \/ is_truthy (field col "description") = false))
           generated.
Proof.
  assert (Hkeep : forall generated merged merged' col i c,
             merge_loop generated merged = Ok merged' ->
             findIndex (fun c => strict_eq (field c "name") (field col "name")) merged
             = Z.of_nat i ->
             merged !! i = Some c ->
             is_truthy (field c "description") = true
             \/ is_truthy (field col "description") = false ->
             exists c',
               findIndex (fun c => strict_eq (field c "name") (field col "name")) merged'
               = Z.of_nat i /\
               merged' !! i = Some c' /\
               (is_truthy (field c' "description") = true
                \/ is_truthy (field col "description") = false)).
  { clear generated. induction generated as [|col' generated IH];
      intros merged merged' col i c Hloop Hi Hc Hd.
    - injection Hloop as <-. eauto.
    - cbn [merge_loop] in Hloop.
      destruct (merge_step merged col') as [m1|] eqn:E1; [|discriminate].
      cbn [mbind result_bind bind] in Hloop.
      destruct (step_keeps_settled _ _ _ _ _ _ E1 Hi Hc Hd) as (c1 & Hi1 & Hc1 & Hd1).
      exact (IH _ _ _ _ _ Hloop Hi1 Hc1 Hd1). }
  induction generated as [|col generated IH]; intros merged merged' Hrefl Hloop;
    [constructor|].
  apply Forall_cons in Hrefl as [Hr Hrefl]. cbn [merge_loop] in Hloop.
  destruct (merge_step merged col) as [m1|] eqn:E1; [|discriminate].
  cbn [mbind result_bind bind] in Hloop.
  constructor; [|exact (IH _ _ Hrefl Hloop)].
  destruct (step_settles _ _ _ Hr E1) as (i & c & Hi & Hc & Hd).
  destruct (Hkeep _ _ _ _ _ _ Hloop Hi Hc Hd) as (c' & H'). eauto.
Qed.

(** X25. Enhancing a schema finds a place for every generated column and
    reaches a fixed point.  When the name of each generated column is equal
    to itself (as every string is), the merged list holds for each
    generated column an entry of that name, and merging the same generated
    columns into the merged list once more changes nothing. *)
Theorem merge_is_idempotent (existing generated merged : list (gmap string value)) :
  Forall (fun col => strict_eq (field col "name") (field col "name") = true) generated ->
  mergeColumns (Some existing) generated = Ok merged ->
  Forall (fun col => exists c, In c merged /\
                       strict_eq (field c "name") (field col "name") = true) generated /\
  mergeColumns (Some merged) generated = Ok merged.
Proof.
  cbn [mergeColumns]. intros Hrefl Hloop.
  pose proof (merge_loop_settles _ _ _ Hrefl Hloop) as Hs. clear Hloop Hrefl.
  split.
  - eapply List.Forall_impl; [|exact Hs]. cbv beta.
    intros col (i & c & Hi & Hc & _). exists c. split.
    + apply list_elem_of_lookup_2, list_elem_of_In in Hc. exact Hc.
    + destruct (findIndex_spec (fun c => strict_eq (field c "name") (field col "name")) merged)
        as [[E _]|(i0 & x & E & Hx & Hp & _)]; [lia|].
      assert (i0 = i) as -> by lia. congruence.
  - induction Hs as [|col generated (i & c & Hi & Hc & Hd) _ IH]; [reflexivity|].
    cbn [merge_loop]. rewrite (settled_step _ _ _ _ Hi Hc Hd).
    exact IH.
Qed.
End MergeProperties.

Lemma merge_is_idempotent_witness :
  let generated : list (gmap string (option string)) :=
    [{["name" := Some "id"; "description" := Some "Unique identifier"]};
     {["name" := Some "note"]}] in
  let merged : list (gmap string (option string)) :=
    [{["name" := Some "id"; "description" := Some "Unique identifier"]};
     {["name" := Some "note"]}] in
  mergeColumns (Some merged) generated = Ok merged.
Proof.
  cbv zeta.
  refine (proj2 (merge_is_idempotent [{["name" := Some "id"]}] _ _ _ _)).
  - repeat constructor.
  - vm_compute. reflexivity.
Defined.

(** ** The strengths of a review *)

Lemma in_fired_iff {A} (b : bool) (x i : A) : In i (fired b x) <-> b = true /\ x = i.
Proof.
  destruct b; cbn [fired In]; split.
  - intros [H|[]]. auto.
  - intros [_ H]. auto.
  - intros [].
  - intros [H _]. discriminate H.
Qed.

(** X26. The strengths of a review are some of five fixed texts, in the
    order of the checks and without repetition; they depend neither on
    [strict] nor on the warehouse.  The strength on incremental
    materialization is named exactly for a model materialized as
    incremental, and a review that praises the use of CTEs (1 to 5 of them)
    never holds the issue High CTE count (more than 7). *)
Theorem strengths_of_review (model : ParsedModel) (content warehouse : string)
    (strict : bool) :
  let r := reviewCode model content warehouse strict in
  strengths r `sublist_of` all_strengths /\
  NoDup (strengths r) /\
  (forall warehouse' strict',
     strengths (reviewCode model content warehouse' strict') = strengths r) /\
  (In "Uses incremental materialization for efficiency" (strengths r) <->
   materialization model = Some "incremental") /\
  (In "Uses CTEs for readable organization" (strengths r) ->
   forall i, In i (issues r) -> title i <> "High CTE count").
Proof.
  cbv zeta.
  assert (Hsub : strengths (reviewCode model content warehouse strict)
                 `sublist_of` all_strengths).
  { rewrite reviewCode_strengths. unfold all_strengths.
    repeat (apply (sublist_app _ [_]); [apply fired_sublist|]).
    apply fired_sublist. }
  split; [exact Hsub|]. split; [|split; [|split]].
  - refine (sublist_NoDup _ _ _ Hsub). apply (bool_decide_unpack _). vm_compute. exact I.
  - intros warehouse' strict'. now rewrite !reviewCode_strengths.
  - rewrite reviewCode_strengths, !in_app_iff, !in_fired_iff. split.
    + intros [[_ H]|[[_ H]|[[_ H]|[[Hb _]|[_ H]]]]]; try discriminate H.
      unfold option_eqb in Hb. destruct (materialization model) as [v|]; [|discriminate].
      apply String.eqb_eq in Hb. now subst v.
    + intros ->. right. right. right. left. split; reflexivity.
  - rewrite reviewCode_strengths, !in_app_iff, !in_fired_iff.
    intros [[_ H]|[[_ H]|[[_ H]|[[_ H]|[Hb _]]]]]; try discriminate H.
    apply andb_true_iff in Hb as [_ Hle]. apply Z.leb_le in Hle.
    intros i Hi Ht. rewrite reviewCode_issues, !in_app_iff in Hi.
    destruct Hi as [Hi|[Hi|Hi]].
    + apply in_map_iff in Hi as (ap & <- & Hap). cbn [title review_of] in Ht.
      rule_inv Hap Ht. apply Z.ltb_lt in Hb. lia.
    + apply in_fired_true in Hi as [_ ->]. discriminate Ht.
    + apply in_fired_true in Hi as [_ ->]. discriminate Ht.
Qed.
